(** * vrack2-modbus: the Modbus RTU frame codec and the bus controller

    A shallow embedding of [src/classes/ModbusRTU.ts] (the static class
    [ModbusRTU]) and of [src/DeviceRTU.ts] (the class [DeviceRTU]), followed
    by the properties stated about them.

    Conventions.
    - A Node [Buffer] is a [list byte]; a byte read as a number is [u8 b].
    - A JavaScript number is a [Z]: every number the codec handles is an
      integer. The bitwise operators work on 32-bit signed integers, which
      is written out with [to_int32].
    - A function that can throw returns a [result]; the error kinds are the
      ones registered with the [ErrorManager], plus the [RangeError] that
      the [Buffer] accessors raise. *)

From Stdlib Require Import ZArith List Lia Bool Sorted.
From Stdlib Require Import Strings.Byte.
Import ListNotations.

Local Open Scope Z_scope.

(** ** Errors and fallible results *)

Inductive error : Type :=
| V2MODBUS_CRC_CHECK_FAILED
| V2MODBUS_PACKET_TOO_SHORT
| V2MODBUS_WRITE_DATA_REQUIRED_COILS
| V2MODBUS_COILS_COUNT_INVALID
| V2MODBUS_WRITE_DATA_REQUIRED_REGISTERS
| V2MODBUS_REGISTERS_COUNT_INVALID
| V2MODBUS_UNSUPPORTED_FUNCTION_CODE
| RangeError.

Inductive result (A : Type) : Type :=
| Ok (a : A)
| Err (e : error).

Arguments Ok {A} a.
Arguments Err {A} e.

Definition bind {A B : Type} (r : result A) (k : A -> result B) : result B :=
  match r with
  | Ok a => k a
  | Err e => Err e
  end.

Notation "x <- r ;; k" := (bind r (fun x => k))
  (at level 61, r at next level, right associativity).

(** ** Counted loops

    [for_loop n body s] is the state after
    [for (let i = 0; i < n; i++) s = body(i, s)]. *)

Fixpoint for_loop {S : Type} (n : nat) (body : nat -> S -> S) (s : S) : S :=
  match n with
  | O => s
  | S i => body i (for_loop i body s)
  end.

(** ** JavaScript integer operators *)

Module JS.

(** ToInt32: the operand conversion of every bitwise operator. *)
Definition to_int32 (z : Z) : Z := (z + 2 ^ 31) mod 2 ^ 32 - 2 ^ 31.

Definition and (a b : Z) : Z := Z.land (to_int32 a) (to_int32 b).
Definition or (a b : Z) : Z := Z.lor (to_int32 a) (to_int32 b).
Definition xor (a b : Z) : Z := Z.lxor (to_int32 a) (to_int32 b).
(** [a >> n], sign-propagating; the shift count is taken modulo 32. *)
Definition shr (a n : Z) : Z := Z.shiftr (to_int32 a) (n mod 32).
(** [a << n]. *)
Definition shl (a n : Z) : Z := to_int32 (Z.shiftl (to_int32 a) (n mod 32)).

(** Truthiness of a number: every number but zero. *)
Definition truthy (z : Z) : bool := negb (z =? 0).

End JS.

(** ** Node buffers *)

Definition Buffer : Type := list byte.

Definition u8 (b : byte) : Z := Z.of_N (Byte.to_N b).

(** The byte a typed array stores when a number is assigned to one of its
    elements: the number modulo 256. *)
Definition wrap8 (z : Z) : byte :=
  match Byte.of_N (Z.to_N (z mod 256)) with
  | Some b => b
  | None => x00
  end.

Module Buf.

Definition alloc (n : nat) : Buffer := repeat x00 n.

(** Replace the element at index [i]; outside the buffer nothing happens. *)
Fixpoint set (buf : Buffer) (i : nat) (b : byte) : Buffer :=
  match buf, i with
  | [], _ => []
  | _ :: rest, O => b :: rest
  | x :: rest, S i' => x :: set rest i' b
  end.

(** [buf[i]] for an index inside the buffer. *)
Definition get (buf : Buffer) (i : nat) : Z := u8 (nth i buf x00).

Definition readUInt8 (buf : Buffer) (off : nat) : result Z :=
  match nth_error buf off with
  | Some b => Ok (u8 b)
  | None => Err RangeError
  end.

Definition readUInt16LE (buf : Buffer) (off : nat) : result Z :=
  match nth_error buf off, nth_error buf (S off) with
  | Some lo, Some hi => Ok (u8 lo + 256 * u8 hi)
  | _, _ => Err RangeError
  end.

Definition writeUInt8 (buf : Buffer) (value : Z) (off : nat) : result Buffer :=
  if (0 <=? value) && (value <=? 255) && (off <? length buf)%nat
  then Ok (set buf off (wrap8 value))
  else Err RangeError.

Definition writeUInt16BE (buf : Buffer) (value : Z) (off : nat) : result Buffer :=
  if (0 <=? value) && (value <=? 65535) && (S off <? length buf)%nat
  then Ok (set (set buf off (wrap8 (value / 256))) (S off) (wrap8 value))
  else Err RangeError.

Definition writeUInt16LE (buf : Buffer) (value : Z) (off : nat) : result Buffer :=
  if (0 <=? value) && (value <=? 65535) && (S off <? length buf)%nat
  then Ok (set (set buf off (wrap8 value)) (S off) (wrap8 (value / 256)))
  else Err RangeError.

(** [buf.subarray(start, -back)]: from [start] up to [back] bytes before
    the end. *)
Definition subarray (buf : Buffer) (start back : nat) : Buffer :=
  skipn start (firstn (length buf - back) buf).

Definition concat (bufs : list Buffer) : Buffer := List.concat bufs.

End Buf.

(** [buffer[from .. to)], the way the properties below name a range of
    bytes. *)
Definition slice (buffer : Buffer) (from to : nat) : Buffer :=
  firstn (to - from) (skipn from buffer).

(** ** The codec: [ModbusRTU] *)

Record ModbusResponse : Type := {
  slaveId : Z;
  functionCode : Z;
  byteCount : Z;
  data : Buffer;
  exceptionCode : option Z
}.

(** An element of the array passed as [writeData]: a number, or a value of
    another type, which the declared type [number[]] rules out but the code
    tests for. Of such a value the code reads only whether it is truthy. *)
Inductive jsValue : Type :=
| Number (n : Z)
| NotNumber (truthy : bool).

(** [if (v)] *)
Definition truthyValue (v : jsValue) : bool :=
  match v with
  | Number n => JS.truthy n
  | NotNumber t => t
  end.

(** [a[i]]: [undefined] past the end. *)
Definition element (a : list jsValue) (i : nat) : jsValue :=
  nth i a (NotNumber false).

(** The optional [writeData] argument of [makeRequest]. *)
Inductive writeArg : Type :=
| Absent
| NotArray
| Array (items : list jsValue).

(** A [number[]], the declared type of the argument. *)
Definition Values (values : list Z) : writeArg := Array (map Number values).

Module ModbusRTU.

(** The body of the inner loop of [calculateCRC16]. *)
Definition crcShift (crc : Z) : Z :=
  if negb (JS.and crc 0x0001 =? 0)
  then JS.xor (JS.shr crc 1) 0xA001
  else JS.shr crc 1.

(** The body of the outer loop: [crc ^= buffer[i]], then the inner loop. *)
Definition crcByte (crc : Z) (bufferI : Z) : Z :=
  let crc := JS.xor crc bufferI in
  for_loop 8 (fun _ crc => crcShift crc) crc.

Definition calculateCRC16 (buffer : Buffer) : Z :=
  for_loop (length buffer) (fun i crc => crcByte crc (Buf.get buffer i)) 0xFFFF.

Definition addCRC (data : Buffer) : result Buffer :=
  let crc := calculateCRC16 data in
  crcBuf <- Buf.writeUInt16LE (Buf.alloc 2) crc 0 ;;
  Ok (Buf.concat [data; crcBuf]).

Definition verifyCRC (buffer : Buffer) : result bool :=
  if (length buffer <? 2)%nat then Ok false
  else
    let data := Buf.subarray buffer 0 2 in
    receivedCRC <- Buf.readUInt16LE buffer (length buffer - 2) ;;
    let calculatedCRC := calculateCRC16 data in
    Ok (receivedCRC =? calculatedCRC).

Definition isReadClass (fc : Z) : bool :=
  (fc =? 0x01) || (fc =? 0x02) || (fc =? 0x03) || (fc =? 0x04).

(** [parseResponse] past its two checks: the fields are read. *)
Definition parseFields (buffer : Buffer) : result ModbusResponse :=
  slaveId <- Buf.readUInt8 buffer 0 ;;
  functionCode <- Buf.readUInt8 buffer 1 ;;
  if negb (JS.and functionCode 0x80 =? 0) then
    exceptionCode <- Buf.readUInt8 buffer 2 ;;
    Ok {| slaveId := slaveId;
          functionCode := JS.and functionCode 0x7F;
          byteCount := 0;
          data := Buf.alloc 0;
          exceptionCode := Some exceptionCode |}
  else
    let byteCount := Z.of_nat (length buffer) - 4 in
    let data := Buf.subarray buffer 2 2 in
    if isReadClass functionCode then
      byteCount <- Buf.readUInt8 buffer 2 ;;
      let data := Buf.subarray buffer 3 2 in
      Ok {| slaveId := slaveId; functionCode := functionCode;
            byteCount := byteCount; data := data;
            exceptionCode := None |}
    else
      Ok {| slaveId := slaveId; functionCode := functionCode;
            byteCount := byteCount; data := data;
            exceptionCode := None |}.

Definition parseResponse (buffer : Buffer) : result ModbusResponse :=
  if (length buffer <? 4)%nat then Err V2MODBUS_PACKET_TOO_SHORT
  else
    valid <- verifyCRC buffer ;;
    if negb valid then Err V2MODBUS_CRC_CHECK_FAILED
    else parseFields buffer.

(** The [switch] of [isCompletePacket]: the read-class case has no
    [break], so a buffer of at most 5 bytes falls through to [default]. *)
Definition isCompletePacket (buffer : Buffer) : result bool :=
  if (length buffer <? 4)%nat then Ok false
  else
    fc <- Buf.readUInt8 buffer 1 ;;
    if isReadClass fc then
      if (5 <? length buffer)%nat then
        declared <- Buf.readUInt8 buffer 2 ;;
        Ok (Z.of_nat (length buffer) =? declared + 5)
      else Ok (length buffer =? 8)%nat
    else Ok (length buffer =? 8)%nat.

(** The bit-packing loop of the 0x0F case. *)
Definition packCoils (writeData : list jsValue) (quantity : nat) (buffer : Buffer)
  : Buffer :=
  for_loop quantity
    (fun i buffer =>
       let byteIndex := (i / 8)%nat in
       let bitIndex := Z.of_nat (i mod 8) in
       if truthyValue (element writeData i)
       then Buf.set buffer (7 + byteIndex)
              (wrap8 (JS.or (Buf.get buffer (7 + byteIndex)) (JS.shl 1 bitIndex)))
       else buffer)
    buffer.

(** The register loop of the 0x10 case. An element that is not a number
    is skipped ([continue]): its two bytes stay as [Buffer.alloc] left
    them. *)
Definition packRegisters (writeData : list jsValue) (quantity : nat)
  (buffer : Buffer) : result Buffer :=
  for_loop quantity
    (fun i acc =>
       buffer <- acc ;;
       match element writeData i with
       | Number value =>
           Buf.writeUInt16BE buffer (JS.and value 0xFFFF) (7 + i * 2)
       | NotNumber _ => Ok buffer
       end)
    (Ok buffer).

Definition makeRequest (slaveId functionCode address quantity : Z)
  (writeData : writeArg) : result Buffer :=
  let slaveId := JS.and slaveId 0xFF in
  let address := JS.and address 0xFFFF in
  buffer <-
    (if (functionCode =? 0x01) || (functionCode =? 0x02) then
       Buf.writeUInt16BE (Buf.alloc 6) quantity 4
     else if (functionCode =? 0x03) || (functionCode =? 0x04) then
       Buf.writeUInt16BE (Buf.alloc 6) quantity 4
     else if functionCode =? 0x05 then
       Buf.writeUInt16BE (Buf.alloc 6)
         (if JS.truthy quantity then 0xFF00 else 0x0000) 4
     else if functionCode =? 0x06 then
       Buf.writeUInt16BE (Buf.alloc 6) quantity 4
     else if functionCode =? 0x0F then
       match writeData with
       | Absent | NotArray => Err V2MODBUS_WRITE_DATA_REQUIRED_COILS
       | Array writeData =>
           if (length writeData <? 1)%nat || (1968 <? length writeData)%nat
           then Err V2MODBUS_COILS_COUNT_INVALID
           else
             let quantity := length writeData in
             (* Math.ceil(quantity / 8) *)
             let coilBytes := ((quantity + 7) / 8)%nat in
             let buffer := Buf.alloc (7 + coilBytes) in
             buffer <- Buf.writeUInt16BE buffer (Z.of_nat quantity) 4 ;;
             buffer <- Buf.writeUInt8 buffer (Z.of_nat coilBytes) 6 ;;
             Ok (packCoils writeData quantity buffer)
       end
     else if functionCode =? 0x10 then
       match writeData with
       | Absent | NotArray => Err V2MODBUS_WRITE_DATA_REQUIRED_REGISTERS
       | Array writeData =>
           if (length writeData <? 1)%nat || (123 <? length writeData)%nat
           then Err V2MODBUS_REGISTERS_COUNT_INVALID
           else
             let quantity := length writeData in
             let registerBytes := (quantity * 2)%nat in
             let buffer := Buf.alloc (7 + registerBytes) in
             buffer <- Buf.writeUInt16BE buffer (Z.of_nat quantity) 4 ;;
             buffer <- Buf.writeUInt8 buffer (Z.of_nat registerBytes) 6 ;;
             packRegisters writeData quantity buffer
       end
     else Err V2MODBUS_UNSUPPORTED_FUNCTION_CODE) ;;
  buffer <- Buf.writeUInt8 buffer slaveId 0 ;;
  buffer <- Buf.writeUInt8 buffer functionCode 1 ;;
  buffer <- Buf.writeUInt16BE buffer address 2 ;;
  addCRC buffer.

(** *** The helpers that fix the function code *)

Definition createReadCoilsRequest (slaveId address quantity : Z) : result Buffer :=
  makeRequest slaveId 0x01 address quantity Absent.

Definition createReadDiscreteInputsRequest (slaveId address quantity : Z)
  : result Buffer :=
  makeRequest slaveId 0x02 address quantity Absent.

Definition createReadHoldingRegistersRequest (slaveId address quantity : Z)
  : result Buffer :=
  makeRequest slaveId 0x03 address quantity Absent.

Definition createReadInputRegistersRequest (slaveId address quantity : Z)
  : result Buffer :=
  makeRequest slaveId 0x04 address quantity Absent.

Definition createWriteSingleCoilRequest (slaveId address : Z) (value : bool)
  : result Buffer :=
  makeRequest slaveId 0x05 address (if value then 1 else 0) Absent.

Definition createWriteSingleRegisterRequest (slaveId address value : Z)
  : result Buffer :=
  makeRequest slaveId 0x06 address value Absent.

Definition createWriteMultipleCoilsRequest (slaveId address : Z) (values : list Z)
  : result Buffer :=
  makeRequest slaveId 0x0F address (Z.of_nat (length values)) (Values values).

Definition createWriteMultipleRegistersRequest (slaveId address : Z)
  (values : list Z) : result Buffer :=
  makeRequest slaveId 0x10 address (Z.of_nat (length values)) (Values values).

(** *** The reference definition of the Modbus CRC16

    Written from the description of the algorithm, on plain integers:
    seed 0xFFFF; each byte is exclusive-ored into the low byte of the
    running value, which is then shifted right 8 times, with the
    polynomial 0xA001 exclusive-ored in whenever the bit shifted out is
    set. *)

Definition crc16RefShift (crc : Z) : Z :=
  if Z.odd crc then Z.lxor (crc / 2) 0xA001 else crc / 2.

Definition crc16RefByte (crc b : Z) : Z :=
  let high := Z.land crc 0xFF00 in
  let low := Z.lxor (Z.land crc 0x00FF) b in
  Nat.iter 8 crc16RefShift (Z.lor high low).

Definition crc16Reference (bytes : list Z) : Z :=
  fold_left crc16RefByte bytes 0xFFFF.

End ModbusRTU.

(** ** The bus controller: [DeviceRTU]

    The device is a record of the fields of the class; the host (timers,
    promises, the framework's [render] and [error]) is kept next to it:
    the armed timers, the counters that name fresh timers and promises, and
    a trace of the calls the device makes to the outside. The trace also
    records each invocation of a queued method, so that the order of
    execution can be stated.

    [inputBus] and [runQueue] are [async]: a call runs up to an [await],
    stops there, and goes on when the promise it waits for has settled.
    Whatever reaches the device in between (another handoff, an action that
    enqueues a method, a timer) finds it in the state the call left. Both
    are given here piece by piece, from one [await] to the next, and then
    once more as a single step, for the case that nothing comes in
    between.

    A queued method is a closure of type [Method]; what calling it does is
    a parameter, [call]. The poll routine [update] is a method of the
    device itself. Both act on the whole state. *)

Module DeviceRTU.

Section Controller.

Variables Method World Value Exn : Type.

(** How a call completes: it returns, or it throws. *)
Inductive completion (A : Type) : Type :=
| Returned (a : A)
| Thrown (e : Exn).

Arguments Returned {A} a.
Arguments Thrown {A} e.

(** An entry of the queue. [resolve] and [reject] are the two functions of
    one promise, named by its number. *)
Record QueueEntry : Type := {
  promise : Z;
  method : Method
}.

Inductive Event : Type :=
| Render (online process : bool) (progress : option bool)
| Error (err : Exn)
| CanRequest (provider : Z)
| Invoke (key : Z)
| Resolve (promise : Z) (value : Value)
| Reject (promise : Z) (err : Exn).

Record State : Type := {
  (* shares *)
  online : bool;
  process : bool;
  progress : option bool;
  (* fields *)
  Provider : option Z;
  queue : list (Z * QueueEntry);
  queueIndex : Z;
  offlineTimer : Z;
  (* options *)
  offTimeout : Z;
  (* host *)
  timers : list (Z * Z);
  nextTimer : Z;
  nextPromise : Z;
  trace : list Event;
  world : World
}.

(** A new device: [shares] has [online] and [process] only, the queue is
    empty, [queueIndex] is 1 and [offlineTimer] is 0. Timer handles are
    numbered from 1, so that a handle is truthy. *)
Definition init (timeout : Z) (w : World) : State :=
  {| online := false; process := false; progress := None;
     Provider := None; queue := []; queueIndex := 1; offlineTimer := 0;
     offTimeout := timeout;
     timers := []; nextTimer := 1; nextPromise := 1; trace := [];
     world := w |}.

Definition set_online (v : bool) (s : State) : State :=
  {| online := v; process := process s; progress := progress s;
     Provider := Provider s; queue := queue s; queueIndex := queueIndex s;
     offlineTimer := offlineTimer s; offTimeout := offTimeout s;
     timers := timers s; nextTimer := nextTimer s;
     nextPromise := nextPromise s; trace := trace s; world := world s |}.

Definition set_progress (v : option bool) (s : State) : State :=
  {| online := online s; process := process s; progress := v;
     Provider := Provider s; queue := queue s; queueIndex := queueIndex s;
     offlineTimer := offlineTimer s; offTimeout := offTimeout s;
     timers := timers s; nextTimer := nextTimer s;
     nextPromise := nextPromise s; trace := trace s; world := world s |}.

Definition set_Provider (v : option Z) (s : State) : State :=
  {| online := online s; process := process s; progress := progress s;
     Provider := v; queue := queue s; queueIndex := queueIndex s;
     offlineTimer := offlineTimer s; offTimeout := offTimeout s;
     timers := timers s; nextTimer := nextTimer s;
     nextPromise := nextPromise s; trace := trace s; world := world s |}.

Definition set_queue (v : list (Z * QueueEntry)) (s : State) : State :=
  {| online := online s; process := process s; progress := progress s;
     Provider := Provider s; queue := v; queueIndex := queueIndex s;
     offlineTimer := offlineTimer s; offTimeout := offTimeout s;
     timers := timers s; nextTimer := nextTimer s;
     nextPromise := nextPromise s; trace := trace s; world := world s |}.

Definition set_queueIndex (v : Z) (s : State) : State :=
  {| online := online s; process := process s; progress := progress s;
     Provider := Provider s; queue := queue s; queueIndex := v;
     offlineTimer := offlineTimer s; offTimeout := offTimeout s;
     timers := timers s; nextTimer := nextTimer s;
     nextPromise := nextPromise s; trace := trace s; world := world s |}.

Definition set_offlineTimer (v : Z) (s : State) : State :=
  {| online := online s; process := process s; progress := progress s;
     Provider := Provider s; queue := queue s; queueIndex := queueIndex s;
     offlineTimer := v; offTimeout := offTimeout s;
     timers := timers s; nextTimer := nextTimer s;
     nextPromise := nextPromise s; trace := trace s; world := world s |}.

Definition set_timers (v : list (Z * Z)) (n : Z) (s : State) : State :=
  {| online := online s; process := process s; progress := progress s;
     Provider := Provider s; queue := queue s; queueIndex := queueIndex s;
     offlineTimer := offlineTimer s; offTimeout := offTimeout s;
     timers := v; nextTimer := n;
     nextPromise := nextPromise s; trace := trace s; world := world s |}.

Definition set_nextPromise (v : Z) (s : State) : State :=
  {| online := online s; process := process s; progress := progress s;
     Provider := Provider s; queue := queue s; queueIndex := queueIndex s;
     offlineTimer := offlineTimer s; offTimeout := offTimeout s;
     timers := timers s; nextTimer := nextTimer s;
     nextPromise := v; trace := trace s; world := world s |}.

Definition set_world (v : World) (s : State) : State :=
  {| online := online s; process := process s; progress := progress s;
     Provider := Provider s; queue := queue s; queueIndex := queueIndex s;
     offlineTimer := offlineTimer s; offTimeout := offTimeout s;
     timers := timers s; nextTimer := nextTimer s;
     nextPromise := nextPromise s; trace := trace s; world := v |}.

(** Append an event to the trace. *)
Definition emit (e : Event) (s : State) : State :=
  {| online := online s; process := process s; progress := progress s;
     Provider := Provider s; queue := queue s; queueIndex := queueIndex s;
     offlineTimer := offlineTimer s; offTimeout := offTimeout s;
     timers := timers s; nextTimer := nextTimer s;
     nextPromise := nextPromise s; trace := trace s ++ [e]; world := world s |}.

(** *** The host *)

(** [this.render()]: the shares are shown as they are now. *)
Definition render (s : State) : State :=
  emit (Render (online s) (process s) (progress s)) s.

(** [setTimeout(callback, delay)]: a fresh handle, now armed. *)
Definition setTimeout (delay : Z) (s : State) : Z * State :=
  let handle := nextTimer s in
  (handle, set_timers (timers s ++ [(handle, delay)]) (handle + 1) s).

(** [clearTimeout(handle)]: the timer, if still armed, is disarmed. *)
Definition clearTimeout (handle : Z) (s : State) : State :=
  set_timers (filter (fun t => negb (fst t =? handle)) (timers s)) (nextTimer s) s.

Definition armed (handle : Z) (s : State) : bool :=
  existsb (fun t => fst t =? handle) (timers s).

(** The offline timer [handle] fires: the callback given to [setTimeout]
    in [oGate] runs, once, if the timer is still armed. *)
Definition timerFires (handle : Z) (s : State) : State :=
  if armed handle s then
    let s := clearTimeout handle s in
    let s := set_offlineTimer 0 s in
    set_online false s
  else s.

(** *** The queue, a [Map] in insertion order *)

Definition Map_get (key : Z) (m : list (Z * QueueEntry)) : option QueueEntry :=
  option_map snd (find (fun kv => fst kv =? key) m).

Definition Map_has (key : Z) (m : list (Z * QueueEntry)) : bool :=
  existsb (fun kv => fst kv =? key) m.

(** [set] replaces the value of a key in place and appends a new key. *)
Definition Map_set (key : Z) (value : QueueEntry) (m : list (Z * QueueEntry))
  : list (Z * QueueEntry) :=
  if Map_has key m
  then map (fun kv => if fst kv =? key then (key, value) else kv) m
  else m ++ [(key, value)].

Definition Map_delete (key : Z) (m : list (Z * QueueEntry))
  : list (Z * QueueEntry) :=
  filter (fun kv => negb (fst kv =? key)) m.

Definition Map_keys (m : list (Z * QueueEntry)) : list Z := map fst m.

Definition getQueueIndex (s : State) : Z * State :=
  (queueIndex s, set_queueIndex (queueIndex s + 1) s).

(** Returns the promise that the entry settles. *)
Definition actionAddQueue (method : Method) (s : State) : Z * State :=
  let p := nextPromise s in
  let s := set_nextPromise (p + 1) s in
  let '(key, s) := getQueueIndex s in
  (p, set_queue (Map_set key {| promise := p; method := method |} (queue s)) s).

(** Several calls of [actionAddQueue] in a row. *)
Definition enqueueAll (methods : list Method) (s : State) : State :=
  fold_left (fun s m => snd (actionAddQueue m s)) methods s.

(** *** The gates *)

Definition iGate (s : State) : State :=
  let s := if JS.truthy (offlineTimer s)
           then clearTimeout (offlineTimer s) s else s in
  let s := set_progress (Some true) s in
  render s.

Definition oGate (s : State) : State :=
  let '(handle, s) := setTimeout (offTimeout s) s in
  let s := set_offlineTimer handle s in
  let s := set_progress (Some false) s in
  render s.

(** The handoff up to the [try]: the device holds the transport. *)
Definition acquire (provider : Z) (s : State) : State :=
  let s := set_Provider (Some provider) s in
  let s := emit (CanRequest provider) s in
  iGate s.

(** [value.resolve(v)] or [value.reject(err)] *)
Definition settle (p : Z) (outcome : completion Value) : Event :=
  match outcome with
  | Returned v => Resolve p v
  | Thrown err => Reject p err
  end.

(** *** From one [await] to the next *)

Section Awaits.

(** [value.method()]: the method runs, with the device in its hands, and
    either throws on the spot ([Thrown], a method that is not [async]) or
    returns ([Returned outcome]) a value or a promise that settles as
    [outcome]. *)
Variable call : Method -> State -> completion (completion Value) * State.

(** [this.update()]: the poll routine runs and returns a promise. *)
Variable update : State -> completion unit * State.

(** What follows [await value.method()] in the loop of [runQueue]:
    [resolve] or [reject], then [this.queue.delete(key)]. *)
Definition settleEntry (key : Z) (value : QueueEntry)
  (outcome : completion Value) (s : State) : State :=
  let s := emit (settle (promise value) outcome) s in
  set_queue (Map_delete key (queue s)) s.

(** A drain stopped at [await value.method()]: the entry whose method was
    called, how the promise awaited settles, and the keys of the snapshot
    that are still to be visited. *)
Record Drain : Type := {
  current : Z;
  entry : QueueEntry;
  settles : completion Value;
  pending : list Z
}.

(** The loop of [runQueue] from the head of an iteration to the next
    [await], or to its end ([None]). A key whose entry is gone is passed
    over ([continue]); a method that throws on the spot is rejected and
    deleted without an [await]. *)
Fixpoint drainFrom (keys : list Z) (s : State) : option Drain * State :=
  match keys with
  | [] => (None, s)
  | key :: rest =>
      match Map_get key (queue s) with
      | None => drainFrom rest s
      | Some value =>
          match call (method value) (emit (Invoke key) s) with
          | (Thrown err, s) =>
              drainFrom rest (settleEntry key value (Thrown err) s)
          | (Returned outcome, s) =>
              (Some {| current := key; entry := value; settles := outcome;
                       pending := rest |}, s)
          end
      end
  end.

(** [runQueue()] up to its first [await]. *)
Definition runQueueStart (s : State) : option Drain * State :=
  if (length (queue s) =? 0)%nat then (None, s)
  else
    let keys := Map_keys (queue s) in
    drainFrom keys s.

(** The promise awaited has settled: the drain goes on to the next
    [await]. *)
Definition drainResume (d : Drain) (s : State) : option Drain * State :=
  drainFrom (pending d)
    (settleEntry (current d) (entry d) (settles d) s).

(** A call of [inputBus] in flight, by the [await] it has stopped at. *)
Inductive Handoff : Type :=
| InRunQueue (d : option Drain)
    (* [await this.runQueue()]: the drain waits for an entry, or has returned *)
| InUpdate (outcome : completion unit)
    (* [await this.update()] *)
| Done (result : completion unit).

(** [inputBus(provider)] up to its first [await]. *)
Definition inputBusStart (provider : Z) (s : State) : Handoff * State :=
  if process s then (Done (Returned tt), s)
  else
    let s := acquire provider s in
    let '(d, s) := runQueueStart s in
    (InRunQueue d, s).

(** The promise that the handoff waits for has settled: it goes on to its
    next [await], or to its end. *)
Definition inputBusResume (h : Handoff) (s : State) : Handoff * State :=
  match h with
  | InRunQueue (Some d) =>
      let '(d, s) := drainResume d s in
      (InRunQueue d, s)
  | InRunQueue None =>
      let '(outcome, s) := update s in
      (InUpdate outcome, s)
  | InUpdate (Returned _) =>
      let s := set_online true s in
      (Done (Returned tt), oGate s)
  | InUpdate (Thrown err) =>
      let s := set_online false s in
      let s := emit (Error err) s in
      (Done (Thrown err), s)
  | Done result => (Done result, s)
  end.

(** *** What reaches the device, in the order it does

    The device and the calls of [inputBus] in flight, oldest first. *)
Record System : Type := {
  device : State;
  handoffs : list Handoff
}.

Inductive Action : Type :=
| Arrive (provider : Z)   (* [inputBus(provider)] is called *)
| Wake (i : nat)          (* the promise that handoff [i] waits for settles *)
| Enqueue (m : Method).   (* an action calls [actionAddQueue(m)] *)

Fixpoint wake (i : nat) (hs : list Handoff) (s : State)
  : list Handoff * State :=
  match hs, i with
  | [], _ => ([], s)
  | h :: rest, O =>
      let '(h, s) := inputBusResume h s in
      (h :: rest, s)
  | h :: rest, S i =>
      let '(rest, s) := wake i rest s in
      (h :: rest, s)
  end.

Definition step (sys : System) (a : Action) : System :=
  match a with
  | Arrive provider =>
      let '(h, s) := inputBusStart provider (device sys) in
      {| device := s; handoffs := handoffs sys ++ [h] |}
  | Wake i =>
      let '(hs, s) := wake i (handoffs sys) (device sys) in
      {| device := s; handoffs := hs |}
  | Enqueue m =>
      {| device := snd (actionAddQueue m (device sys)); handoffs := handoffs sys |}
  end.

Definition schedule (actions : list Action) (sys : System) : System :=
  fold_left step actions sys.

(** *** A drain on its own

    No other drain runs meanwhile; at each [await] the methods that
    actions enqueue in the meantime arrive, then the drain goes on. *)
Fixpoint drainAlone (arrivals : list (list Method)) (d : option Drain)
  (s : State) : option Drain * State :=
  match d, arrivals with
  | Some d, ms :: rest =>
      let '(d, s) := drainResume d (enqueueAll ms s) in
      drainAlone rest d s
  | _, _ => (d, s)
  end.

End Awaits.

(** The entries that [actionAddQueue] stores for a list of methods, from
    the sequence number [key] and the promise number [p] on. *)
Fixpoint entriesFrom (key p : Z) (methods : list Method)
  : list (Z * QueueEntry) :=
  match methods with
  | [] => []
  | m :: rest =>
      (key, {| promise := p; method := m |}) :: entriesFrom (key + 1) (p + 1) rest
  end.

(** The keys of the methods invoked, in the order of the trace. *)
Fixpoint invoked (events : list Event) : list Z :=
  match events with
  | [] => []
  | Invoke key :: rest => key :: invoked rest
  | _ :: rest => invoked rest
  end.

(** The promises settled, in the order of the trace. *)
Fixpoint settled (events : list Event) : list Z :=
  match events with
  | [] => []
  | Resolve p _ :: rest => p :: settled rest
  | Reject p _ :: rest => p :: settled rest
  | _ :: rest => settled rest
  end.

(** The invariant of the queue: the sequence numbers are in increasing
    order, below [queueIndex]. *)
Definition queue_ok (s : State) : Prop :=
  StronglySorted Z.lt (Map_keys (queue s) ++ [queueIndex s]).

(** A method that reaches the queue through [actionAddQueue] only: what a
    call leaves of the queue and of its counter is what some calls of
    [actionAddQueue] leave, and the call neither invokes a queued method
    nor settles a promise of the queue. *)
Definition enqueues_only
  (call : Method -> State -> completion (completion Value) * State) : Prop :=
  forall (m : Method) (s : State),
    exists ms : list Method,
      queue (snd (call m s)) = queue (enqueueAll ms s)
      /\ queueIndex (snd (call m s)) = queueIndex (enqueueAll ms s)
      /\ invoked (trace (snd (call m s))) = invoked (trace s)
      /\ settled (trace (snd (call m s))) = settled (trace s).

End Controller.

Arguments Returned {Exn A} a.
Arguments Thrown {Exn A} e.
Arguments promise {Method} q.
Arguments method {Method} q.
Arguments Render {Value Exn} online process progress.
Arguments Error {Value Exn} err.
Arguments CanRequest {Value Exn} provider.
Arguments Invoke {Value Exn} key.
Arguments Resolve {Value Exn} promise value.
Arguments Reject {Value Exn} promise err.
Arguments init {Method World Value Exn} timeout w.
Arguments online {Method World Value Exn} s.
Arguments process {Method World Value Exn} s.
Arguments progress {Method World Value Exn} s.
Arguments Provider {Method World Value Exn} s.
Arguments queue {Method World Value Exn} s.
Arguments queueIndex {Method World Value Exn} s.
Arguments offlineTimer {Method World Value Exn} s.
Arguments offTimeout {Method World Value Exn} s.
Arguments timers {Method World Value Exn} s.
Arguments nextTimer {Method World Value Exn} s.
Arguments nextPromise {Method World Value Exn} s.
Arguments trace {Method World Value Exn} s.
Arguments world {Method World Value Exn} s.
Arguments set_online {Method World Value Exn} v s.
Arguments set_progress {Method World Value Exn} v s.
Arguments set_Provider {Method World Value Exn} v s.
Arguments set_queue {Method World Value Exn} v s.
Arguments set_queueIndex {Method World Value Exn} v s.
Arguments set_offlineTimer {Method World Value Exn} v s.
Arguments set_timers {Method World Value Exn} v n s.
Arguments set_nextPromise {Method World Value Exn} v s.
Arguments set_world {Method World Value Exn} v s.
Arguments emit {Method World Value Exn} e s.
Arguments render {Method World Value Exn} s.
Arguments setTimeout {Method World Value Exn} delay s.
Arguments clearTimeout {Method World Value Exn} handle s.
Arguments armed {Method World Value Exn} handle s.
Arguments timerFires {Method World Value Exn} handle s.
Arguments Map_get {Method} key m.
Arguments Map_has {Method} key m.
Arguments Map_set {Method} key value m.
Arguments Map_delete {Method} key m.
Arguments Map_keys {Method} m.
Arguments getQueueIndex {Method World Value Exn} s.
Arguments actionAddQueue {Method World Value Exn} method s.
Arguments enqueueAll {Method World Value Exn} methods s.
Arguments iGate {Method World Value Exn} s.
Arguments oGate {Method World Value Exn} s.
Arguments acquire {Method World Value Exn} provider s.
Arguments settle {Value Exn} p outcome.
Arguments settleEntry {Method World Value Exn} key value outcome s.
Arguments current {Method Value Exn} d.
Arguments entry {Method Value Exn} d.
Arguments settles {Method Value Exn} d.
Arguments pending {Method Value Exn} d.
Arguments drainFrom {Method World Value Exn} call keys s.
Arguments runQueueStart {Method World Value Exn} call s.
Arguments drainResume {Method World Value Exn} call d s.
Arguments InRunQueue {Method Value Exn} d.
Arguments InUpdate {Method Value Exn} outcome.
Arguments Done {Method Value Exn} result.
Arguments inputBusStart {Method World Value Exn} call provider s.
Arguments inputBusResume {Method World Value Exn} call update h s.
Arguments device {Method World Value Exn} s.
Arguments handoffs {Method World Value Exn} s.
Arguments Arrive {Method} provider.
Arguments Wake {Method} i.
Arguments Enqueue {Method} m.
Arguments wake {Method World Value Exn} call update i hs s.
Arguments step {Method World Value Exn} call update sys a.
Arguments schedule {Method World Value Exn} call update actions sys.
Arguments drainAlone {Method World Value Exn} call arrivals d s.
Arguments entriesFrom {Method} key p methods.
Arguments invoked {Value Exn} events.
Arguments settled {Value Exn} events.
Arguments queue_ok {Method World Value Exn} s.
Arguments enqueues_only {Method World Value Exn} call.

(** *** With nothing in between

    Queued methods of a simple kind, and the two [async] functions as
    single steps: every promise awaited settles at once, and nothing else
    reaches the device from the call to its return.

    A task acts on the part of the world that is not the device ([World]:
    the transport, the device behind it), completes with a value or
    throws, and may enqueue further methods through [actionAddQueue];
    these are the methods it hands back. *)

Section Tasks.

Variables World Value Exn : Type.

#[local] Unset Elimination Schemes.
Inductive task : Type :=
| Task (run : World -> completion Exn Value * World * list task).
#[local] Set Elimination Schemes.

Definition run (t : task) : World -> completion Exn Value * World * list task :=
  match t with Task f => f end.

(** Calling a task, an [async] function: it returns a promise. *)
Definition callTask (t : task) (s : State task World Value Exn)
  : completion Exn (completion Exn Value) * State task World Value Exn :=
  let '(outcome, w, enqueued) := run t (world s) in
  let s := set_world w s in
  (Returned outcome, enqueueAll enqueued s).

(** [try { value.resolve(await value.method()) } catch (err) { value.reject(err) }] *)
Definition runEntry (key : Z) (value : QueueEntry task)
  (s : State task World Value Exn) : State task World Value Exn :=
  let s := emit (Invoke key) s in
  let '(outcome, w, enqueued) := run (method value) (world s) in
  let s := set_world w s in
  let s := enqueueAll enqueued s in
  match outcome with
  | Returned v => emit (Resolve (promise value) v) s
  | Thrown err => emit (Reject (promise value) err) s
  end.

(** The body of the loop of [runQueue]. *)
Definition runKey (s : State task World Value Exn) (key : Z)
  : State task World Value Exn :=
  match Map_get key (queue s) with
  | None => s
  | Some value =>
      let s := runEntry key value s in
      set_queue (Map_delete key (queue s)) s
  end.

Definition runQueue (s : State task World Value Exn)
  : State task World Value Exn :=
  if (length (queue s) =? 0)%nat then s
  else
    let keys := Map_keys (queue s) in
    fold_left runKey keys s.

Definition inputBus
  (update : State task World Value Exn
            -> completion Exn unit * State task World Value Exn)
  (provider : Z) (s : State task World Value Exn)
  : completion Exn unit * State task World Value Exn :=
  if process s then (Returned tt, s)
  else
    let s := acquire provider s in
    let s := runQueue s in
    match update s with
    | (Returned _, s) =>
        let s := set_online true s in
        (Returned tt, oGate s)
    | (Thrown err, s) =>
        let s := set_online false s in
        let s := emit (Error err) s in
        (Thrown err, s)
    end.

(** A handoff that nothing interrupts: it is woken until it is done. *)
Fixpoint finish (fuel : nat)
  (update : State task World Value Exn
            -> completion Exn unit * State task World Value Exn)
  (h : Handoff task Value Exn) (s : State task World Value Exn)
  : Handoff task Value Exn * State task World Value Exn :=
  match fuel with
  | O => (h, s)
  | S fuel =>
      let '(h, s) := inputBusResume callTask update h s in
      finish fuel update h s
  end.

End Tasks.

Arguments Task {World Value Exn} run.
Arguments run {World Value Exn} t w.
Arguments callTask {World Value Exn} t s.
Arguments runEntry {World Value Exn} key value s.
Arguments runKey {World Value Exn} s key.
Arguments runQueue {World Value Exn} s.
Arguments inputBus {World Value Exn} update provider s.
Arguments finish {World Value Exn} fuel update h s.

End DeviceRTU.

Import DeviceRTU.

(** ** Sample devices

    Queued methods that log their number in the world, a queue of three of
    them, and two poll routines. *)

Definition returning (v : Z) : task (list Z) Z error :=
  Task (fun w => (Returned v, w ++ [v], [])).

Definition throwing (v : Z) : task (list Z) Z error :=
  Task (fun w => (Thrown V2MODBUS_CRC_CHECK_FAILED, w ++ [v], [])).

(** A method that enqueues another one while it runs. *)
Definition chaining (v : Z) : task (list Z) Z error :=
  Task (fun w => (Returned v, w ++ [v], [returning (v + 100)])).

Definition threeQueued : State (task (list Z) Z error) (list Z) Z error :=
  snd (actionAddQueue (returning 30)
         (snd (actionAddQueue (throwing 20)
                 (snd (actionAddQueue (chaining 10) (init 30000 [])))))).

Definition idlePoll (s : State (task (list Z) Z error) (list Z) Z error)
  : completion error unit * State (task (list Z) Z error) (list Z) Z error :=
  (Returned tt, s).

Definition failingPoll (s : State (task (list Z) Z error) (list Z) Z error)
  : completion error unit * State (task (list Z) Z error) (list Z) Z error :=
  (Thrown V2MODBUS_CRC_CHECK_FAILED, s).

(** The sample queue when a first handoff has stopped at its first entry
    and a second handoff has since drained the queue; and the drain of the
    first, as it waits. *)

Definition overtaken : State (task (list Z) Z error) (list Z) Z error :=
  device (schedule callTask idlePoll
            [Arrive 1; Arrive 2; Wake 1; Wake 1; Wake 1; Wake 1]
            {| device := threeQueued; handoffs := [] |}).

Definition firstDrain : Drain (task (list Z) Z error) Z error :=
  {| current := 1; entry := {| promise := 1; method := chaining 10 |};
     settles := Returned 10; pending := [2; 3] |}.

(** ** The discrete-input device: [UniversalDI]

    The part of the device that decodes a reply: [shares.di], a JavaScript
    array, and the values pushed to the output ports [di1], [di2], ...
    An element of the array that was never written reads as [undefined]
    ([None]); writing past the end extends the array. Which output ports
    exist is decided by the framework from [outputs()]; it is a parameter
    here, and pushing to a port that does not exist throws. *)

Module UniversalDI.

Inductive thrown : Type :=
| TypeError
| BufferRangeError.

Record State : Type := {
  di : list (option Z);
  pushed : list (nat * Z)
}.

Definition arrayGet (a : list (option Z)) (i : nat) : option Z :=
  nth i a None.

Fixpoint replaceAt (a : list (option Z)) (i : nat) (v : Z) : list (option Z) :=
  match a, i with
  | [], _ => []
  | _ :: rest, O => Some v :: rest
  | x :: rest, S i' => x :: replaceAt rest i' v
  end.

(** [a[i] = v] *)
Definition arraySet (a : list (option Z)) (i : nat) (v : Z) : list (option Z) :=
  if (i <? length a)%nat then replaceAt a i v
  else a ++ repeat None (i - length a) ++ [Some v].

(** [a[i] !== bit] *)
Definition differs (a : list (option Z)) (i : nat) (bit : Z) : bool :=
  match arrayGet a i with
  | Some v => negb (v =? bit)
  | None => true
  end.

Section Device.

(** [options.countDI], [options.eachGate] and the ports that exist. *)
Variable countDI : nat.
Variable eachGate : bool.
Variable hasPort : nat -> bool.

(** [for (let i = 1; i <= countDI; i++) this.shares.di.push(0)] *)
Definition preProcess (s : State) : State :=
  for_loop countDI
    (fun _ s => {| di := di s ++ [Some 0]; pushed := pushed s |}) s.

(** The body of the loop of [fillDI]. *)
Definition fillBit (offset : nat) (mask : Z) (i : nat) (s : State)
  : State * option thrown :=
  let bit := JS.and (JS.shr mask (Z.of_nat i)) 1 in
  if differs (di s) (offset + i) bit || eachGate then
    let s := {| di := arraySet (di s) (offset + i) bit; pushed := pushed s |} in
    if hasPort (offset + i + 1)
    then ({| di := di s; pushed := pushed s ++ [((offset + i + 1)%nat, bit)] |}, None)
    else (s, Some TypeError)
  else (s, None).

(** Once an iteration has thrown, the rest of the loop does not run. *)
Definition guarded (f : State -> State * option thrown)
  (acc : State * option thrown) : State * option thrown :=
  match acc with
  | (s, None) => f s
  | (_, Some _) => acc
  end.

Definition fillDI (offset : nat) (mask : Z) (bitCount : nat) (s : State)
  : State * option thrown :=
  for_loop bitCount (fun i => guarded (fillBit offset mask i)) (s, None).

(** The body of the loop of [updateDI]. *)
Definition decodeByte (resp : ModbusResponse) (i : nat) (s : State)
  : State * option thrown :=
  match Buf.readUInt8 (data resp) i with
  | Ok byteValue =>
      let offset := (i * 8)%nat in
      let bitsInThisByte := Nat.min 8 (countDI - offset) in
      fillDI offset byteValue bitsInThisByte s
  | Err _ => (s, Some BufferRangeError)
  end.

(** [updateDI] once the request has returned [resp]. *)
Definition updateDI (resp : ModbusResponse) (s : State) : State * option thrown :=
  (* Math.ceil(countDI / 8) *)
  let byteCount := ((countDI + 7) / 8)%nat in
  for_loop byteCount (fun i => guarded (decodeByte resp i)) (s, None).

End Device.

(** The input a reply carries for index [k]: bit [k mod 8] of byte
    [k / 8], as 0 or 1. *)
Definition inputBit (payload : Buffer) (k : nat) : Z :=
  Z.b2z (Z.testbit (u8 (nth (k / 8) payload x00)) (Z.of_nat (k mod 8))).

(** The pushes a reply calls for: one per input, in order, for the inputs
    whose stored value is not the one received, or for all of them with
    [eachGate]. *)
Definition expectedPushes (eachGate : bool) (stored : list (option Z))
  (payload : Buffer) (count : nat) : list (nat * Z) :=
  map (fun k => ((k + 1)%nat, inputBit payload k))
    (filter (fun k => differs stored k (inputBit payload k) || eachGate)
       (seq 0 count)).

End UniversalDI.

(** Sample discrete-input device: the ports di1 .. di<count>, a reply that
    carries [payload], and the input array after [preProcess]. *)

Definition diPorts (count p : nat) : bool := (1 <=? p)%nat && (p <=? count)%nat.

Definition diReply (payload : Buffer) : ModbusResponse :=
  {| slaveId := 1; functionCode := 2; byteCount := Z.of_nat (length payload);
     data := payload; exceptionCode := None |}.

Definition diZeros (count : nat) : UniversalDI.State :=
  {| UniversalDI.di := repeat (Some 0) count; UniversalDI.pushed := [] |}.

(** * Properties of the codec *)

(** ** Bytes and 32-bit integers *)

Lemma u8_range (b : byte) : 0 <= u8 b <= 255.
Proof.
  unfold u8. pose proof (Byte.to_N_bounded b). lia.
Qed.

Lemma u8_wrap8 (z : Z) : u8 (wrap8 z) = z mod 256.
Proof.
  unfold u8, wrap8.
  assert (H : 0 <= z mod 256 < 256) by (apply Z.mod_pos_bound; lia).
  destruct (Byte.of_N (Z.to_N (z mod 256))) as [b|] eqn:E.
  - apply Byte.to_of_N in E. rewrite E. lia.
  - apply Byte.of_N_None_iff in E. lia.
Qed.

Lemma wrap8_u8 (b : byte) : wrap8 (u8 b) = b.
Proof.
  unfold wrap8. pose proof (u8_range b) as H.
  rewrite Z.mod_small by lia. unfold u8. rewrite N2Z.id, Byte.of_to_N. reflexivity.
Qed.

Lemma to_int32_small (z : Z) : - 2 ^ 31 <= z < 2 ^ 31 -> JS.to_int32 z = z.
Proof.
  intros H. unfold JS.to_int32. rewrite Z.mod_small; lia.
Qed.

Lemma lxor_bound (n a b : Z) :
  0 <= n -> 0 <= a < 2 ^ n -> 0 <= b < 2 ^ n -> 0 <= Z.lxor a b < 2 ^ n.
Proof.
  intros Hn Ha Hb.
  assert (Hx : 0 <= Z.lxor a b) by (apply Z.lxor_nonneg; lia).
  split; [exact Hx|].
  destruct (Z.eq_dec (Z.lxor a b) 0) as [E|E]; [rewrite E; lia|].
  assert (Hpos : 0 < n).
  { destruct (Z.eq_dec n 0) as [->|]; [|lia].
    assert (a = 0) by (simpl in Ha; lia). assert (b = 0) by (simpl in Hb; lia).
    subst. simpl in E. lia. }
  assert (Hlog : forall c, 0 <= c < 2 ^ n -> Z.log2 c < n).
  { intros c Hc. destruct (Z.eq_dec c 0) as [->|]; [simpl; lia|].
    apply Z.log2_lt_pow2; lia. }
  apply Z.log2_lt_pow2; [lia|].
  pose proof (Z.log2_lxor a b ltac:(lia) ltac:(lia)).
  pose proof (Hlog a Ha). pose proof (Hlog b Hb). lia.
Qed.

Lemma crcShift_ref (crc : Z) :
  0 <= crc < 65536 ->
  ModbusRTU.crcShift crc = ModbusRTU.crc16RefShift crc /\ 0 <= ModbusRTU.crcShift crc < 65536.
Proof.
  intros H.
  assert (Hs : JS.shr crc 1 = crc / 2).
  { unfold JS.shr. rewrite to_int32_small by lia.
    change (1 mod 32) with 1. rewrite Z.shiftr_div_pow2 by lia. reflexivity. }
  assert (Ha : JS.and crc 1 = crc mod 2).
  { unfold JS.and. rewrite to_int32_small by lia.
    change (JS.to_int32 1) with (Z.ones 1). rewrite Z.land_ones by lia. reflexivity. }
  assert (Hd : 0 <= crc / 2 < 32768).
  { split; [apply Z.div_pos; lia|apply Z.div_lt_upper_bound; lia]. }
  unfold ModbusRTU.crcShift, ModbusRTU.crc16RefShift.
  rewrite Ha, Hs, Zodd_mod.
  destruct (Z.eqb_spec (crc mod 2) 0) as [E|E].
  - rewrite E. simpl. split; [reflexivity|lia].
  - assert (E1 : crc mod 2 = 1) by (pose proof (Z.mod_pos_bound crc 2); lia).
    rewrite E1. simpl negb. cbv iota.
    unfold JS.xor. rewrite to_int32_small by lia.
    change (JS.to_int32 40961) with 40961.
    split; [reflexivity|].
    apply (lxor_bound 16); lia.
Qed.

Lemma testbit_high (n a m : Z) : 0 <= a < 2 ^ n -> 0 <= n <= m -> Z.testbit a m = false.
Proof.
  intros Ha Hm. rewrite <- (Z.mod_small a (2 ^ n)) by lia.
  apply Z.mod_pow2_bits_high. lia.
Qed.

Lemma xor_low_byte (crc b : Z) :
  0 <= crc < 65536 -> 0 <= b < 256 ->
  Z.lor (Z.land crc 0xFF00) (Z.lxor (Z.land crc 0x00FF) b) = Z.lxor crc b.
Proof.
  intros Hc Hb. apply Z.bits_inj'. intros n Hn.
  change 0xFF00 with (Z.shiftl (Z.ones 8) 8). change 0x00FF with (Z.ones 8).
  rewrite Z.lor_spec, !Z.lxor_spec, !Z.land_spec, Z.shiftl_spec by lia.
  destruct (Z_lt_le_dec n 8) as [L|L].
  - rewrite (Z.testbit_neg_r _ (n - 8)) by lia.
    rewrite Z.ones_spec_low by lia.
    rewrite andb_false_r, andb_true_r. reflexivity.
  - rewrite (Z.ones_spec_high 8 n) by lia.
    rewrite (testbit_high 8 b n) by lia.
    rewrite andb_false_r. simpl. rewrite orb_false_r, xorb_false_r.
    destruct (Z_lt_le_dec n 16) as [L'|L'].
    + rewrite Z.ones_spec_low by lia. apply andb_true_r.
    + rewrite (testbit_high 16 crc n) by lia. reflexivity.
Qed.

Section Loops.
Context {S : Type}.

Lemma for_loop_S (n : nat) (body : nat -> S -> S) (s : S) :
  for_loop (Datatypes.S n) body s = body n (for_loop n body s).
Proof. reflexivity. Qed.

Lemma for_loop_ext (n : nat) (body1 body2 : nat -> S -> S) (s : S) :
  (forall i t, (i < n)%nat -> body1 i t = body2 i t) ->
  for_loop n body1 s = for_loop n body2 s.
Proof.
  induction n as [|n IH]; intros H.
  - reflexivity.
  - rewrite !for_loop_S, IH by (intros; apply H; lia). apply H. lia.
Qed.

Lemma for_loop_iter (n : nat) (f : S -> S) (s : S) :
  for_loop n (fun _ t => f t) s = Nat.iter n f s.
Proof.
  induction n as [|n IH]; [reflexivity|].
  rewrite for_loop_S, IH. reflexivity.
Qed.

Lemma for_loop_nth_fold {A : Type} (f : S -> A -> S) (d : A) (l : list A) (s : S) :
  for_loop (length l) (fun i t => f t (nth i l d)) s = fold_left f l s.
Proof.
  induction l as [|x l IH] using rev_ind.
  - reflexivity.
  - rewrite length_app, Nat.add_1_r, for_loop_S, fold_left_app.
    rewrite nth_middle.
    rewrite (for_loop_ext _ _ (fun i t => f t (nth i l d))).
    + rewrite IH. reflexivity.
    + intros i t Hi. rewrite app_nth1 by exact Hi. reflexivity.
Qed.
End Loops.

Lemma fold_left_refine {S A B : Type} (f : S -> A -> S) (g : S -> B -> S)
  (h : A -> B) (P : S -> Prop) :
  (forall s a, P s -> f s a = g s (h a) /\ P (g s (h a))) ->
  forall l s, P s -> fold_left f l s = fold_left g (map h l) s /\ P (fold_left g (map h l) s).
Proof.
  intros Hstep l. induction l as [|a l IH]; intros s Hs.
  - split; [reflexivity|exact Hs].
  - destruct (Hstep s a Hs) as [E Hp].
    change (fold_left f (a :: l) s) with (fold_left f l (f s a)).
    rewrite E. apply IH. exact Hp.
Qed.

Lemma crcShift_iter (n : nat) (crc : Z) :
  0 <= crc < 65536 ->
  Nat.iter n ModbusRTU.crcShift crc = Nat.iter n ModbusRTU.crc16RefShift crc
  /\ 0 <= Nat.iter n ModbusRTU.crcShift crc < 65536.
Proof.
  intros H. induction n as [|n [IHe IHr]].
  - split; [reflexivity|exact H].
  - rewrite !Nat.iter_succ. destruct (crcShift_ref _ IHr) as [E R].
    rewrite <- IHe. split; assumption.
Qed.

Lemma crcByte_ref (crc : Z) (b : byte) :
  0 <= crc < 65536 ->
  ModbusRTU.crcByte crc (u8 b) = ModbusRTU.crc16RefByte crc (u8 b)
  /\ 0 <= ModbusRTU.crc16RefByte crc (u8 b) < 65536.
Proof.
  intros H. pose proof (u8_range b) as Hb.
  assert (Hx : JS.xor crc (u8 b) = Z.lxor crc (u8 b)).
  { unfold JS.xor. rewrite !to_int32_small by lia. reflexivity. }
  assert (Hr : 0 <= Z.lxor crc (u8 b) < 65536) by (apply (lxor_bound 16); lia).
  unfold ModbusRTU.crcByte, ModbusRTU.crc16RefByte.
  rewrite for_loop_iter, xor_low_byte, Hx by lia.
  destruct (crcShift_iter 8 _ Hr) as [E R]. rewrite <- E. split; [reflexivity|exact R].
Qed.

Lemma calculateCRC16_fold (buffer : Buffer) :
  ModbusRTU.calculateCRC16 buffer
  = fold_left (fun crc b => ModbusRTU.crcByte crc (u8 b)) buffer 0xFFFF.
Proof.
  exact (for_loop_nth_fold (fun crc b => ModbusRTU.crcByte crc (u8 b)) x00 buffer 0xFFFF).
Qed.

Lemma calculateCRC16_reference (buffer : Buffer) :
  ModbusRTU.calculateCRC16 buffer = ModbusRTU.crc16Reference (map u8 buffer)
  /\ 0 <= ModbusRTU.calculateCRC16 buffer < 65536.
Proof.
  rewrite calculateCRC16_fold. unfold ModbusRTU.crc16Reference.
  destruct (fold_left_refine (fun crc b => ModbusRTU.crcByte crc (u8 b))
              ModbusRTU.crc16RefByte u8
              (fun crc => 0 <= crc < 65536) crcByte_ref buffer 0xFFFF) as [E R];
    [lia|].
  rewrite E. split; [reflexivity|exact R].
Qed.

(** C9, as amended. [calculateCRC16], with the 32-bit integer operators
    of the source, computes the reference CRC16 of the description; and
    [calculateCRC16 [01 03 00 00 00 02]] is 0x0BC4, which goes on the wire
    low byte first as [C4 0B]. *)
Theorem calculateCRC16_standard :
  (forall buffer : Buffer,
      ModbusRTU.calculateCRC16 buffer = ModbusRTU.crc16Reference (map u8 buffer))
  /\ ModbusRTU.calculateCRC16 [x01; x03; x00; x00; x00; x02] = 0x0BC4.
Proof.
  split; [|vm_compute; reflexivity].
  intros buffer. apply calculateCRC16_reference.
Qed.

(** C9, the value of the claim: 0xC40B is the CRC with its two bytes
    swapped. *)
Lemma calculateCRC16_documented_value :
  ModbusRTU.calculateCRC16 [x01; x03; x00; x00; x00; x02] <> 0xC40B.
Proof. vm_compute. discriminate. Qed.

(** ** Appending and checking the CRC *)

Lemma addCRC_eq (data : Buffer) :
  ModbusRTU.addCRC data
  = Ok (data ++ [wrap8 (ModbusRTU.calculateCRC16 data);
                 wrap8 (ModbusRTU.calculateCRC16 data / 256)]).
Proof.
  unfold ModbusRTU.addCRC.
  destruct (calculateCRC16_reference data) as [_ R].
  generalize dependent (ModbusRTU.calculateCRC16 data). intros crc R.
  unfold Buf.writeUInt16LE.
  replace (0 <=? crc) with true by (symmetry; apply Z.leb_le; lia).
  replace (crc <=? 65535) with true by (symmetry; apply Z.leb_le; lia).
  cbn. reflexivity.
Qed.

Lemma u16_bytes (crc : Z) :
  0 <= crc < 65536 -> u8 (wrap8 crc) + 256 * u8 (wrap8 (crc / 256)) = crc.
Proof.
  intros H. rewrite !u8_wrap8.
  rewrite (Z.mod_small (crc / 256)).
  - pose proof (Z.div_mod crc 256). lia.
  - split; [apply Z.div_pos; lia|apply Z.div_lt_upper_bound; lia].
Qed.

Lemma verifyCRC_frame (data : Buffer) (lo hi : byte) :
  ModbusRTU.verifyCRC (data ++ [lo; hi])
  = Ok (u8 lo + 256 * u8 hi =? ModbusRTU.calculateCRC16 data).
Proof.
  unfold ModbusRTU.verifyCRC, Buf.subarray, Buf.readUInt16LE.
  rewrite length_app. cbn [length].
  replace (length data + 2 <? 2)%nat with false by (symmetry; apply Nat.ltb_ge; lia).
  replace (length data + 2 - 2)%nat with (length data) by lia.
  rewrite firstn_app, firstn_all, Nat.sub_diag. cbn [firstn skipn].
  rewrite app_nil_r.
  rewrite nth_error_app2 by lia. rewrite Nat.sub_diag.
  rewrite nth_error_app2 by lia.
  replace (S (length data) - length data)%nat with 1%nat by lia.
  reflexivity.
Qed.

(** C2. For every buffer [b], [addCRC b] appends two bytes to [b], and these
    are the CRC16 of [b], low byte first; [verifyCRC], on [b] followed by any
    two bytes, compares these two bytes, read low byte first, with the CRC16
    of [b]; so [verifyCRC] of the frame that [addCRC b] returns is true. *)
Theorem verifyCRC_addCRC (b : Buffer) :
  exists lo hi : byte,
    ModbusRTU.addCRC b = Ok (b ++ [lo; hi])
    /\ u8 lo + 256 * u8 hi = ModbusRTU.calculateCRC16 b
    /\ (forall lo' hi' : byte,
          ModbusRTU.verifyCRC (b ++ [lo'; hi'])
          = Ok (u8 lo' + 256 * u8 hi' =? ModbusRTU.calculateCRC16 b))
    /\ (frame <- ModbusRTU.addCRC b ;; ModbusRTU.verifyCRC frame) = Ok true.
Proof.
  destruct (calculateCRC16_reference b) as [_ R].
  exists (wrap8 (ModbusRTU.calculateCRC16 b)),
         (wrap8 (ModbusRTU.calculateCRC16 b / 256)).
  split; [apply addCRC_eq|].
  split; [apply u16_bytes; exact R|].
  split; [intros lo' hi'; apply verifyCRC_frame|].
  rewrite addCRC_eq. unfold bind. rewrite verifyCRC_frame.
  rewrite u16_bytes by exact R. rewrite Z.eqb_refl. reflexivity.
Qed.

(** ** Frames *)

Lemma subarray_slice (buffer : Buffer) (start back : nat) :
  Buf.subarray buffer start back = slice buffer start (length buffer - back).
Proof. unfold Buf.subarray, slice. apply skipn_firstn_comm. Qed.

Lemma exception_bit (b : byte) :
  negb (JS.and (u8 b) 0x80 =? 0) = Z.testbit (u8 b) 7.
Proof. destruct b; vm_compute; reflexivity. Qed.

Lemma exception_strip (b : byte) : JS.and (u8 b) 0x7F = Z.clearbit (u8 b) 7.
Proof. destruct b; vm_compute; reflexivity. Qed.

Lemma verifyCRC_total (buffer : Buffer) :
  (2 <= length buffer)%nat -> exists valid, ModbusRTU.verifyCRC buffer = Ok valid.
Proof.
  intros H.
  assert (E : exists data lo hi, buffer = data ++ [lo; hi]).
  { destruct (rev buffer) as [|hi [|lo r]] eqn:Er.
    - apply (f_equal (@length byte)) in Er. rewrite length_rev in Er. simpl in Er. lia.
    - apply (f_equal (@length byte)) in Er. rewrite length_rev in Er. simpl in Er. lia.
    - exists (rev r), lo, hi. rewrite <- (rev_involutive buffer), Er.
      cbn [rev]. rewrite <- app_assoc. reflexivity. }
  destruct E as (data & lo & hi & ->). rewrite verifyCRC_frame. eauto.
Qed.

Lemma readUInt8_nth (buffer : Buffer) (off : nat) (b : byte) :
  nth_error buffer off = Some b -> Buf.readUInt8 buffer off = Ok (u8 b).
Proof. intros H. unfold Buf.readUInt8. rewrite H. reflexivity. Qed.

Lemma parseResponse_cases (buffer : Buffer) :
  ModbusRTU.parseResponse buffer =
  if (length buffer <? 4)%nat then Err V2MODBUS_PACKET_TOO_SHORT
  else match ModbusRTU.verifyCRC buffer with
       | Ok true => ModbusRTU.parseFields buffer
       | Ok false => Err V2MODBUS_CRC_CHECK_FAILED
       | Err e => Err e
       end.
Proof.
  unfold ModbusRTU.parseResponse.
  destruct (length buffer <? 4)%nat; [reflexivity|].
  destruct (ModbusRTU.verifyCRC buffer) as [[|]|e]; reflexivity.
Qed.

Lemma parseFields_ok (buffer : Buffer) :
  (4 <= length buffer)%nat -> exists r, ModbusRTU.parseFields buffer = Ok r.
Proof.
  intros H. destruct buffer as [|b0 [|b1 [|b2 [|b3 rest]]]]; simpl in H; try lia.
  unfold ModbusRTU.parseFields, Buf.readUInt8. cbn [nth_error bind].
  destruct (negb _); [eauto|]. destruct (ModbusRTU.isReadClass _); eauto.
Qed.

(** C4. [parseResponse] fails with PacketTooShort exactly on buffers of
    fewer than 4 bytes; on longer buffers it fails with CrcCheckFailed
    exactly when [verifyCRC] is false; and on a longer buffer with a valid
    CRC whose function-code byte has its high bit set, it returns the
    slave id, the function code with the high bit cleared, the exception
    code read from byte 2, a byte count of 0 and an empty payload. *)
Theorem parseResponse_failures (buffer : Buffer) :
  (ModbusRTU.parseResponse buffer = Err V2MODBUS_PACKET_TOO_SHORT
   <-> (length buffer < 4)%nat)
  /\ ((4 <= length buffer)%nat ->
      (ModbusRTU.parseResponse buffer = Err V2MODBUS_CRC_CHECK_FAILED
       <-> ModbusRTU.verifyCRC buffer = Ok false))
  /\ ((4 <= length buffer)%nat ->
      ModbusRTU.verifyCRC buffer = Ok true ->
      forall sid fc ec : byte,
        nth_error buffer 0 = Some sid ->
        nth_error buffer 1 = Some fc ->
        nth_error buffer 2 = Some ec ->
        Z.testbit (u8 fc) 7 = true ->
        ModbusRTU.parseResponse buffer
        = Ok {| slaveId := u8 sid;
                functionCode := Z.clearbit (u8 fc) 7;
                byteCount := 0;
                data := [];
                exceptionCode := Some (u8 ec) |}).
Proof.
  rewrite parseResponse_cases.
  destruct (Nat.ltb_spec (length buffer) 4) as [L|L].
  - split; [split; [intros _; exact L|reflexivity]|]. split; intros; lia.
  - destruct (verifyCRC_total buffer ltac:(lia)) as [valid Ev]. rewrite Ev.
    destruct (parseFields_ok buffer L) as [r Er].
    split; [|split].
    + split; [|lia]. destruct valid; [rewrite Er|]; discriminate.
    + intros _. destruct valid; [rewrite Er|]; split; congruence.
    + intros _ Hv sid fc ec H0 H1 H2 Hbit. injection Hv as ->. clear Er.
      unfold ModbusRTU.parseFields.
      rewrite (readUInt8_nth _ _ _ H0), (readUInt8_nth _ _ _ H1),
        (readUInt8_nth _ _ _ H2).
      cbn [bind]. rewrite exception_bit, Hbit, exception_strip. reflexivity.
Qed.

Lemma parseResponse_failures_witness :
  ModbusRTU.parseResponse [x01; x83; x02; xc0; xf1]
  = Ok {| slaveId := 1; functionCode := 3; byteCount := 0; data := [];
          exceptionCode := Some 2 |}.
Proof.
  refine (proj2 (proj2 (parseResponse_failures [x01; x83; x02; xc0; xf1]))
            _ _ x01 x83 x02 _ _ _ _);
    [simpl; lia|vm_compute; reflexivity|reflexivity|reflexivity|reflexivity
    |vm_compute; reflexivity].
Defined.

Lemma parseResponse_valid (buffer : Buffer) :
  (4 <= length buffer)%nat -> ModbusRTU.verifyCRC buffer = Ok true ->
  ModbusRTU.parseResponse buffer = ModbusRTU.parseFields buffer.
Proof.
  intros L Hv. rewrite parseResponse_cases, Hv.
  apply Nat.ltb_ge in L. rewrite L. reflexivity.
Qed.

(** C5, as amended. For every CRC-valid frame of at least 4 bytes whose
    function-code byte has its high bit clear: outside the read class the
    payload is [buffer[2 .. length-2)] and the byte count is [length - 4];
    in the read class the byte count is the byte at offset 2 and the
    payload is [buffer[3 .. length-2)]. The reply
    [01 03 04 00 0A 00 14] carries the CRC bytes [DA 3E], and with them it
    parses to slave 1, function 3, byte count 4, payload [00 0A 00 14]. *)
Theorem parseResponse_payload :
  (forall (buffer : Buffer) (sid fc : byte),
      (4 <= length buffer)%nat ->
      ModbusRTU.verifyCRC buffer = Ok true ->
      nth_error buffer 0 = Some sid ->
      nth_error buffer 1 = Some fc ->
      Z.testbit (u8 fc) 7 = false ->
      (ModbusRTU.isReadClass (u8 fc) = false ->
       ModbusRTU.parseResponse buffer
       = Ok {| slaveId := u8 sid; functionCode := u8 fc;
               byteCount := Z.of_nat (length buffer) - 4;
               data := slice buffer 2 (length buffer - 2);
               exceptionCode := None |})
      /\ (ModbusRTU.isReadClass (u8 fc) = true ->
          forall bc : byte,
            nth_error buffer 2 = Some bc ->
            ModbusRTU.parseResponse buffer
            = Ok {| slaveId := u8 sid; functionCode := u8 fc;
                    byteCount := u8 bc;
                    data := slice buffer 3 (length buffer - 2);
                    exceptionCode := None |}))
  /\ ModbusRTU.parseResponse [x01; x03; x04; x00; x0a; x00; x14; xda; x3e]
     = Ok {| slaveId := 1; functionCode := 3; byteCount := 4;
             data := [x00; x0a; x00; x14]; exceptionCode := None |}.
Proof.
  split; [|vm_compute; reflexivity].
  intros buffer sid fc L Hv H0 H1 Hbit.
  rewrite (parseResponse_valid buffer L Hv). unfold ModbusRTU.parseFields.
  rewrite (readUInt8_nth _ _ _ H0), (readUInt8_nth _ _ _ H1).
  cbn [bind]. rewrite exception_bit, Hbit. cbn [negb].
  rewrite !subarray_slice.
  split; intros Hc; rewrite Hc; [reflexivity|].
  intros bc H2. rewrite (readUInt8_nth _ _ _ H2). reflexivity.
Qed.

Lemma parseResponse_payload_witness :
  ModbusRTU.parseResponse [x01; x06; x01; x00; x12; x34; x85; x41]
  = Ok {| slaveId := 1; functionCode := 6; byteCount := 4;
          data := [x01; x00; x12; x34]; exceptionCode := None |}.
Proof.
  refine (proj1 (proj1 parseResponse_payload
                   [x01; x06; x01; x00; x12; x34; x85; x41] x01 x06 _ _ _ _ _) _);
    [simpl; lia|vm_compute; reflexivity|reflexivity|reflexivity
    |vm_compute; reflexivity|vm_compute; reflexivity].
Defined.

(** C5, the frame of the claim: its last two bytes [4B 08] are not the
    CRC16 of the seven bytes before them, so [parseResponse] fails. *)
Lemma parseResponse_documented_frame :
  ModbusRTU.parseResponse [x01; x03; x04; x00; x0a; x00; x14; x4b; x08]
  = Err V2MODBUS_CRC_CHECK_FAILED.
Proof. vm_compute. reflexivity. Qed.

(** C10. [parseResponse] does not compare the declared byte count with the
    payload: there is a CRC-valid read-class frame of at least 4 bytes,
    not an exception, that it parses without error although the byte
    count it returns (the byte at offset 2) is not the length of the
    payload it returns ([length - 5]). *)
Theorem parseResponse_byteCount_unchecked :
  exists (buffer : Buffer) (r : ModbusResponse),
    (4 <= length buffer)%nat
    /\ ModbusRTU.verifyCRC buffer = Ok true
    /\ ModbusRTU.parseResponse buffer = Ok r
    /\ exceptionCode r = None
    /\ ModbusRTU.isReadClass (functionCode r) = true
    /\ Buf.readUInt8 buffer 2 = Ok (byteCount r)
    /\ Z.of_nat (length (data r)) = Z.of_nat (length buffer) - 5
    /\ byteCount r <> Z.of_nat (length (data r)).
Proof.
  exists [x01; x03; x09; x00; xf7; x88].
  exists {| slaveId := 1; functionCode := 3; byteCount := 9; data := [x00];
            exceptionCode := None |}.
  repeat split; try (vm_compute; reflexivity).
  - simpl; lia.
  - vm_compute. discriminate.
Qed.

(** ** Completeness of a reply *)

(** C3, as amended. [isCompletePacket] is false on fewer than 4 bytes. On
    a read-class function code it is false while the length is below the
    declared byte count plus 5, false on every buffer of at most 5 bytes,
    and on a buffer of more than 5 bytes it is true exactly when the
    length is the declared byte count plus 5. On every other function
    code it is true exactly when the length is 8. *)
Theorem isCompletePacket_spec (buffer : Buffer) :
  ((length buffer < 4)%nat -> ModbusRTU.isCompletePacket buffer = Ok false)
  /\ (forall fc declared : byte,
         nth_error buffer 1 = Some fc ->
         ModbusRTU.isReadClass (u8 fc) = true ->
         nth_error buffer 2 = Some declared ->
         (Z.of_nat (length buffer) < u8 declared + 5 ->
          ModbusRTU.isCompletePacket buffer = Ok false)
         /\ ((length buffer <= 5)%nat ->
             ModbusRTU.isCompletePacket buffer = Ok false)
         /\ ((5 < length buffer)%nat ->
             (ModbusRTU.isCompletePacket buffer = Ok true
              <-> Z.of_nat (length buffer) = u8 declared + 5)))
  /\ (forall fc : byte,
         nth_error buffer 1 = Some fc ->
         ModbusRTU.isReadClass (u8 fc) = false ->
         (ModbusRTU.isCompletePacket buffer = Ok true
          <-> length buffer = 8%nat)).
Proof.
  unfold ModbusRTU.isCompletePacket.
  destruct (Nat.ltb_spec (length buffer) 4) as [L|L].
  - split; [reflexivity|]. split.
    + intros fc declared _ _ _. repeat split; try reflexivity; try discriminate.
      lia.
    + intros fc _ _. split; [discriminate|lia].
  - split; [lia|]. split.
    + intros fc declared H1 Hc H2.
      rewrite (readUInt8_nth _ _ _ H1). cbn [bind]. rewrite Hc.
      destruct (Nat.ltb_spec 5 (length buffer)) as [L5|L5].
      * rewrite (readUInt8_nth _ _ _ H2). cbn [bind].
        destruct (Z.eqb_spec (Z.of_nat (length buffer)) (u8 declared + 5)) as [E|E].
        -- split; [lia|]. split; [lia|]. intros _. split; [intros _; exact E|reflexivity].
        -- split; [reflexivity|]. split; [reflexivity|]. intros _.
           split; [discriminate|intros E'; contradiction].
      * replace (length buffer =? 8)%nat with false
          by (symmetry; apply Nat.eqb_neq; lia).
        split; [reflexivity|]. split; [reflexivity|lia].
    + intros fc H1 Hc.
      rewrite (readUInt8_nth _ _ _ H1). cbn [bind]. rewrite Hc.
      destruct (Nat.eqb_spec (length buffer) 8) as [E|E].
      * split; [intros _; exact E|reflexivity].
      * split; [discriminate|intros E'; contradiction].
Qed.

Lemma isCompletePacket_spec_witness :
  ModbusRTU.isCompletePacket [x01; x03; x04; x00; x0a; x00; x14; xda; x3e] = Ok true.
Proof.
  refine (proj2 (proj2 (proj2 (proj1 (proj2 (isCompletePacket_spec
            [x01; x03; x04; x00; x0a; x00; x14; xda; x3e])) x03 x04 _ _ _)) _) _);
    [reflexivity|vm_compute; reflexivity|reflexivity|simpl; lia
    |vm_compute; reflexivity].
Defined.

(** C3, where the claim fails: a read-class reply that declares 0 bytes is
    5 bytes long, its length is the declared count plus 5, and
    [isCompletePacket] is false on it, since the comparison with the
    declared length is made on buffers of more than 5 bytes only. *)
Lemma isCompletePacket_empty_read_reply :
  nth_error [x01; x03; x00; x20; xf0] 1 = Some x03
  /\ ModbusRTU.isReadClass (u8 x03) = true
  /\ nth_error [x01; x03; x00; x20; xf0] 2 = Some x00
  /\ Z.of_nat (length [x01; x03; x00; x20; xf0]) = u8 x00 + 5
  /\ ModbusRTU.isCompletePacket [x01; x03; x00; x20; xf0] = Ok false.
Proof. repeat split. Qed.

(** ** Packing coils *)

Lemma to_int32_mod (x d : Z) :
  0 < d -> (2 ^ 31) mod d = 0 -> JS.to_int32 x mod d = x mod d.
Proof.
  intros Hd Hdiv. apply Z.mod_divide in Hdiv; [|lia]. destruct Hdiv as [c Hc].
  unfold JS.to_int32.
  rewrite (Z.mod_eq (x + 2 ^ 31) (2 ^ 32)) by lia.
  replace (2 ^ 32) with (2 * 2 ^ 31) by reflexivity. rewrite Hc.
  replace (x + c * d - 2 * (c * d) * ((x + c * d) / (2 * (c * d))) - c * d)
    with (x + (- (2 * c * ((x + c * d) / (2 * (c * d))))) * d) by ring.
  apply Z.mod_add. lia.
Qed.

Lemma and_0xFF (x : Z) : JS.and x 0xFF = x mod 256.
Proof.
  unfold JS.and. change (JS.to_int32 255) with (Z.ones 8).
  rewrite Z.land_ones by lia. apply to_int32_mod; [lia|reflexivity].
Qed.

Lemma and_0xFFFF (x : Z) : JS.and x 0xFFFF = x mod 65536.
Proof.
  unfold JS.and. change (JS.to_int32 65535) with (Z.ones 16).
  rewrite Z.land_ones by lia. apply to_int32_mod; [lia|reflexivity].
Qed.

Lemma shl_one (b : nat) : (b < 8)%nat -> JS.shl 1 (Z.of_nat b) = 2 ^ Z.of_nat b.
Proof.
  intros H. do 8 (destruct b as [|b]; [reflexivity|]). lia.
Qed.

Lemma or_bit (old : Z) (b : nat) (j : Z) :
  0 <= old < 256 -> (b < 8)%nat -> 0 <= j < 8 ->
  Z.testbit (u8 (wrap8 (JS.or old (JS.shl 1 (Z.of_nat b))))) j
  = Z.testbit old j || (Z.of_nat b =? j).
Proof.
  intros Ho Hb Hj. rewrite u8_wrap8, shl_one by exact Hb.
  assert (Hp : 0 <= 2 ^ Z.of_nat b < 256).
  { split; [apply Z.pow_nonneg; lia|].
    change 256 with (2 ^ 8). apply Z.pow_lt_mono_r; lia. }
  unfold JS.or. rewrite !to_int32_small by lia.
  change 256 with (2 ^ 8). rewrite Z.mod_pow2_bits_low by lia.
  rewrite Z.lor_spec, Z.pow2_bits_eqb by lia. reflexivity.
Qed.

Lemma u8_range' (b : byte) : 0 <= u8 b < 256.
Proof. pose proof (u8_range b). lia. Qed.

Lemma length_set (buf : Buffer) (i : nat) (b : byte) :
  length (Buf.set buf i b) = length buf.
Proof.
  revert i. induction buf as [|x buf IH]; intros [|i]; simpl; try reflexivity.
  rewrite IH. reflexivity.
Qed.

Lemma nth_set (buf : Buffer) (i k : nat) (b d : byte) :
  (i < length buf)%nat ->
  nth k (Buf.set buf i b) d = if (k =? i)%nat then b else nth k buf d.
Proof.
  revert i k. induction buf as [|x buf IH]; intros [|i] [|k] H; simpl in *;
    try lia; try reflexivity.
  apply IH. lia.
Qed.

Lemma set_app_r (hdr buf : Buffer) (k : nat) (b : byte) :
  Buf.set (hdr ++ buf) (length hdr + k) b = hdr ++ Buf.set buf k b.
Proof.
  induction hdr as [|x hdr IH]; [reflexivity|].
  simpl. rewrite IH. reflexivity.
Qed.

Lemma get_app_r (hdr buf : Buffer) (k : nat) :
  Buf.get (hdr ++ buf) (length hdr + k) = Buf.get buf k.
Proof.
  unfold Buf.get. rewrite app_nth2_plus. reflexivity.
Qed.

Lemma truthy_element_Number (values : list Z) (i : nat) :
  truthyValue (element (map Number values) i) = JS.truthy (nth i values 0).
Proof.
  unfold element. revert i.
  induction values as [|v values IH]; intros [|i]; try reflexivity.
  apply IH.
Qed.

Lemma packCoils_S (writeData : list jsValue) (n : nat) (buffer : Buffer) :
  ModbusRTU.packCoils writeData (S n) buffer
  = let packed := ModbusRTU.packCoils writeData n buffer in
    if truthyValue (element writeData n)
    then Buf.set packed (7 + n / 8)
           (wrap8 (JS.or (Buf.get packed (7 + n / 8))
                     (JS.shl 1 (Z.of_nat (n mod 8)))))
    else packed.
Proof. reflexivity. Qed.

Lemma packCoils_bits (writeData : list jsValue) (hdr : Buffer)
  (coilBytes n : nat) :
  length hdr = 7%nat -> (n <= 8 * coilBytes)%nat ->
  exists payload,
    ModbusRTU.packCoils writeData n (hdr ++ repeat x00 coilBytes) = hdr ++ payload
    /\ length payload = coilBytes
    /\ forall k j : nat, (k < coilBytes)%nat -> (j < 8)%nat ->
         Z.testbit (u8 (nth k payload x00)) (Z.of_nat j)
         = (8 * k + j <? n)%nat && truthyValue (element writeData (8 * k + j)).
Proof.
  intros Hh. induction n as [|n IH]; intros Hn.
  - exists (repeat x00 coilBytes). split; [reflexivity|].
    split; [apply repeat_length|]. intros k j Hk Hj.
    rewrite nth_repeat. change (u8 x00) with 0. rewrite Z.bits_0.
    reflexivity.
  - destruct (IH ltac:(lia)) as (payload & E & Hl & Hb).
    rewrite packCoils_S, E. cbv zeta.
    assert (Hq : (n / 8 < coilBytes)%nat)
      by (apply Nat.Div0.div_lt_upper_bound; exact Hn).
    pose proof (Nat.mod_upper_bound n 8 ltac:(lia)) as Hm.
    pose proof (Nat.div_mod_eq n 8) as Hdm.
    destruct (truthyValue (element writeData n)) eqn:Ht.
    + replace (7 + n / 8)%nat with (length hdr + n / 8)%nat
        by (rewrite Hh; reflexivity).
      rewrite set_app_r, get_app_r.
      eexists. split; [reflexivity|]. split; [rewrite length_set; exact Hl|].
      intros k j Hk Hj. rewrite nth_set by lia.
      destruct (Nat.eqb_spec k (n / 8)) as [->|Hne].
      * unfold Buf.get. rewrite or_bit by (try apply u8_range'; lia).
        rewrite Hb by lia.
        destruct (Z.eqb_spec (Z.of_nat (n mod 8)) (Z.of_nat j)) as [Ej|Ej].
        -- apply Nat2Z.inj in Ej. subst j.
           replace (8 * (n / 8) + n mod 8)%nat with n by lia. rewrite Ht.
           replace (n <? S n)%nat with true by (symmetry; apply Nat.ltb_lt; lia).
           apply orb_true_r.
        -- rewrite orb_false_r. f_equal.
           destruct (Nat.ltb_spec (8 * (n / 8) + j) n);
             destruct (Nat.ltb_spec (8 * (n / 8) + j) (S n)); try reflexivity; lia.
      * rewrite Hb by lia. f_equal.
        destruct (Nat.ltb_spec (8 * k + j) n);
          destruct (Nat.ltb_spec (8 * k + j) (S n)); try reflexivity; lia.
    + exists payload. split; [reflexivity|]. split; [exact Hl|].
      intros k j Hk Hj. rewrite Hb by lia.
      destruct (Nat.eq_dec (8 * k + j) n) as [->|Hne].
      * rewrite Ht, !andb_false_r. reflexivity.
      * f_equal.
        destruct (Nat.ltb_spec (8 * k + j) n);
          destruct (Nat.ltb_spec (8 * k + j) (S n)); try reflexivity; lia.
Qed.

Lemma wrap8_mod (x : Z) : wrap8 (x mod 256) = wrap8 x.
Proof. unfold wrap8. rewrite Z.mod_mod by lia. reflexivity. Qed.

Lemma writeUInt16BE_ok (buf : Buffer) (value : Z) (off : nat) :
  0 <= value <= 65535 -> (S off < length buf)%nat ->
  Buf.writeUInt16BE buf value off
  = Ok (Buf.set (Buf.set buf off (wrap8 (value / 256))) (S off) (wrap8 value)).
Proof.
  intros Hv Ho. unfold Buf.writeUInt16BE.
  replace (0 <=? value) with true by (symmetry; apply Z.leb_le; lia).
  replace (value <=? 65535) with true by (symmetry; apply Z.leb_le; lia).
  replace (S off <? length buf)%nat with true by (symmetry; apply Nat.ltb_lt; lia).
  reflexivity.
Qed.

Lemma writeUInt8_ok (buf : Buffer) (value : Z) (off : nat) :
  0 <= value <= 255 -> (off < length buf)%nat ->
  Buf.writeUInt8 buf value off = Ok (Buf.set buf off (wrap8 value)).
Proof.
  intros Hv Ho. unfold Buf.writeUInt8.
  replace (0 <=? value) with true by (symmetry; apply Z.leb_le; lia).
  replace (value <=? 255) with true by (symmetry; apply Z.leb_le; lia).
  replace (off <? length buf)%nat with true by (symmetry; apply Nat.ltb_lt; lia).
  reflexivity.
Qed.

(** The request for function 0x0F, written out. *)
Lemma makeRequest_coils (slaveId address quantity : Z) (values : list jsValue) :
  (1 <= length values <= 1968)%nat ->
  exists payload : Buffer,
    ModbusRTU.makeRequest slaveId 0x0F address quantity (Array values)
    = ModbusRTU.addCRC
        ([wrap8 slaveId; x0f;
          wrap8 (address mod 65536 / 256); wrap8 (address mod 65536);
          wrap8 (Z.of_nat (length values) / 256); wrap8 (Z.of_nat (length values));
          wrap8 (Z.of_nat (length payload))] ++ payload)
    /\ length payload = ((length values + 7) / 8)%nat
    /\ forall k j : nat, (k < length payload)%nat -> (j < 8)%nat ->
         Z.testbit (u8 (nth k payload x00)) (Z.of_nat j)
         = (8 * k + j <? length values)%nat
           && truthyValue (element values (8 * k + j)).
Proof.
  intros Hn. unfold ModbusRTU.makeRequest.
  cbn [Z.eqb Pos.eqb orb].
  replace ((length values <? 1)%nat || (1968 <? length values)%nat) with false.
  2:{ symmetry. apply orb_false_iff. split; [apply Nat.ltb_ge|apply Nat.ltb_ge]; lia. }
  set (cb := ((length values + 7) / 8)%nat).
  assert (Hcb : (cb <= 246)%nat).
  { unfold cb. apply Nat.lt_succ_r. apply Nat.Div0.div_lt_upper_bound. lia. }
  assert (Hcb8 : (length values <= 8 * cb)%nat).
  { unfold cb. pose proof (Nat.div_mod_eq (length values + 7) 8).
    pose proof (Nat.mod_upper_bound (length values + 7) 8 ltac:(lia)). lia. }
  destruct (packCoils_bits values
              [x00; x00; x00; x00; wrap8 (Z.of_nat (length values) / 256);
               wrap8 (Z.of_nat (length values)); wrap8 (Z.of_nat cb)]
              cb (length values) eq_refl Hcb8) as (payload & E & Hl & Hb).
  exists payload.
  change (Buf.alloc (7 + cb))
    with (x00 :: x00 :: x00 :: x00 :: x00 :: x00 :: x00 :: repeat x00 cb).
  rewrite writeUInt16BE_ok; [|lia|cbn [length]; lia].
  cbn [bind Buf.set].
  rewrite writeUInt8_ok; [|lia|cbn [length]; lia].
  cbn [bind Buf.set].
  change (?a :: ?b :: ?c :: ?d :: ?e :: ?f :: ?g :: repeat x00 cb)
    with ([a; b; c; d; e; f; g] ++ repeat x00 cb).
  rewrite E. cbn [app].
  rewrite and_0xFF, and_0xFFFF.
  rewrite writeUInt8_ok;
    [|pose proof (Z.mod_pos_bound slaveId 256); lia|cbn [length]; lia].
  cbn [bind Buf.set].
  rewrite writeUInt8_ok; [|lia|cbn [length]; lia].
  cbn [bind Buf.set].
  rewrite writeUInt16BE_ok;
    [|pose proof (Z.mod_pos_bound address 65536); lia|cbn [length]; lia].
  cbn [bind Buf.set].
  rewrite wrap8_mod, Hl.
  split; [reflexivity|]. split; [reflexivity|].
  exact Hb.
Qed.

Lemma makeRequest_coils_count (slaveId address quantity : Z)
  (values : list jsValue) :
  ~ (1 <= length values <= 1968)%nat ->
  ModbusRTU.makeRequest slaveId 0x0F address quantity (Array values)
  = Err V2MODBUS_COILS_COUNT_INVALID.
Proof.
  intros Hn. unfold ModbusRTU.makeRequest. cbn [Z.eqb Pos.eqb orb].
  replace ((length values <? 1)%nat || (1968 <? length values)%nat) with true.
  - reflexivity.
  - symmetry. apply orb_true_iff.
    destruct (Nat.ltb_spec (length values) 1); [left; reflexivity|].
    right. apply Nat.ltb_lt. lia.
Qed.

(** C6, as amended. With function code 0x0F, [makeRequest] fails with
    WriteDataRequiredCoils exactly when [writeData] is absent or not an
    array, and with CoilsCountInvalid exactly when the array has fewer
    than 1 or more than 1968 elements. Otherwise, whatever [quantity] is,
    the frame is: slave id, 0x0F, the address and the number of values as
    big-endian 16-bit fields, the number of payload bytes, the payload,
    and the CRC16 low byte first; the payload has ceil(count / 8) bytes
    and bit [i mod 8] of byte [i / 8] is set exactly when [i] is below the
    count and value [i] is truthy. For the values [1,0,1,0,1] at address
    0x0020 of slave 1 the frame is [01 0F 00 20 00 05 01 15 2F 5E]. *)
Theorem makeRequest_writeMultipleCoils :
  (forall (slaveId address quantity : Z) (writeData : writeArg),
      ModbusRTU.makeRequest slaveId 0x0F address quantity writeData
      = Err V2MODBUS_WRITE_DATA_REQUIRED_COILS
      <-> writeData = Absent \/ writeData = NotArray)
  /\ (forall (slaveId address quantity : Z) (values : list Z),
         ModbusRTU.makeRequest slaveId 0x0F address quantity (Values values)
         = Err V2MODBUS_COILS_COUNT_INVALID
         <-> (length values < 1 \/ 1968 < length values)%nat)
  /\ (forall (slaveId address quantity : Z) (values : list Z),
         (1 <= length values <= 1968)%nat ->
         exists payload : Buffer,
           let count := Z.of_nat (length values) in
           let body :=
             [wrap8 slaveId; x0f;
              wrap8 (address mod 65536 / 256); wrap8 (address mod 65536);
              wrap8 (count / 256); wrap8 count;
              wrap8 (Z.of_nat (length payload))] ++ payload in
           let crc := ModbusRTU.calculateCRC16 body in
           ModbusRTU.makeRequest slaveId 0x0F address quantity (Values values)
           = Ok (body ++ [wrap8 crc; wrap8 (crc / 256)])
           /\ (length values <= 8 * length payload < length values + 8)%nat
           /\ forall i : nat, (i < 8 * length payload)%nat ->
                Z.testbit (u8 (nth (i / 8) payload x00)) (Z.of_nat (i mod 8))
                = (i <? length values)%nat && JS.truthy (nth i values 0))
  /\ ModbusRTU.makeRequest 1 0x0F 0x0020 5 (Values [1; 0; 1; 0; 1])
     = Ok [x01; x0f; x00; x20; x00; x05; x01; x15; x2f; x5e].
Proof.
  assert (Hvalid : forall slaveId address quantity values,
             (1 <= length values <= 1968)%nat ->
             exists frame,
               ModbusRTU.makeRequest slaveId 0x0F address quantity (Array values)
               = Ok frame).
  { intros slaveId address quantity values Hn.
    destruct (makeRequest_coils slaveId address quantity values Hn)
      as (payload & E & _).
    rewrite E, addCRC_eq. eauto. }
  split; [|split; [|split]].
  - intros slaveId address quantity [| |values].
    + split; [auto|reflexivity].
    + split; [auto|reflexivity].
    + split; [|intros [H|H]; discriminate].
      intros H. exfalso.
      destruct (Nat.le_gt_cases 1 (length values)) as [L1|L1];
        [destruct (Nat.le_gt_cases (length values) 1968) as [L2|L2]|].
      * destruct (Hvalid slaveId address quantity values (conj L1 L2)) as [f E].
        congruence.
      * rewrite makeRequest_coils_count in H by lia. discriminate.
      * rewrite makeRequest_coils_count in H by lia. discriminate.
  - intros slaveId address quantity values. unfold Values.
    rewrite <- (length_map Number values). split.
    + intros H.
      destruct (Nat.le_gt_cases 1 (length (map Number values))) as [L1|L1]; [|lia].
      destruct (Nat.le_gt_cases (length (map Number values)) 1968) as [L2|L2];
        [|lia].
      destruct (Hvalid slaveId address quantity _ (conj L1 L2)) as [f E].
      congruence.
    + intros H. apply makeRequest_coils_count. lia.
  - intros slaveId address quantity values Hn.
    assert (Hn' : (1 <= length (map Number values) <= 1968)%nat)
      by (rewrite length_map; exact Hn).
    destruct (makeRequest_coils slaveId address quantity _ Hn')
      as (payload & E & Hl & Hb).
    rewrite length_map in E, Hl, Hb.
    exists payload. cbv zeta. unfold Values. rewrite E, addCRC_eq.
    split; [reflexivity|]. split.
    + rewrite Hl. pose proof (Nat.div_mod_eq (length values + 7) 8).
      pose proof (Nat.mod_upper_bound (length values + 7) 8 ltac:(lia)). lia.
    + intros i Hi.
      pose proof (Nat.div_mod_eq i 8) as Hdm.
      pose proof (Nat.mod_upper_bound i 8 ltac:(lia)) as Hm.
      rewrite Hb; [|apply Nat.Div0.div_lt_upper_bound; exact Hi|exact Hm].
      rewrite <- Hdm, truthy_element_Number. reflexivity.
  - vm_compute. reflexivity.
Qed.

Lemma makeRequest_writeMultipleCoils_witness :
  exists payload crc : Buffer,
    ModbusRTU.makeRequest 17 0x0F 0x0013 99 (Values [1; 1; 0; 0; 1; 0; 1; 1; 1; 0])
    = Ok ([x11; x0f; x00; x13; x00; x0a; x02] ++ payload ++ crc)
    /\ length payload = 2%nat
    /\ Z.testbit (u8 (nth 1 payload x00)) 0 = true
    /\ Z.testbit (u8 (nth 1 payload x00)) 1 = false.
Proof.
  destruct (proj1 (proj2 (proj2 makeRequest_writeMultipleCoils))
              17 0x0013 99 [1; 1; 0; 0; 1; 0; 1; 1; 1; 0])
    as (payload & E & Hl & Hb); [simpl; lia|].
  assert (Hp : length payload = 2%nat) by (simpl in Hl; lia).
  cbv zeta in E. rewrite Hp in E, Hb.
  eexists payload, _. split; [rewrite E, <- app_assoc; reflexivity|].
  split; [exact Hp|]. split.
  - exact (Hb 8%nat ltac:(lia)).
  - exact (Hb 9%nat ltac:(lia)).
Defined.

(** C6, the frame of the claim: its payload byte [1A] is not the values
    [1,0,1,0,1] packed from the low bit up, which is [15]. *)
Lemma makeRequest_documented_frame :
  ModbusRTU.makeRequest 1 0x0F 0x0020 5 (Values [1; 0; 1; 0; 1])
  <> Ok [x01; x0f; x00; x20; x00; x05; x01; x1a; x9f; x5b].
Proof. vm_compute. discriminate. Qed.

(** * Properties of the bus controller *)

Section Queue.

Context {Method World Value Exn : Type}.

Abbreviation State := (DeviceRTU.State Method World Value Exn).
Abbreviation QueueEntry := (DeviceRTU.QueueEntry Method).

Implicit Types (s : State) (m : list (Z * QueueEntry)) (key : Z).

Lemma Map_get_head key (value : QueueEntry) m :
  Map_get key ((key, value) :: m) = Some value.
Proof. unfold Map_get. simpl. rewrite Z.eqb_refl. reflexivity. Qed.

Lemma Map_set_fresh key (value : QueueEntry) m :
  Forall (fun k => k < key) (Map_keys m) ->
  Map_set key value m = m ++ [(key, value)].
Proof.
  intros H. unfold Map_set.
  replace (Map_has key m) with false; [reflexivity|].
  symmetry. unfold Map_has, Map_keys in *.
  induction m as [|[k v] m IH]; [reflexivity|].
  simpl in *. inversion H as [|? ? Hk Hm]; subst.
  rewrite IH by exact Hm.
  replace (k =? key) with false by (symmetry; apply Z.eqb_neq; lia).
  reflexivity.
Qed.

Lemma Map_delete_absent key m :
  Forall (fun k => k <> key) (Map_keys m) -> Map_delete key m = m.
Proof.
  unfold Map_delete, Map_keys. induction m as [|[k v] m IH]; intros H;
    [reflexivity|].
  simpl in *. inversion H as [|? ? Hk Hm]; subst.
  replace (k =? key) with false by (symmetry; apply Z.eqb_neq; exact Hk).
  simpl. rewrite IH by exact Hm. reflexivity.
Qed.

Lemma Map_delete_head key (value : QueueEntry) m :
  Forall (fun k => k <> key) (Map_keys m) ->
  Map_delete key ((key, value) :: m) = m.
Proof.
  intros H. unfold Map_delete. simpl. rewrite Z.eqb_refl. simpl.
  apply Map_delete_absent. exact H.
Qed.

Lemma keys_entriesFrom key p (methods : list Method) :
  Forall (fun k => key <= k < key + Z.of_nat (length methods))
    (Map_keys (entriesFrom key p methods))
  /\ StronglySorted Z.lt (Map_keys (entriesFrom key p methods)).
Proof.
  revert key p. induction methods as [|t methods IH]; intros key p.
  - split; constructor.
  - destruct (IH (key + 1) (p + 1)) as [Hb Hs].
    cbn [entriesFrom Map_keys map fst length]. split.
    + constructor; [lia|].
      eapply Forall_impl; [|exact Hb]. cbv beta. intros k Hk. lia.
    + constructor; [exact Hs|].
      eapply Forall_impl; [|exact Hb]. cbv beta. intros k Hk. lia.
Qed.

Lemma entriesFrom_app key p (a b : list Method) :
  entriesFrom key p (a ++ b)
  = entriesFrom key p a
    ++ entriesFrom (key + Z.of_nat (length a)) (p + Z.of_nat (length a)) b.
Proof.
  revert key p. induction a as [|t a IH]; intros key p.
  - simpl. rewrite !Z.add_0_r. reflexivity.
  - cbn [app entriesFrom length]. rewrite IH. do 3 f_equal; lia.
Qed.

Lemma method_entriesFrom key p (methods : list Method) :
  map (fun kv => method (snd kv)) (entriesFrom key p methods) = methods.
Proof.
  revert key p. induction methods as [|t methods IH]; intros key p;
    [reflexivity|].
  simpl. rewrite IH. reflexivity.
Qed.

(** Sorted keys below the next sequence number. *)
Lemma sorted_snoc (keys : list Z) (bound : Z) :
  StronglySorted Z.lt (keys ++ [bound])
  <-> StronglySorted Z.lt keys /\ Forall (fun k => k < bound) keys.
Proof.
  induction keys as [|k keys IH]; simpl.
  - split; [intros _; split; constructor|intros _; repeat constructor].
  - split.
    + intros H. apply StronglySorted_inv in H. destruct H as [Hs Hf].
      apply IH in Hs. destruct Hs as [Hs Hb].
      apply Forall_app in Hf. destruct Hf as [Hf Hk].
      split; constructor; try assumption. inversion Hk; assumption.
    + intros [Hs Hb]. apply StronglySorted_inv in Hs. destruct Hs as [Hs Hf].
      inversion Hb as [|? ? Hk Hb']; subst.
      constructor; [apply IH; split; assumption|].
      apply Forall_app. split; [exact Hf|]. constructor; [exact Hk|constructor].
Qed.

Lemma sorted_app (a b : list Z) :
  StronglySorted Z.lt (a ++ b)
  <-> StronglySorted Z.lt a /\ StronglySorted Z.lt b
      /\ Forall (fun x => Forall (fun y => x < y) b) a.
Proof.
  induction a as [|x a IH]; simpl.
  - split; [intros H; repeat split; [constructor|exact H|constructor]|tauto].
  - split.
    + intros H. apply StronglySorted_inv in H. destruct H as [Hs Hf].
      apply IH in Hs. destruct Hs as (Ha & Hb & Hab).
      apply Forall_app in Hf. destruct Hf as [Hfa Hfb].
      repeat split; try constructor; assumption.
    + intros (Ha & Hb & Hab). apply StronglySorted_inv in Ha.
      destruct Ha as [Ha Hfa]. inversion Hab as [|? ? Hxb Hab']; subst.
      constructor; [apply IH; repeat split; assumption|].
      apply Forall_app. split; assumption.
Qed.

Lemma keys_app m (m' : list (Z * QueueEntry)) :
  Map_keys (m ++ m') = Map_keys m ++ Map_keys m'.
Proof. apply map_app. Qed.

Lemma actionAddQueue_spec (t : Method) s :
  Forall (fun k => k < queueIndex s) (Map_keys (queue s)) ->
  let s' := snd (actionAddQueue t s) in
  fst (actionAddQueue t s) = nextPromise s
  /\ queue s' = queue s ++ [(queueIndex s, {| promise := nextPromise s; method := t |})]
  /\ queueIndex s' = queueIndex s + 1
  /\ nextPromise s' = nextPromise s + 1
  /\ trace s' = trace s
  /\ world s' = world s.
Proof.
  intros H. unfold actionAddQueue, getQueueIndex. cbn.
  rewrite Map_set_fresh by exact H. repeat split.
Qed.

Lemma enqueueAll_spec (methods : list Method) s :
  Forall (fun k => k < queueIndex s) (Map_keys (queue s)) ->
  let s' := enqueueAll methods s in
  queue s' = queue s ++ entriesFrom (queueIndex s) (nextPromise s) methods
  /\ queueIndex s' = queueIndex s + Z.of_nat (length methods)
  /\ nextPromise s' = nextPromise s + Z.of_nat (length methods)
  /\ trace s' = trace s
  /\ world s' = world s.
Proof.
  revert s. induction methods as [|t methods IH]; intros s H.
  - cbn. rewrite app_nil_r, !Z.add_0_r. repeat split.
  - destruct (actionAddQueue_spec t s H) as (_ & Hq & Hi & Hp & Ht & Hw).
    cbv zeta in *. unfold enqueueAll in *. cbn [fold_left].
    destruct (IH (snd (actionAddQueue t s))) as (Hq' & Hi' & Hp' & Ht' & Hw').
    { rewrite Hq, Hi, keys_app. apply Forall_app. split.
      - eapply Forall_impl; [|exact H]. cbv beta. intros k Hk. lia.
      - repeat constructor. simpl. lia. }
    rewrite Hq', Hi', Hp', Ht', Hw', Hq, Hi, Hp, Ht, Hw.
    cbn [entriesFrom length]. rewrite <- app_assoc.
    repeat split; try reflexivity; lia.
Qed.

Lemma queue_ok_init (timeout : Z) (w : World) :
  queue_ok (init (Method := Method) (Value := Value) (Exn := Exn) timeout w).
Proof. unfold queue_ok. cbn. repeat constructor. Qed.

Lemma queue_ok_actionAddQueue (t : Method) s :
  queue_ok s -> queue_ok (snd (actionAddQueue t s)).
Proof.
  unfold queue_ok. intros H. apply sorted_snoc in H. destruct H as [Hs Hb].
  destruct (actionAddQueue_spec t s Hb) as (_ & Hq & Hi & _).
  cbv zeta in *. rewrite Hq, Hi, keys_app. apply sorted_snoc. split.
  - apply sorted_snoc. split; assumption.
  - apply Forall_app. split.
    + eapply Forall_impl; [|exact Hb]. cbv beta. intros k Hk. lia.
    + repeat constructor. simpl. lia.
Qed.

End Queue.

(** ** The drain, from one [await] to the next *)

Section Awaiting.

Context {Method World Value Exn : Type}.

Abbreviation State := (DeviceRTU.State Method World Value Exn).
Abbreviation QueueEntry := (DeviceRTU.QueueEntry Method).
Abbreviation Drain := (DeviceRTU.Drain Method Value Exn).

Implicit Types (s : State) (key : Z).

Variable call : Method -> State -> completion Exn (completion Exn Value) * State.

Lemma invoked_app (a b : list (Event Value Exn)) :
  invoked (a ++ b) = invoked a ++ invoked b.
Proof.
  induction a as [|e a IH]; [reflexivity|].
  destruct e; cbn [app invoked]; rewrite IH; reflexivity.
Qed.

Lemma settled_app (a b : list (Event Value Exn)) :
  settled (a ++ b) = settled a ++ settled b.
Proof.
  induction a as [|e a IH]; [reflexivity|].
  destruct e; cbn [app settled]; rewrite IH; reflexivity.
Qed.

Lemma sorted_NoDup (l : list Z) : StronglySorted Z.lt l -> NoDup l.
Proof.
  induction 1 as [|x l Hs IH Hf]; constructor; [|exact IH].
  intros Hin. rewrite Forall_forall in Hf. specialize (Hf x Hin). lia.
Qed.

Lemma drainFrom_cons key (rest : list Z) s :
  drainFrom call (key :: rest) s
  = match Map_get key (queue s) with
    | None => drainFrom call rest s
    | Some value =>
        match call (method value) (emit (Invoke key) s) with
        | (Thrown err, s) =>
            drainFrom call rest (settleEntry key value (Thrown err) s)
        | (Returned outcome, s) =>
            (Some {| current := key; entry := value; settles := outcome;
                     pending := rest |}, s)
        end
    end.
Proof. reflexivity. Qed.

Lemma drainAlone_None (arrivals : list (list Method)) s :
  drainAlone call arrivals None s = (None, s).
Proof. destruct arrivals; reflexivity. Qed.

Lemma drainAlone_cons (ms : list Method) (arrivals : list (list Method))
  (d : Drain) s :
  drainAlone call (ms :: arrivals) (Some d) s
  = drainAlone call arrivals
      (fst (drainResume call d (enqueueAll ms s)))
      (snd (drainResume call d (enqueueAll ms s))).
Proof.
  cbn [drainAlone]. destruct (drainResume call d (enqueueAll ms s)).
  reflexivity.
Qed.

(** Calls of [actionAddQueue] add entries at the end, under new keys. *)
Lemma enqueueAll_grows (ms : list Method) s :
  queue_ok s ->
  exists added : list (Z * QueueEntry),
    queue (enqueueAll ms s) = queue s ++ added
    /\ Forall (fun k => queueIndex s <= k) (Map_keys added)
    /\ queue_ok (enqueueAll ms s)
    /\ queueIndex s <= queueIndex (enqueueAll ms s)
    /\ trace (enqueueAll ms s) = trace s.
Proof.
  intros Hok. pose proof Hok as H. apply sorted_snoc in H.
  destruct H as [Hs Hb].
  destruct (enqueueAll_spec ms s Hb) as (Hq & Hi & _ & Ht & _).
  cbv zeta in *.
  destruct (keys_entriesFrom (queueIndex s) (nextPromise s) ms) as [Hnb Hns].
  exists (entriesFrom (queueIndex s) (nextPromise s) ms).
  split; [exact Hq|]. split.
  { eapply Forall_impl; [|exact Hnb]. cbv beta. intros k Hk. lia. }
  split; [|split; [lia|exact Ht]].
  unfold queue_ok. rewrite Hq, Hi, keys_app. apply sorted_snoc. split.
  - apply sorted_app. split; [exact Hs|]. split; [exact Hns|].
    eapply Forall_impl; [|exact Hb]. cbv beta. intros k Hk.
    eapply Forall_impl; [|exact Hnb]. cbv beta. intros k' Hk'. lia.
  - apply Forall_app. split.
    + eapply Forall_impl; [|exact Hb]. cbv beta. intros k Hk. lia.
    + eapply Forall_impl; [|exact Hnb]. cbv beta. intros k Hk. lia.
Qed.

(** After the [await]: the entry at the head of the queue is settled and
    deleted. *)
Lemma settleEntry_head key (value : QueueEntry)
  (outcome : completion Exn Value) (rest : list (Z * QueueEntry)) s :
  queue s = (key, value) :: rest -> queue_ok s ->
  queue (settleEntry key value outcome s) = rest
  /\ queue_ok (settleEntry key value outcome s)
  /\ queueIndex (settleEntry key value outcome s) = queueIndex s
  /\ invoked (trace (settleEntry key value outcome s)) = invoked (trace s)
  /\ settled (trace (settleEntry key value outcome s))
     = settled (trace s) ++ [promise value].
Proof.
  intros Hq Hok. unfold queue_ok in Hok. rewrite Hq in Hok.
  cbn [Map_keys map fst app] in Hok. fold (Map_keys rest) in Hok.
  apply StronglySorted_inv in Hok. destruct Hok as [Hs Hk].
  apply Forall_app in Hk. destruct Hk as [Hk _].
  assert (Hd : Map_delete key (queue s) = rest).
  { rewrite Hq. apply Map_delete_head.
    eapply Forall_impl; [|exact Hk]. cbv beta. intros k Hlt. lia. }
  unfold settleEntry. cbv zeta.
  change (queue (emit (settle (promise value) outcome) s)) with (queue s).
  rewrite Hd. split; [reflexivity|]. split; [exact Hs|].
  split; [reflexivity|].
  change (trace (set_queue rest (emit (settle (promise value) outcome) s)))
    with (trace s ++ [settle (promise value) outcome]).
  rewrite invoked_app, settled_app.
  destruct outcome; cbn [settle invoked settled]; rewrite ?app_nil_r;
    split; reflexivity.
Qed.

Hypothesis Hcall : enqueues_only call.

Lemma call_grows (m : Method) s :
  queue_ok s ->
  exists added : list (Z * QueueEntry),
    queue (snd (call m s)) = queue s ++ added
    /\ Forall (fun k => queueIndex s <= k) (Map_keys added)
    /\ queue_ok (snd (call m s))
    /\ queueIndex s <= queueIndex (snd (call m s))
    /\ invoked (trace (snd (call m s))) = invoked (trace s)
    /\ settled (trace (snd (call m s))) = settled (trace s).
Proof.
  intros Hok. destruct (Hcall m s) as (ms & Hq & Hi & Hinv & Hset).
  destruct (enqueueAll_grows ms s Hok) as (added & Eq & Hb & Hok' & Hle & _).
  exists added. rewrite Hq, Hi. split; [exact Eq|]. split; [exact Hb|].
  split; [|split; [exact Hle|split; assumption]].
  unfold queue_ok in *. rewrite Hq, Hi. exact Hok'.
Qed.

(** The drain from a point where the keys still to visit are the keys at
    the head of the queue. *)
Lemma drainFrom_alone (rest : list (Z * QueueEntry)) :
  forall (arrivals : list (list Method)) (extra : list (Z * QueueEntry)) s,
    queue s = rest ++ extra -> queue_ok s ->
    (length rest <= length arrivals)%nat ->
    let started := drainFrom call (Map_keys rest) s in
    let ended := drainAlone call arrivals (fst started) (snd started) in
    fst ended = None
    /\ invoked (trace (snd ended)) = invoked (trace s) ++ Map_keys rest
    /\ settled (trace (snd ended))
       = settled (trace s) ++ map (fun kv => promise (snd kv)) rest
    /\ (exists added : list (Z * QueueEntry),
           queue (snd ended) = extra ++ added
           /\ Forall (fun k => queueIndex s <= k) (Map_keys added))
    /\ queue_ok (snd ended)
    /\ queueIndex s <= queueIndex (snd ended).
Proof.
  induction rest as [|[key value] rest IH];
    intros arrivals extra s Hq Hok Hlen; cbv zeta.
  - cbn [Map_keys map drainFrom fst snd]. rewrite drainAlone_None.
    cbn [fst snd]. rewrite !app_nil_r.
    split; [reflexivity|]. split; [reflexivity|]. split; [reflexivity|].
    split; [|split; [exact Hok|lia]].
    exists []. rewrite app_nil_r. split; [exact Hq|constructor].
  - change (Map_keys ((key, value) :: rest)) with (key :: Map_keys rest).
    cbn [length] in Hlen.
    assert (Tail : forall (outcome : completion Exn Value)
                     (arr : list (list Method))
                     (added : list (Z * QueueEntry)) (s1 : State),
               queue s1 = (key, value) :: rest ++ extra ++ added ->
               Forall (fun k => queueIndex s <= k) (Map_keys added) ->
               queue_ok s1 -> queueIndex s <= queueIndex s1 ->
               invoked (trace s1) = invoked (trace s) ++ [key] ->
               settled (trace s1) = settled (trace s) ->
               (length rest <= length arr)%nat ->
               let started := drainFrom call (Map_keys rest)
                                (settleEntry key value outcome s1) in
               let ended := drainAlone call arr (fst started) (snd started) in
               fst ended = None
               /\ invoked (trace (snd ended))
                  = invoked (trace s) ++ key :: Map_keys rest
               /\ settled (trace (snd ended))
                  = settled (trace s)
                    ++ map (fun kv => promise (snd kv)) ((key, value) :: rest)
               /\ (exists added' : list (Z * QueueEntry),
                      queue (snd ended) = extra ++ added'
                      /\ Forall (fun k => queueIndex s <= k) (Map_keys added'))
               /\ queue_ok (snd ended)
               /\ queueIndex s <= queueIndex (snd ended)).
    { intros outcome arr added s1 Hq1 Hb1 Hok1 Hle1 Hinv1 Hset1 Hlen1.
      destruct (settleEntry_head key value outcome _ s1 Hq1 Hok1)
        as (Hq2 & Hok2 & Hi2 & Hinv2 & Hset2).
      destruct (IH arr (extra ++ added) _ Hq2 Hok2 Hlen1)
        as (Hn & Hinv & Hset & (added' & Hq' & Hb') & Hok' & Hle').
      cbv zeta. split; [exact Hn|].
      split; [rewrite Hinv, Hinv2, Hinv1, <- app_assoc; reflexivity|].
      split; [rewrite Hset, Hset2, Hset1, <- app_assoc; reflexivity|].
      split; [|split; [exact Hok'|lia]].
      exists (added ++ added'). rewrite Hq', app_assoc.
      split; [reflexivity|]. rewrite keys_app. apply Forall_app.
      split; [exact Hb1|].
      eapply Forall_impl; [|exact Hb']. cbv beta. intros k Hk. lia. }
    rewrite drainFrom_cons, Hq. cbn [app]. rewrite Map_get_head.
    rewrite <- app_comm_cons in Hq.
    assert (Hok0 : queue_ok (emit (Invoke key) s)) by exact Hok.
    destruct (call_grows (method value) (emit (Invoke key) s) Hok0)
      as (added1 & Hq1 & Hb1 & Hok1 & Hle1 & Hinv1 & Hset1).
    change (queue (emit (Invoke key) s)) with (queue s) in Hq1.
    change (queueIndex (emit (Invoke key) s)) with (queueIndex s) in Hb1, Hle1.
    change (trace (emit (Invoke key) s)) with (trace s ++ [Invoke key])
      in Hinv1, Hset1.
    rewrite invoked_app in Hinv1. rewrite settled_app in Hset1.
    cbn [invoked settled] in Hinv1, Hset1. rewrite app_nil_r in Hset1.
    rewrite Hq in Hq1. cbn [app] in Hq1. rewrite <- app_assoc in Hq1.
    destruct (call (method value) (emit (Invoke key) s)) as [[outcome|err] s1].
    + cbn [fst snd] in *.
      destruct arrivals as [|ms arr]; [cbn [length] in Hlen; lia|].
      cbn [length] in Hlen. rewrite drainAlone_cons.
      unfold drainResume. cbn [current entry settles pending].
      destruct (enqueueAll_grows ms s1 Hok1)
        as (added2 & Hq2 & Hb2 & Hok2 & Hle2 & Ht2).
      rewrite Hq1 in Hq2. cbn [app] in Hq2. rewrite <- !app_assoc in Hq2.
      apply (Tail outcome arr (added1 ++ added2) (enqueueAll ms s1)).
      * exact Hq2.
      * rewrite keys_app. apply Forall_app. split; [exact Hb1|].
        eapply Forall_impl; [|exact Hb2]. cbv beta. intros k Hk. lia.
      * exact Hok2.
      * lia.
      * rewrite Ht2. exact Hinv1.
      * rewrite Ht2. exact Hset1.
      * lia.
    + cbn [fst snd] in *.
      apply (Tail (Thrown err) arrivals added1 s1); try assumption. lia.
Qed.

(** X16. In a drain that no other drain overlaps, with methods that reach
    the queue through actionAddQueue only, and whatever actions enqueue
    while the drain waits: runQueue runs to its end, the methods invoked are
    the entries present when the keys were taken, in the order of their keys
    and each once, the promise of each of them is settled once, in the same
    order, and what is left in the queue was enqueued after the keys were
    taken, under keys that were not visited. *)
Theorem drain_alone_once (arrivals : list (list Method)) s :
  queue_ok s ->
  (length (queue s) <= length arrivals)%nat ->
  let started := runQueueStart call s in
  let ended := drainAlone call arrivals (fst started) (snd started) in
  fst ended = None
  /\ invoked (trace (snd ended)) = invoked (trace s) ++ Map_keys (queue s)
  /\ StronglySorted Z.lt (Map_keys (queue s))
  /\ NoDup (Map_keys (queue s))
  /\ settled (trace (snd ended))
     = settled (trace s) ++ map (fun kv => promise (snd kv)) (queue s)
  /\ Forall (fun key => queueIndex s <= key /\ ~ In key (Map_keys (queue s)))
       (Map_keys (queue (snd ended)))
  /\ queue_ok (snd ended).
Proof.
  intros Hok Hlen. cbv zeta.
  pose proof Hok as Hs. apply sorted_snoc in Hs. destruct Hs as [Hs Hb].
  assert (E : runQueueStart call s = drainFrom call (Map_keys (queue s)) s).
  { unfold runQueueStart. destruct (queue s) as [|kv rest]; reflexivity. }
  rewrite E.
  destruct (drainFrom_alone (queue s) arrivals [] s
              (eq_sym (app_nil_r (queue s))) Hok Hlen)
    as (Hn & Hinv & Hset & (added & Hq & Hadd) & Hok' & _).
  cbv zeta in *.
  split; [exact Hn|]. split; [exact Hinv|]. split; [exact Hs|].
  split; [apply sorted_NoDup; exact Hs|]. split; [exact Hset|].
  split; [|exact Hok'].
  rewrite Hq. cbn [app]. eapply Forall_impl; [|exact Hadd]. cbv beta.
  intros k Hk. split; [exact Hk|]. intros Hin.
  rewrite Forall_forall in Hb. specialize (Hb k Hin). lia.
Qed.

(** X17. Two drains one after the other, neither overlapped, with methods
    that reach the queue through actionAddQueue only: the second invokes
    what was enqueued during the first, and no entry is invoked twice. *)
Theorem drains_in_a_row (first second : list (list Method)) s :
  queue_ok s ->
  (length (queue s) <= length first)%nat ->
  let started := runQueueStart call s in
  let between := drainAlone call first (fst started) (snd started) in
  (length (queue (snd between)) <= length second)%nat ->
  let restarted := runQueueStart call (snd between) in
  let ended := drainAlone call second (fst restarted) (snd restarted) in
  fst ended = None
  /\ invoked (trace (snd ended))
     = invoked (trace s)
       ++ Map_keys (queue s) ++ Map_keys (queue (snd between))
  /\ NoDup (Map_keys (queue s) ++ Map_keys (queue (snd between))).
Proof.
  intros Hok Hlen. cbv zeta. intros Hlen2.
  pose proof Hok as Hs. apply sorted_snoc in Hs. destruct Hs as [Hs Hb].
  assert (E : forall t : State,
             runQueueStart call t = drainFrom call (Map_keys (queue t)) t).
  { intros t. unfold runQueueStart. destruct (queue t) as [|kv rest]; reflexivity. }
  rewrite !E in *.
  destruct (drainFrom_alone (queue s) first [] s
              (eq_sym (app_nil_r (queue s))) Hok Hlen)
    as (_ & Hinv & _ & (added & Hq & Hadd) & Hok' & _).
  cbv zeta in *.
  set (between := snd (drainAlone call first
                         (fst (drainFrom call (Map_keys (queue s)) s))
                         (snd (drainFrom call (Map_keys (queue s)) s)))) in *.
  destruct (drainFrom_alone (queue between) second [] between
              (eq_sym (app_nil_r (queue between))) Hok' Hlen2)
    as (Hn & Hinv2 & _).
  cbv zeta in *.
  split; [exact Hn|]. split; [rewrite Hinv2, Hinv, <- app_assoc; reflexivity|].
  apply sorted_NoDup. apply sorted_app. split; [exact Hs|].
  pose proof Hok' as Hs'. apply sorted_snoc in Hs'. split; [apply Hs'|].
  rewrite Hq. cbn [app].
  eapply Forall_impl; [|exact Hb]. cbv beta. intros k Hk.
  eapply Forall_impl; [|exact Hadd]. cbv beta. intros k' Hk'. lia.
Qed.

End Awaiting.

Section Skipping.

Context {Method World Value Exn : Type}.

Abbreviation State := (DeviceRTU.State Method World Value Exn).
Abbreviation QueueEntry := (DeviceRTU.QueueEntry Method).
Abbreviation Drain := (DeviceRTU.Drain Method Value Exn).

Variable call : Method -> State -> completion Exn (completion Exn Value) * State.

Lemma Map_get_delete (key key' : Z) (m : list (Z * QueueEntry)) :
  Map_get key m = None -> Map_get key (Map_delete key' m) = None.
Proof.
  unfold Map_get, Map_delete. induction m as [|[k v] m IH]; [reflexivity|].
  cbn [find filter fst]. destruct (Z.eqb_spec k key) as [->|Hne];
    [discriminate|].
  intros H. destruct (negb (k =? key')); [|exact (IH H)].
  cbn [find fst]. destruct (Z.eqb_spec k key) as [E|_]; [contradiction|].
  exact (IH H).
Qed.

Lemma drainFrom_absent (keys : list Z) (s : State) :
  Forall (fun key => Map_get key (queue s) = None) keys ->
  drainFrom call keys s = (None, s).
Proof.
  induction keys as [|key keys IH]; intros H; [reflexivity|].
  apply Forall_cons_iff in H. destruct H as [Hk Hr].
  rewrite drainFrom_cons, Hk. exact (IH Hr).
Qed.

(** X27. A drain that wakes to find the entries of all its remaining keys
    gone (another drain has run them) settles the entry it was waiting for
    and ends there: it invokes nothing more. *)
Theorem drain_skips_removed (d : Drain) (s : State) :
  Forall (fun key => Map_get key (queue s) = None) (pending d) ->
  drainResume call d s
  = (None, settleEntry (current d) (entry d) (settles d) s)
  /\ invoked (trace (snd (drainResume call d s))) = invoked (trace s).
Proof.
  intros H.
  assert (E : drainResume call d s
              = (None, settleEntry (current d) (entry d) (settles d) s)).
  { unfold drainResume. apply drainFrom_absent.
    eapply Forall_impl; [|exact H]. cbv beta. intros key Hk.
    unfold settleEntry. cbv zeta.
    change (queue (set_queue ?q ?t)) with q.
    change (queue (emit ?e s)) with (queue s).
    apply Map_get_delete. exact Hk. }
  split; [exact E|]. rewrite E. cbn [snd]. unfold settleEntry. cbv zeta.
  change (trace (set_queue ?q (emit ?e s))) with (trace s ++ [e]).
  rewrite invoked_app. destruct (settles d); cbn [settle invoked];
    apply app_nil_r.
Qed.

End Skipping.

(** ** The control cycle *)

Section Cycle.

Context {World Value Exn : Type}.

Abbreviation task := (DeviceRTU.task World Value Exn).
Abbreviation State := (DeviceRTU.State task World Value Exn).

Implicit Types (s : State).

Lemma inputBus_ignored (update : State -> completion Exn unit * State)
  (provider : Z) s :
  process s = true -> inputBus update provider s = (Returned tt, s).
Proof. intros H. unfold inputBus. rewrite H. reflexivity. Qed.

Lemma inputBus_returned (update : State -> completion Exn unit * State)
  (provider : Z) s (u : unit) (s' : State) :
  process s = false ->
  update (runQueue (acquire provider s)) = (Returned u, s') ->
  inputBus update provider s = (Returned tt, oGate (set_online true s')).
Proof.
  intros H E. unfold inputBus. rewrite H. cbv zeta. rewrite E. reflexivity.
Qed.

Lemma inputBus_thrown (update : State -> completion Exn unit * State)
  (provider : Z) s (err : Exn) (s' : State) :
  process s = false ->
  update (runQueue (acquire provider s)) = (Thrown err, s') ->
  inputBus update provider s
  = (Thrown err, emit (Error err) (set_online false s')).
Proof.
  intros H E. unfold inputBus. rewrite H. cbv zeta. rewrite E. reflexivity.
Qed.

(** What [oGate] does: a new timer is armed for [offTimeout] and kept in
    [offlineTimer], [progress] is false, and the shares are rendered. *)
Lemma oGate_releases s :
  timers (oGate s) = timers s ++ [(nextTimer s, offTimeout s)]
  /\ offlineTimer (oGate s) = nextTimer s
  /\ progress (oGate s) = Some false
  /\ trace (oGate s) = trace s ++ [Render (online s) (process s) (Some false)].
Proof. repeat split. Qed.

(** What [iGate] does: the timer kept in [offlineTimer] is disarmed,
    [progress] is true, and the shares are rendered. [process] is left as
    it is. *)
Lemma iGate_acquires s :
  (JS.truthy (offlineTimer s) = true -> armed (offlineTimer s) (iGate s) = false)
  /\ progress (iGate s) = Some true
  /\ process (iGate s) = process s
  /\ trace (iGate s) = trace s ++ [Render (online s) (process s) (Some true)].
Proof.
  unfold iGate. destruct (JS.truthy (offlineTimer s)) eqn:Ht.
  - repeat split. intros _. unfold armed, clearTimeout. cbn.
    induction (timers s) as [|[h d] l IH]; [reflexivity|].
    cbn [filter fst]. destruct (Z.eqb_spec h (offlineTimer s)) as [E|E].
    + exact IH.
    + cbn. apply Z.eqb_neq in E. rewrite E. exact IH.
  - repeat split. discriminate.
Qed.

End Cycle.

(** ** Tasks, and calls that nothing interrupts *)

Section Alone.

Context {World Value Exn : Type}.

Abbreviation task := (DeviceRTU.task World Value Exn).
Abbreviation State := (DeviceRTU.State task World Value Exn).
Abbreviation QueueEntry := (DeviceRTU.QueueEntry task).

Implicit Types (s : State).

Lemma enqueueAll_agree (ms : list task) s (t : State) :
  queue s = queue t -> queueIndex s = queueIndex t ->
  nextPromise s = nextPromise t ->
  queue (enqueueAll ms s) = queue (enqueueAll ms t)
  /\ queueIndex (enqueueAll ms s) = queueIndex (enqueueAll ms t)
  /\ trace (enqueueAll ms s) = trace s.
Proof.
  revert s t. induction ms as [|m ms IH]; intros s t Hq Hi Hp.
  - cbn. auto.
  - unfold enqueueAll. cbn [fold_left].
    destruct (IH (snd (actionAddQueue m s)) (snd (actionAddQueue m t)))
      as (Hq' & Hi' & Ht').
    + unfold actionAddQueue, getQueueIndex. cbn. rewrite Hq, Hi, Hp. reflexivity.
    + unfold actionAddQueue, getQueueIndex. cbn. rewrite Hi. reflexivity.
    + unfold actionAddQueue, getQueueIndex. cbn. rewrite Hp. reflexivity.
    + split; [exact Hq'|]. split; [exact Hi'|]. exact Ht'.
Qed.

(** A task reaches the queue through [actionAddQueue] only. *)
Lemma callTask_enqueues_only : enqueues_only (@callTask World Value Exn).
Proof.
  intros m s. unfold callTask.
  destruct (run m (world s)) as [[outcome w] enqueued]. cbn [snd].
  exists enqueued.
  destruct (enqueueAll_agree enqueued (set_world w s) s eq_refl eq_refl eq_refl)
    as (Hq & Hi & Ht).
  rewrite Hq, Hi, Ht. repeat split.
Qed.

(** [runKey] is an iteration of the loop in which the [await] returns at
    once. *)
Lemma runKey_settles s (key : Z) (value : QueueEntry) :
  Map_get key (queue s) = Some value ->
  exists outcome : completion Exn Value,
    callTask (method value) (emit (Invoke key) s)
    = (Returned outcome,
       snd (callTask (method value) (emit (Invoke key) s)))
    /\ runKey s key
       = settleEntry key value outcome
           (snd (callTask (method value) (emit (Invoke key) s))).
Proof.
  intros Hg. unfold runKey, runEntry, callTask. rewrite Hg. cbv zeta.
  change (world (emit (Invoke key) s)) with (world s).
  destruct (run (method value) (world s)) as [[outcome w] enqueued].
  exists outcome. split; [reflexivity|]. cbn [snd].
  unfold settleEntry. destruct outcome; reflexivity.
Qed.

Lemma fold_runKey_alone (keys : list Z) :
  forall (n : nat) s,
    (length keys <= n)%nat ->
    drainAlone callTask (repeat [] n)
      (fst (drainFrom callTask keys s)) (snd (drainFrom callTask keys s))
    = (None, fold_left runKey keys s).
Proof.
  induction keys as [|key keys IH]; intros n s Hn.
  - cbn [drainFrom fst snd fold_left]. apply drainAlone_None.
  - rewrite drainFrom_cons. cbn [fold_left length] in *.
    destruct (Map_get key (queue s)) as [value|] eqn:Hg.
    + destruct (runKey_settles s key value Hg) as (outcome & Ec & Ek).
      rewrite Ec, Ek. cbn [fst snd].
      destruct n as [|n]; [lia|]. cbn [repeat].
      rewrite drainAlone_cons. unfold drainResume.
      cbn [current entry settles pending].
      change (enqueueAll [] ?t) with t.
      apply IH. lia.
    + replace (runKey s key) with s by (unfold runKey; rewrite Hg; reflexivity).
      apply IH. lia.
Qed.

(** [runQueue] is the drain on its own, when nothing is enqueued while it
    waits. *)
Lemma runQueue_alone s (n : nat) :
  (length (queue s) <= n)%nat ->
  drainAlone callTask (repeat [] n)
    (fst (runQueueStart callTask s)) (snd (runQueueStart callTask s))
  = (None, runQueue s).
Proof.
  intros Hn. unfold runQueueStart, runQueue.
  destruct (length (queue s) =? 0)%nat eqn:E.
  - cbn [fst snd]. apply drainAlone_None.
  - cbv zeta. apply fold_runKey_alone.
    unfold Map_keys. rewrite length_map. exact Hn.
Qed.

Lemma finish_Done (update : State -> completion Exn unit * State)
  (fuel : nat) (result : completion Exn unit) s :
  finish fuel update (Done result) s = (Done result, s).
Proof. induction fuel as [|fuel IH]; [reflexivity|exact IH]. Qed.

Lemma finish_update (update : State -> completion Exn unit * State)
  (fuel : nat) s :
  finish (S (S fuel)) update (InRunQueue None) s
  = match update s with
    | (Returned _, s) => (Done (Returned tt), oGate (set_online true s))
    | (Thrown err, s) =>
        (Done (Thrown err), emit (Error err) (set_online false s))
    end.
Proof.
  cbn [finish inputBusResume].
  destruct (update s) as [[u|err] s']; cbn [inputBusResume];
    apply finish_Done.
Qed.

Lemma finish_drain (update : State -> completion Exn unit * State)
  (n : nat) :
  forall (d : option (Drain task Value Exn)) s (s' : State),
    drainAlone callTask (repeat [] n) d s = (None, s') ->
    forall fuel : nat,
      finish (n + S (S fuel)) update (InRunQueue d) s
      = finish (S (S fuel)) update (InRunQueue None) s'.
Proof.
  induction n as [|n IH]; intros d s s' H fuel.
  - cbn [repeat drainAlone] in H.
    destruct d; [discriminate|injection H as <-; reflexivity].
  - destruct d as [d|].
    + cbn [repeat] in H. rewrite drainAlone_cons in H.
      change (enqueueAll [] s) with s in H.
      change (S n + S (S fuel))%nat with (S (n + S (S fuel))).
      cbn [finish inputBusResume].
      destruct (drainResume callTask d s) as [d' s1]. cbn [fst snd] in H.
      apply IH. exact H.
    + rewrite drainAlone_None in H. injection H as <-.
      replace (S n + S (S fuel))%nat with (S (S (n + S fuel))) by lia.
      rewrite !finish_update. reflexivity.
Qed.

(** [inputBus] is the handoff woken until it is done, with nothing in
    between. *)
Lemma inputBus_alone (update : State -> completion Exn unit * State)
  (provider : Z) s (fuel : nat) :
  (length (queue s) + 2 <= fuel)%nat ->
  finish fuel update (fst (inputBusStart callTask provider s))
    (snd (inputBusStart callTask provider s))
  = (Done (fst (inputBus update provider s)), snd (inputBus update provider s)).
Proof.
  intros Hf. unfold inputBusStart, inputBus.
  destruct (process s); [apply finish_Done|]. cbv zeta.
  pose proof (runQueue_alone (acquire provider s)
                (length (queue (acquire provider s))) (Nat.le_refl _)) as H.
  destruct (runQueueStart callTask (acquire provider s)) as [d s1].
  cbn [fst snd] in *.
  assert (Hl : length (queue (acquire provider s)) = length (queue s)).
  { unfold acquire, iGate. destruct (JS.truthy _); reflexivity. }
  rewrite Hl in H.
  replace fuel
    with (length (queue s) + S (S (fuel - length (queue s) - 2)))%nat by lia.
  rewrite (finish_drain update _ d s1 _ H), finish_update.
  destruct (update (runQueue (acquire provider s))) as [[u|err] s2];
    reflexivity.
Qed.

End Alone.


Lemma queue_ok_threeQueued : queue_ok threeQueued.
Proof. unfold queue_ok. cbn. repeat constructor; lia. Qed.

Lemma drain_alone_once_witness :
  invoked (trace (snd (drainAlone callTask [[returning 40]; []; []]
                         (fst (runQueueStart callTask threeQueued))
                         (snd (runQueueStart callTask threeQueued)))))
  = [1; 2; 3]
  /\ Forall (fun key => 4 <= key /\ ~ In key [1; 2; 3])
       (Map_keys (queue (snd (drainAlone callTask [[returning 40]; []; []]
                                (fst (runQueueStart callTask threeQueued))
                                (snd (runQueueStart callTask threeQueued)))))).
Proof.
  assert (Hlen : (length (queue threeQueued)
                  <= length [[returning 40]; []; []])%nat)
    by (vm_compute; lia).
  pose proof (drain_alone_once callTask callTask_enqueues_only
                [[returning 40]; []; []] threeQueued
                queue_ok_threeQueued Hlen) as H.
  cbv zeta in H. destruct H as (_ & Hinv & _ & _ & _ & Hleft & _).
  split; [exact Hinv|exact Hleft].
Defined.

Lemma drains_in_a_row_witness :
  invoked
    (trace
       (snd (drainAlone callTask [[]; []]
               (fst (runQueueStart callTask
                       (snd (drainAlone callTask [[returning 40]; []; []]
                               (fst (runQueueStart callTask threeQueued))
                               (snd (runQueueStart callTask threeQueued))))))
               (snd (runQueueStart callTask
                       (snd (drainAlone callTask [[returning 40]; []; []]
                               (fst (runQueueStart callTask threeQueued))
                               (snd (runQueueStart callTask threeQueued)))))))))
  = [1; 2; 3; 4; 5].
Proof.
  assert (Hlen : (length (queue threeQueued)
                  <= length [[returning 40]; []; []])%nat)
    by (vm_compute; lia).
  pose proof (drains_in_a_row callTask callTask_enqueues_only
                [[returning 40]; []; []] [[]; []] threeQueued
                queue_ok_threeQueued Hlen) as H.
  cbv zeta in H.
  exact (proj1 (proj2 (H ltac:(vm_compute; lia)))).
Defined.

(** [firstDrain] is the drain of the first handoff at [overtaken]. *)
Lemma firstDrain_waits :
  handoffs (schedule callTask idlePoll
              [Arrive 1; Arrive 2; Wake 1; Wake 1; Wake 1; Wake 1]
              {| device := threeQueued; handoffs := [] |})
  = [InRunQueue (Some firstDrain); InRunQueue None].
Proof. vm_compute. reflexivity. Qed.

Lemma drain_skips_removed_witness :
  Map_keys (queue overtaken) = [5]
  /\ invoked (trace overtaken) = [1; 1; 2; 3; 4]
  /\ drainResume callTask firstDrain overtaken
     = (None, settleEntry 1 {| promise := 1; method := chaining 10 |}
                (Returned 10) overtaken)
  /\ invoked (trace (snd (drainResume callTask firstDrain overtaken)))
     = invoked (trace overtaken).
Proof.
  split; [reflexivity|]. split; [reflexivity|].
  apply (drain_skips_removed callTask firstDrain overtaken).
  repeat constructor.
Defined.

(** C7, on the code. Three methods are queued. A handoff starts the drain,
    which calls the first method and stops at its [await]; the entry is
    still in the queue, since it is deleted only after the [await]. A
    second handoff arrives now: the guard of [inputBus] lets it through
    ([process] is false), its drain takes the keys again and calls the
    first method a second time. When the second drain runs to its end
    before the first one wakes, the methods run are 1, 1, 2, 3 and the one
    enqueued meanwhile, 4, and the first drain, on waking, resolves entry 1
    again and skips the rest; when the two drains wake in turn, each of the
    three methods runs twice. *)
Theorem runQueue_overlapping_handoffs :
  let start := {| device := threeQueued; handoffs := [] |} in
  let held := schedule callTask idlePoll [Arrive 1] start in
  let both := schedule callTask idlePoll [Arrive 2] held in
  let secondFirst :=
    schedule callTask idlePoll
      [Wake 1; Wake 1; Wake 1; Wake 1; Wake 1; Wake 1;
       Wake 0; Wake 0; Wake 0] both in
  let inTurn :=
    schedule callTask idlePoll
      [Wake 0; Wake 1; Wake 0; Wake 1; Wake 0; Wake 1;
       Wake 0; Wake 1; Wake 0; Wake 1; Wake 0; Wake 1] both in
  Map_keys (queue threeQueued) = [1; 2; 3]
  /\ invoked (trace (device held)) = [1]
  /\ Map_keys (queue (device held)) = [1; 2; 3; 4]
  /\ process (device held) = false
  /\ invoked (trace (device both)) = [1; 1]
  /\ invoked (trace (device secondFirst)) = [1; 1; 2; 3; 4]
  /\ settled (trace (device secondFirst)) = [1; 2; 3; 4; 1]
  /\ world (device secondFirst) = [10; 10; 20; 30; 110]
  /\ handoffs secondFirst = [Done (Returned tt); Done (Returned tt)]
  /\ invoked (trace (device inTurn)) = [1; 1; 2; 2; 3; 3; 4]
  /\ world (device inTurn) = [10; 10; 20; 20; 30; 30; 110]
  /\ handoffs inTurn = [Done (Returned tt); Done (Returned tt)].
Proof. vm_compute. repeat split. Qed.

(** C1, on the code. A successful cycle leaves the offline timer armed
    and [progress] false. In the cycle after it the poll routine throws:
    [inputBus] rethrows, [online] is false, and [oGate] has not run; the
    timer that [iGate] cleared is not armed again, no timer is armed,
    [progress] is still true, and the trace ends with the error, with no
    [render] after it. *)
Theorem inputBus_failed_poll :
  let idle := snd (inputBus idlePoll 1 (init 30000 [])) in
  let failed := inputBus failingPoll 1 idle in
  timers idle = [(1, 30000)] /\ progress idle = Some false
  /\ fst failed = Thrown V2MODBUS_CRC_CHECK_FAILED
  /\ online (snd failed) = false
  /\ timers (snd failed) = []
  /\ progress (snd failed) = Some true
  /\ trace (snd failed)
     = trace idle ++ [CanRequest 1; Render true false (Some true);
                      Error V2MODBUS_CRC_CHECK_FAILED].
Proof. vm_compute. repeat split. Qed.

(** C8, on the code. While the device holds the transport, [progress] is
    true and [process], the flag that [inputBus] tests, is false: a second
    handoff at that point is not ignored, it runs a whole cycle. *)
Theorem inputBus_while_held :
  let held := acquire 1 (init 30000 []) in
  let again := inputBus idlePoll 2 held in
  progress held = Some true
  /\ process held = false
  /\ snd again <> held
  /\ trace (snd again)
     = trace held ++ [CanRequest 2; Render false false (Some true);
                      Render true false (Some false)].
Proof.
  vm_compute. repeat split. discriminate.
Qed.

(** ** More on the CRC *)

Lemma wrap8_add_256 (x k : Z) : wrap8 (x + 256 * k) = wrap8 x.
Proof.
  unfold wrap8. rewrite Z.mul_comm, Z.mod_add by lia. reflexivity.
Qed.

Lemma buffer_last_two (buffer : Buffer) :
  (2 <= length buffer)%nat -> exists data lo hi, buffer = data ++ [lo; hi].
Proof.
  intros H. destruct (rev buffer) as [|hi [|lo r]] eqn:Er.
  - apply (f_equal (@length byte)) in Er. rewrite length_rev in Er. simpl in Er. lia.
  - apply (f_equal (@length byte)) in Er. rewrite length_rev in Er. simpl in Er. lia.
  - exists (rev r), lo, hi. rewrite <- (rev_involutive buffer), Er.
    cbn [rev]. rewrite <- app_assoc. reflexivity.
Qed.

(** X1. addCRC never fails: it returns the data followed by exactly two
    bytes, the low byte and then the high byte of calculateCRC16 of the data,
    and that checksum is always below 65536. *)
Theorem addCRC_appends_crc (data : Buffer) :
  exists lo hi : byte,
    ModbusRTU.addCRC data = Ok (data ++ [lo; hi])
    /\ u8 lo + 256 * u8 hi = ModbusRTU.calculateCRC16 data
    /\ 0 <= ModbusRTU.calculateCRC16 data < 65536.
Proof.
  destruct (calculateCRC16_reference data) as [_ R].
  eexists _, _. split; [apply addCRC_eq|]. split; [apply u16_bytes; exact R|exact R].
Qed.

(** X2. verifyCRC accepts a buffer exactly when the buffer is the result
    of addCRC on some data: the frames that pass the check are the frames
    addCRC can produce, and no other. *)
Theorem verifyCRC_iff_addCRC (frame : Buffer) :
  ModbusRTU.verifyCRC frame = Ok true
  <-> exists data : Buffer, ModbusRTU.addCRC data = Ok frame.
Proof.
  split.
  - intros H.
    destruct (Nat.ltb_spec (length frame) 2) as [L|L].
    + unfold ModbusRTU.verifyCRC in H.
      apply Nat.ltb_lt in L. rewrite L in H. discriminate.
    + destruct (buffer_last_two frame L) as (data & lo & hi & ->).
      rewrite verifyCRC_frame in H.
      assert (E : (u8 lo + 256 * u8 hi =? ModbusRTU.calculateCRC16 data) = true)
        by congruence.
      clear H. apply Z.eqb_eq in E. rename E into H.
      exists data. rewrite addCRC_eq, <- H.
      pose proof (u8_range lo) as Hlo.
      replace ((u8 lo + 256 * u8 hi) / 256) with (u8 hi)
        by (rewrite Z.mul_comm, Z.div_add by lia;
            rewrite Z.div_small by lia; lia).
      rewrite wrap8_add_256, !wrap8_u8. reflexivity.
  - intros [data H]. rewrite addCRC_eq in H. injection H as <-.
    rewrite verifyCRC_frame.
    destruct (calculateCRC16_reference data) as [_ R].
    rewrite u16_bytes by exact R. rewrite Z.eqb_refl. reflexivity.
Qed.

Lemma lxor_low_byte_self (c : Z) :
  0 <= c < 65536 -> Z.lxor c (c mod 256) = c / 256 * 2 ^ 8.
Proof.
  intros H. apply Z.bits_inj'. intros n Hn.
  change 256 with (2 ^ 8). rewrite <- Z.shiftr_div_pow2, <- Z.shiftl_mul_pow2 by lia.
  rewrite Z.lxor_spec, Z.shiftl_spec by lia.
  destruct (Z_lt_le_dec n 8) as [L|L].
  - rewrite Z.mod_pow2_bits_low by lia. rewrite xorb_nilpotent.
    rewrite Z.testbit_neg_r by lia. reflexivity.
  - rewrite Z.mod_pow2_bits_high by lia. rewrite xorb_false_r.
    rewrite Z.shiftr_spec by lia. f_equal. lia.
Qed.

Lemma crc16RefShift_even (h m : Z) :
  0 <= h -> 0 < m -> ModbusRTU.crc16RefShift (h * 2 ^ m) = h * 2 ^ (m - 1).
Proof.
  intros Hh Hm. unfold ModbusRTU.crc16RefShift.
  replace (2 ^ m) with (2 ^ (m - 1) * 2)
    by (rewrite Z.mul_comm, <- Z.pow_succ_r by lia; f_equal; lia).
  rewrite Z.mul_assoc.
  rewrite Z.odd_mul, andb_false_r. apply Z.div_mul. lia.
Qed.

Lemma crc16RefShift_iter_even (k : nat) (h : Z) :
  0 <= h -> (k <= 8)%nat ->
  Nat.iter k ModbusRTU.crc16RefShift (h * 2 ^ 8) = h * 2 ^ (8 - Z.of_nat k).
Proof.
  intros Hh. induction k as [|k IH]; intros Hk.
  - reflexivity.
  - rewrite Nat.iter_succ, IH by lia. rewrite crc16RefShift_even by lia.
    do 2 f_equal. lia.
Qed.

Lemma crc16RefByte_low (c : Z) :
  0 <= c < 65536 -> ModbusRTU.crc16RefByte c (c mod 256) = c / 256.
Proof.
  intros H. unfold ModbusRTU.crc16RefByte.
  rewrite xor_low_byte by (pose proof (Z.mod_pos_bound c 256); lia).
  rewrite lxor_low_byte_self by exact H.
  rewrite (crc16RefShift_iter_even 8) by (try apply Z.div_pos; lia).
  change (2 ^ (8 - Z.of_nat 8)) with 1. lia.
Qed.

Lemma crc16RefByte_same (h : Z) :
  0 <= h < 256 -> ModbusRTU.crc16RefByte h h = 0.
Proof.
  intros H. unfold ModbusRTU.crc16RefByte.
  rewrite xor_low_byte by lia. rewrite Z.lxor_nilpotent.
  change 0 with (0 * 2 ^ 8) at 1.
  rewrite (crc16RefShift_iter_even 8) by lia. reflexivity.
Qed.

(** X3. The checksum of a whole frame made by addCRC, trailer included,
    is zero. *)
Theorem calculateCRC16_of_frame (data frame : Buffer) :
  ModbusRTU.addCRC data = Ok frame -> ModbusRTU.calculateCRC16 frame = 0.
Proof.
  intros H. rewrite addCRC_eq in H. injection H as <-.
  destruct (calculateCRC16_reference data) as [Ed R].
  destruct (calculateCRC16_reference
              (data ++ [wrap8 (ModbusRTU.calculateCRC16 data);
                        wrap8 (ModbusRTU.calculateCRC16 data / 256)])) as [E _].
  rewrite E. unfold ModbusRTU.crc16Reference in *.
  rewrite map_app, fold_left_app, <- Ed.
  generalize dependent (ModbusRTU.calculateCRC16 data). intros c _ R _.
  cbn [map fold_left]. rewrite !u8_wrap8.
  rewrite crc16RefByte_low by exact R.
  assert (Hh : 0 <= c / 256 < 256)
    by (split; [apply Z.div_pos; lia|apply Z.div_lt_upper_bound; lia]).
  rewrite (Z.mod_small (c / 256)) by exact Hh.
  apply crc16RefByte_same. exact Hh.
Qed.

Lemma calculateCRC16_of_frame_witness :
  ModbusRTU.calculateCRC16 [x01; x03; x00; x00; x00; x02; xc4; x0b] = 0.
Proof.
  apply (calculateCRC16_of_frame [x01; x03; x00; x00; x00; x02]).
  vm_compute. reflexivity.
Defined.

(** ** More on replies *)

Lemma verifyCRC_addCRC_frame (data : Buffer) :
  ModbusRTU.verifyCRC
    (data ++ [wrap8 (ModbusRTU.calculateCRC16 data);
              wrap8 (ModbusRTU.calculateCRC16 data / 256)]) = Ok true.
Proof.
  rewrite verifyCRC_frame.
  destruct (calculateCRC16_reference data) as [_ R].
  rewrite u16_bytes by exact R. rewrite Z.eqb_refl. reflexivity.
Qed.

Lemma readClass_high_bit (fc : byte) :
  ModbusRTU.isReadClass (u8 fc) = true -> Z.testbit (u8 fc) 7 = false.
Proof.
  intros H. destruct fc; first [reflexivity | vm_compute in H; discriminate].
Qed.

Lemma high_bit_not_readClass (fc : byte) :
  Z.testbit (u8 fc) 7 = true -> ModbusRTU.isReadClass (u8 fc) = false.
Proof.
  intros H. destruct (ModbusRTU.isReadClass (u8 fc)) eqn:E; [|reflexivity].
  apply readClass_high_bit in E. congruence.
Qed.

(** X4. parseResponse returns a response exactly when the buffer has at
    least 4 bytes and passes verifyCRC; when it fails, the error is
    V2MODBUS_PACKET_TOO_SHORT or V2MODBUS_CRC_CHECK_FAILED and no other, so no
    read past the end of the buffer escapes as a range error. *)
Theorem parseResponse_succeeds_iff (buffer : Buffer) :
  ((exists r, ModbusRTU.parseResponse buffer = Ok r)
   <-> (4 <= length buffer)%nat /\ ModbusRTU.verifyCRC buffer = Ok true)
  /\ (forall e, ModbusRTU.parseResponse buffer = Err e ->
        e = V2MODBUS_PACKET_TOO_SHORT \/ e = V2MODBUS_CRC_CHECK_FAILED).
Proof.
  rewrite parseResponse_cases.
  destruct (Nat.ltb_spec (length buffer) 4) as [L|L].
  - split.
    + split; [intros [r H]; discriminate|lia].
    + intros e H. left. congruence.
  - destruct (verifyCRC_total buffer ltac:(lia)) as [valid Ev]. rewrite Ev.
    destruct (parseFields_ok buffer L) as [r Er].
    destruct valid.
    + rewrite Er. split.
      * split; [intros _; split; [exact L|reflexivity]|intros _; eauto].
      * intros e H. discriminate.
    + split.
      * split; [intros [r' H]; discriminate|intros [_ H]; discriminate].
      * intros e H. right. congruence.
Qed.

Lemma parseResponse_succeeds_iff_witness :
  ModbusRTU.parseResponse [x01; x03] = Err V2MODBUS_PACKET_TOO_SHORT
  /\ (V2MODBUS_PACKET_TOO_SHORT = V2MODBUS_PACKET_TOO_SHORT
      \/ V2MODBUS_PACKET_TOO_SHORT = V2MODBUS_CRC_CHECK_FAILED).
Proof.
  split; [reflexivity|].
  exact (proj2 (parseResponse_succeeds_iff [x01; x03]) _ eq_refl).
Defined.

(** X5. For a read-class function code, parseResponse undoes addCRC: the
    frame addCRC makes from slave id, function code, count byte and payload is
    parsed back into these four fields, with no exception code. *)
Theorem parseResponse_read_reply (s fc n : byte) (payload : Buffer) :
  ModbusRTU.isReadClass (u8 fc) = true ->
  exists lo hi : byte,
    ModbusRTU.addCRC (s :: fc :: n :: payload)
    = Ok (s :: fc :: n :: payload ++ [lo; hi])
    /\ ModbusRTU.parseResponse (s :: fc :: n :: payload ++ [lo; hi])
       = Ok {| slaveId := u8 s; functionCode := u8 fc; byteCount := u8 n;
               data := payload; exceptionCode := None |}.
Proof.
  intros Hc. eexists _, _. split; [apply (addCRC_eq (s :: fc :: n :: payload))|].
  change (s :: fc :: n :: payload ++ ?t) with ((s :: fc :: n :: payload) ++ t).
  rewrite parseResponse_valid;
    [|rewrite length_app; simpl; lia|apply verifyCRC_addCRC_frame].
  set (lo := wrap8 _). set (hi := wrap8 _).
  unfold ModbusRTU.parseFields, Buf.readUInt8. cbn [app nth_error bind].
  rewrite exception_bit, (readClass_high_bit fc Hc), Hc. cbn [negb].
  unfold Buf.subarray. do 2 f_equal.
  change (s :: fc :: n :: payload ++ [lo; hi])
    with ((s :: fc :: n :: payload) ++ [lo; hi]).
  rewrite length_app. cbn [length].
  replace (S (S (S (length payload))) + 2 - 2)%nat
    with (length (s :: fc :: n :: payload)) by (simpl; lia).
  rewrite firstn_app, firstn_all, Nat.sub_diag. cbn [firstn skipn].
  apply app_nil_r.
Qed.

Lemma parseResponse_read_reply_witness :
  exists lo hi : byte,
    ModbusRTU.addCRC [x01; x02; x01; x2d] = Ok ([x01; x02; x01; x2d] ++ [lo; hi])
    /\ ModbusRTU.parseResponse ([x01; x02; x01; x2d] ++ [lo; hi])
       = Ok {| slaveId := 1; functionCode := 2; byteCount := 1;
               data := [x2d]; exceptionCode := None |}.
Proof.
  exact (parseResponse_read_reply x01 x02 x01 [x2d] eq_refl).
Defined.

(** X6. A read-class reply that carries 1 to 255 payload bytes and
    declares that many is a complete packet, and none of its proper prefixes
    is: while such a reply arrives the check stays false until the last byte
    is in. *)
Theorem isCompletePacket_read_reply (s fc c1 c2 : byte) (payload : Buffer) :
  ModbusRTU.isReadClass (u8 fc) = true ->
  (1 <= length payload <= 255)%nat ->
  ModbusRTU.isCompletePacket
    (s :: fc :: wrap8 (Z.of_nat (length payload)) :: payload ++ [c1; c2])
  = Ok true
  /\ forall k : nat,
       (k < length (s :: fc :: wrap8 (Z.of_nat (length payload))
                      :: payload ++ [c1; c2]))%nat ->
       ModbusRTU.isCompletePacket
         (firstn k (s :: fc :: wrap8 (Z.of_nat (length payload))
                      :: payload ++ [c1; c2]))
       = Ok false.
Proof.
  intros Hc Hn.
  assert (Hd : u8 (wrap8 (Z.of_nat (length payload))) = Z.of_nat (length payload))
    by (rewrite u8_wrap8; apply Z.mod_small; lia).
  set (n := wrap8 (Z.of_nat (length payload))) in *.
  assert (Hlen : length (s :: fc :: n :: payload ++ [c1; c2])
                 = (length payload + 5)%nat)
    by (cbn [length]; rewrite length_app; simpl; lia).
  split.
  - unfold ModbusRTU.isCompletePacket. rewrite Hlen.
    replace (length payload + 5 <? 4)%nat with false
      by (symmetry; apply Nat.ltb_ge; lia).
    replace (5 <? length payload + 5)%nat with true
      by (symmetry; apply Nat.ltb_lt; lia).
    unfold Buf.readUInt8. cbn [nth_error bind]. rewrite Hc. cbn [bind].
    rewrite Hd. f_equal. apply Z.eqb_eq. lia.
  - intros k Hk. rewrite Hlen in Hk.
    unfold ModbusRTU.isCompletePacket.
    rewrite length_firstn, Hlen, Nat.min_l by lia.
    destruct (Nat.ltb_spec k 4) as [L|L]; [reflexivity|].
    do 4 (destruct k as [|k]; [lia|]).
    unfold Buf.readUInt8. cbn [firstn nth_error bind]. rewrite Hc.
    destruct (Nat.ltb_spec 5 (S (S (S (S k))))) as [L5|L5].
    + cbn [bind]. rewrite Hd. f_equal. apply Z.eqb_neq. lia.
    + f_equal. apply Nat.eqb_neq. lia.
Qed.

Lemma isCompletePacket_read_reply_witness :
  ModbusRTU.isCompletePacket [x01; x02; x01; x2d; x20; x55] = Ok true
  /\ ModbusRTU.isCompletePacket [x01; x02; x01; x2d; x20] = Ok false.
Proof.
  destruct (isCompletePacket_read_reply x01 x02 x20 x55 [x2d] eq_refl)
    as [Hfull Hpre]; [simpl; lia|].
  split; [exact Hfull|]. apply (Hpre 5%nat). simpl. lia.
Defined.

(** X7. An exception reply (bit 7 of the function code set, one code
    byte, checksum) is parsed by parseResponse, with the bit stripped and the
    exception code reported, but isCompletePacket returns false on it: its 5
    bytes are not the 8 that the check expects of a code outside the read
    class. *)
Theorem exception_reply_never_complete (s fc code : byte) :
  Z.testbit (u8 fc) 7 = true ->
  exists lo hi : byte,
    ModbusRTU.addCRC [s; fc; code] = Ok [s; fc; code; lo; hi]
    /\ ModbusRTU.parseResponse [s; fc; code; lo; hi]
       = Ok {| slaveId := u8 s; functionCode := Z.clearbit (u8 fc) 7;
               byteCount := 0; data := [];
               exceptionCode := Some (u8 code) |}
    /\ ModbusRTU.isCompletePacket [s; fc; code; lo; hi] = Ok false.
Proof.
  intros Hbit. eexists _, _. split; [apply (addCRC_eq [s; fc; code])|].
  split.
  - change [s; fc; code; ?lo; ?hi] with ([s; fc; code] ++ [lo; hi]).
    rewrite parseResponse_valid;
      [|simpl; lia|apply verifyCRC_addCRC_frame].
    unfold ModbusRTU.parseFields, Buf.readUInt8. cbn [app nth_error bind].
    rewrite exception_bit, Hbit, exception_strip. reflexivity.
  - unfold ModbusRTU.isCompletePacket, Buf.readUInt8.
    cbn [length Nat.ltb Nat.leb nth_error bind].
    rewrite (high_bit_not_readClass fc Hbit). reflexivity.
Qed.

Lemma exception_reply_never_complete_witness :
  exists lo hi : byte,
    ModbusRTU.addCRC [x01; x83; x02] = Ok [x01; x83; x02; lo; hi]
    /\ ModbusRTU.parseResponse [x01; x83; x02; lo; hi]
       = Ok {| slaveId := 1; functionCode := 3; byteCount := 0; data := [];
               exceptionCode := Some 2 |}
    /\ ModbusRTU.isCompletePacket [x01; x83; x02; lo; hi] = Ok false.
Proof.
  exact (exception_reply_never_complete x01 x83 x02 eq_refl).
Defined.

(** ** More on requests *)

(** The six bytes before the CRC of a request without a payload. *)
Lemma makeRequest_fixed (slaveId functionCode address quantity : Z)
  (writeData : writeArg) :
  functionCode = 0x01 \/ functionCode = 0x02 \/ functionCode = 0x03
  \/ functionCode = 0x04 \/ functionCode = 0x06 ->
  0 <= quantity <= 65535 ->
  ModbusRTU.makeRequest slaveId functionCode address quantity writeData
  = ModbusRTU.addCRC
      [wrap8 slaveId; wrap8 functionCode;
       wrap8 (address mod 65536 / 256); wrap8 (address mod 65536);
       wrap8 (quantity / 256); wrap8 quantity].
Proof.
  intros Hfc Hq.
  assert (Hs : 0 <= slaveId mod 256 <= 255)
    by (pose proof (Z.mod_pos_bound slaveId 256); lia).
  assert (Ha : 0 <= address mod 65536 <= 65535)
    by (pose proof (Z.mod_pos_bound address 65536); lia).
  unfold ModbusRTU.makeRequest. rewrite and_0xFF, and_0xFFFF.
  destruct Hfc as [->|[->|[->|[->| ->]]]]; cbn [Z.eqb Pos.eqb orb];
    change (Buf.alloc 6) with [x00; x00; x00; x00; x00; x00];
    rewrite (writeUInt16BE_ok _ quantity) by (cbn [length]; lia);
    cbn [bind Buf.set];
    rewrite writeUInt8_ok by (cbn [length]; lia); cbn [bind Buf.set];
    rewrite writeUInt8_ok by (cbn [length]; lia); cbn [bind Buf.set];
    rewrite writeUInt16BE_ok by (cbn [length]; lia); cbn [bind Buf.set];
    rewrite wrap8_mod; reflexivity.
Qed.

Lemma writeUInt16BE_range (buf : Buffer) (value : Z) (off : nat) :
  ~ 0 <= value <= 65535 -> Buf.writeUInt16BE buf value off = Err RangeError.
Proof.
  intros H. unfold Buf.writeUInt16BE.
  destruct (Z.leb_spec 0 value); [|reflexivity].
  destruct (Z.leb_spec value 65535); [lia|reflexivity].
Qed.

Lemma makeRequest_fixed_range (slaveId functionCode address quantity : Z)
  (writeData : writeArg) :
  functionCode = 0x01 \/ functionCode = 0x02 \/ functionCode = 0x03
  \/ functionCode = 0x04 \/ functionCode = 0x06 ->
  ~ 0 <= quantity <= 65535 ->
  ModbusRTU.makeRequest slaveId functionCode address quantity writeData
  = Err RangeError.
Proof.
  intros Hfc Hq. unfold ModbusRTU.makeRequest.
  destruct Hfc as [->|[->|[->|[->| ->]]]]; cbn [Z.eqb Pos.eqb orb];
    rewrite writeUInt16BE_range by exact Hq; reflexivity.
Qed.

Lemma makeRequest_single_coil (slaveId address quantity : Z)
  (writeData : writeArg) :
  ModbusRTU.makeRequest slaveId 0x05 address quantity writeData
  = ModbusRTU.addCRC
      [wrap8 slaveId; x05;
       wrap8 (address mod 65536 / 256); wrap8 (address mod 65536);
       (if quantity =? 0 then x00 else xff); x00].
Proof.
  assert (Hs : 0 <= slaveId mod 256 <= 255)
    by (pose proof (Z.mod_pos_bound slaveId 256); lia).
  assert (Ha : 0 <= address mod 65536 <= 65535)
    by (pose proof (Z.mod_pos_bound address 65536); lia).
  unfold ModbusRTU.makeRequest. rewrite and_0xFF, and_0xFFFF.
  cbn [Z.eqb Pos.eqb orb].
  change (Buf.alloc 6) with [x00; x00; x00; x00; x00; x00].
  unfold JS.truthy.
  rewrite writeUInt16BE_ok
    by (try (cbn [length]; lia); destruct (quantity =? 0); cbn [negb]; lia).
  cbn [bind Buf.set].
  rewrite writeUInt8_ok by (cbn [length]; lia). cbn [bind Buf.set].
  rewrite writeUInt8_ok by (cbn [length]; lia). cbn [bind Buf.set].
  rewrite writeUInt16BE_ok by (cbn [length]; lia). cbn [bind Buf.set].
  rewrite wrap8_mod. destruct (quantity =? 0); reflexivity.
Qed.

Lemma makeRequest_unsupported (slaveId functionCode address quantity : Z)
  (writeData : writeArg) :
  ~ In functionCode [0x01; 0x02; 0x03; 0x04; 0x05; 0x06; 0x0F; 0x10] ->
  ModbusRTU.makeRequest slaveId functionCode address quantity writeData
  = Err V2MODBUS_UNSUPPORTED_FUNCTION_CODE.
Proof.
  intros H. unfold ModbusRTU.makeRequest.
  repeat match goal with
         | |- context [functionCode =? ?c] =>
             destruct (Z.eqb_spec functionCode c) as [E|_];
             [exfalso; apply H; rewrite E; simpl; tauto|]
         end.
  reflexivity.
Qed.

(** The two bytes of the payload that element [i] of the array decides:
    the value modulo 65536, high byte first, for a number; zero, as
    allocated, for anything else. *)
Lemma packRegisters_S (writeData : list jsValue) (n : nat) (buffer : Buffer) :
  ModbusRTU.packRegisters writeData (S n) buffer
  = (buffer' <- ModbusRTU.packRegisters writeData n buffer ;;
     match element writeData n with
     | Number value =>
         Buf.writeUInt16BE buffer' (JS.and value 0xFFFF) (7 + n * 2)
     | NotNumber _ => Ok buffer'
     end).
Proof. reflexivity. Qed.

Lemma packRegisters_bytes (writeData : list jsValue) (hdr : Buffer)
  (count n : nat) :
  length hdr = 7%nat -> (n <= count)%nat ->
  exists payload,
    ModbusRTU.packRegisters writeData n (hdr ++ repeat x00 (count * 2))
    = Ok (hdr ++ payload)
    /\ length payload = (count * 2)%nat
    /\ (forall j : nat, (2 * n <= j)%nat -> nth j payload x00 = x00)
    /\ forall i : nat, (i < n)%nat ->
         match element writeData i with
         | Number value =>
             nth (2 * i) payload x00 = wrap8 (value mod 65536 / 256)
             /\ nth (2 * i + 1) payload x00 = wrap8 (value mod 65536)
         | NotNumber _ =>
             nth (2 * i) payload x00 = x00 /\ nth (2 * i + 1) payload x00 = x00
         end.
Proof.
  intros Hh. induction n as [|n IH]; intros Hn.
  - exists (repeat x00 (count * 2)). split; [reflexivity|].
    split; [apply repeat_length|]. split; [|intros i Hi; lia].
    intros j _. apply nth_repeat.
  - destruct (IH ltac:(lia)) as (payload & E & Hl & Hz & Hb).
    rewrite packRegisters_S, E. cbn [bind].
    destruct (element writeData n) as [value|t] eqn:En.
    + rewrite and_0xFFFF.
      rewrite writeUInt16BE_ok;
        [|pose proof (Z.mod_pos_bound value 65536); lia
         |rewrite length_app, Hh, Hl; lia].
      replace (S (7 + n * 2)) with (length hdr + (n * 2 + 1))%nat by lia.
      replace (7 + n * 2)%nat with (length hdr + n * 2)%nat by lia.
      rewrite !set_app_r.
      eexists. split; [reflexivity|].
      split; [rewrite !length_set; exact Hl|]. split.
      * intros j Hj.
        destruct (Nat.lt_ge_cases j (length payload)) as [Hjl|Hjl];
          [|apply nth_overflow; rewrite !length_set; exact Hjl].
        rewrite !nth_set by (rewrite ?length_set; lia).
        replace (j =? n * 2 + 1)%nat with false
          by (symmetry; apply Nat.eqb_neq; lia).
        replace (j =? n * 2)%nat with false
          by (symmetry; apply Nat.eqb_neq; lia).
        apply Hz. lia.
      * intros i Hi.
        rewrite !nth_set by (rewrite ?length_set; lia).
        destruct (Nat.eq_dec i n) as [->|Hne].
        -- rewrite En.
           replace (2 * n =? n * 2 + 1)%nat with false
             by (symmetry; apply Nat.eqb_neq; lia).
           replace (2 * n =? n * 2)%nat with true
             by (symmetry; apply Nat.eqb_eq; lia).
           replace (2 * n + 1 =? n * 2 + 1)%nat with true
             by (symmetry; apply Nat.eqb_eq; lia).
           split; reflexivity.
        -- replace (2 * i =? n * 2 + 1)%nat with false
             by (symmetry; apply Nat.eqb_neq; lia).
           replace (2 * i =? n * 2)%nat with false
             by (symmetry; apply Nat.eqb_neq; lia).
           replace (2 * i + 1 =? n * 2 + 1)%nat with false
             by (symmetry; apply Nat.eqb_neq; lia).
           replace (2 * i + 1 =? n * 2)%nat with false
             by (symmetry; apply Nat.eqb_neq; lia).
           apply Hb. lia.
    + exists payload. split; [reflexivity|]. split; [exact Hl|]. split.
      * intros j Hj. apply Hz. lia.
      * intros i Hi. destruct (Nat.eq_dec i n) as [->|Hne].
        -- rewrite En. split; apply Hz; lia.
        -- apply Hb. lia.
Qed.

Lemma makeRequest_registers_count (slaveId address quantity : Z)
  (values : list jsValue) :
  ~ (1 <= length values <= 123)%nat ->
  ModbusRTU.makeRequest slaveId 0x10 address quantity (Array values)
  = Err V2MODBUS_REGISTERS_COUNT_INVALID.
Proof.
  intros Hn. unfold ModbusRTU.makeRequest. cbn [Z.eqb Pos.eqb orb].
  replace ((length values <? 1)%nat || (123 <? length values)%nat) with true.
  - reflexivity.
  - symmetry. apply orb_true_iff.
    destruct (Nat.ltb_spec (length values) 1); [left; reflexivity|].
    right. apply Nat.ltb_lt. lia.
Qed.

Lemma makeRequest_registers (slaveId address quantity : Z)
  (values : list jsValue) :
  (1 <= length values <= 123)%nat ->
  exists payload : Buffer,
    ModbusRTU.makeRequest slaveId 0x10 address quantity (Array values)
    = ModbusRTU.addCRC
        ([wrap8 slaveId; x10;
          wrap8 (address mod 65536 / 256); wrap8 (address mod 65536);
          wrap8 (Z.of_nat (length values) / 256); wrap8 (Z.of_nat (length values));
          wrap8 (Z.of_nat (length payload))] ++ payload)
    /\ length payload = (length values * 2)%nat
    /\ forall i : nat, (i < length values)%nat ->
         match element values i with
         | Number value =>
             nth (2 * i) payload x00 = wrap8 (value mod 65536 / 256)
             /\ nth (2 * i + 1) payload x00 = wrap8 (value mod 65536)
         | NotNumber _ =>
             nth (2 * i) payload x00 = x00 /\ nth (2 * i + 1) payload x00 = x00
         end.
Proof.
  intros Hn. unfold ModbusRTU.makeRequest.
  cbn [Z.eqb Pos.eqb orb].
  replace ((length values <? 1)%nat || (123 <? length values)%nat) with false.
  2:{ symmetry. apply orb_false_iff. split; apply Nat.ltb_ge; lia. }
  destruct (packRegisters_bytes values
              [x00; x00; x00; x00; wrap8 (Z.of_nat (length values) / 256);
               wrap8 (Z.of_nat (length values));
               wrap8 (Z.of_nat (length values * 2))]
              (length values) (length values) eq_refl (Nat.le_refl _))
    as (payload & E & Hl & _ & Hb).
  exists payload.
  change (Buf.alloc (7 + length values * 2))
    with (x00 :: x00 :: x00 :: x00 :: x00 :: x00 :: x00
              :: repeat x00 (length values * 2)).
  rewrite writeUInt16BE_ok; [|lia|cbn [length]; lia].
  cbn [bind Buf.set].
  rewrite writeUInt8_ok; [|lia|cbn [length]; lia].
  cbn [bind Buf.set].
  change (?a :: ?b :: ?c :: ?d :: ?e :: ?f :: ?g :: repeat x00 (length values * 2))
    with ([a; b; c; d; e; f; g] ++ repeat x00 (length values * 2)).
  rewrite E. cbn [app bind].
  rewrite and_0xFF, and_0xFFFF.
  rewrite writeUInt8_ok;
    [|pose proof (Z.mod_pos_bound slaveId 256); lia|cbn [length]; lia].
  cbn [bind Buf.set].
  rewrite writeUInt8_ok; [|lia|cbn [length]; lia].
  cbn [bind Buf.set].
  rewrite writeUInt16BE_ok;
    [|pose proof (Z.mod_pos_bound address 65536); lia|cbn [length]; lia].
  cbn [bind Buf.set].
  rewrite wrap8_mod, Hl.
  split; [reflexivity|]. split; [reflexivity|exact Hb].
Qed.

(** X8. For the function codes 1, 2, 3, 4 and 6 with a quantity from 0
    to 65535, makeRequest ignores writeData and returns the 8-byte frame:
    slave id, function code, address and quantity big-endian, and the checksum
    of these 6 bytes low byte first. *)
Theorem makeRequest_without_payload (slaveId functionCode address quantity : Z)
  (writeData : writeArg) :
  functionCode = 0x01 \/ functionCode = 0x02 \/ functionCode = 0x03
  \/ functionCode = 0x04 \/ functionCode = 0x06 ->
  0 <= quantity <= 65535 ->
  exists lo hi : byte,
    ModbusRTU.makeRequest slaveId functionCode address quantity writeData
    = Ok [wrap8 slaveId; wrap8 functionCode;
          wrap8 (address mod 65536 / 256); wrap8 (address mod 65536);
          wrap8 (quantity / 256); wrap8 quantity; lo; hi]
    /\ u8 lo + 256 * u8 hi
       = ModbusRTU.calculateCRC16
           [wrap8 slaveId; wrap8 functionCode;
            wrap8 (address mod 65536 / 256); wrap8 (address mod 65536);
            wrap8 (quantity / 256); wrap8 quantity].
Proof.
  intros Hfc Hq. rewrite makeRequest_fixed, addCRC_eq by assumption.
  cbn [app]. eexists _, _. split; [reflexivity|].
  apply u16_bytes. apply calculateCRC16_reference.
Qed.

Lemma makeRequest_without_payload_witness :
  exists lo hi : byte,
    ModbusRTU.makeRequest 1 0x03 0x0064 3 Absent
    = Ok [x01; x03; x00; x64; x00; x03; lo; hi]
    /\ u8 lo + 256 * u8 hi
       = ModbusRTU.calculateCRC16 [x01; x03; x00; x64; x00; x03].
Proof.
  apply (makeRequest_without_payload 1 0x03 0x0064 3 Absent); [tauto|lia].
Defined.

(** X9. For the function codes 1, 2, 3, 4 and 6, makeRequest fails with
    the range error of writeUInt16BE exactly when the quantity is outside 0 to
    65535: the quantity is the one field that is written without a mask. *)
Theorem makeRequest_quantity_range (slaveId functionCode address quantity : Z)
  (writeData : writeArg) :
  functionCode = 0x01 \/ functionCode = 0x02 \/ functionCode = 0x03
  \/ functionCode = 0x04 \/ functionCode = 0x06 ->
  (ModbusRTU.makeRequest slaveId functionCode address quantity writeData
   = Err RangeError
   <-> ~ 0 <= quantity <= 65535).
Proof.
  intros Hfc. split.
  - intros H Hq. rewrite makeRequest_fixed, addCRC_eq in H by assumption.
    discriminate.
  - apply makeRequest_fixed_range. exact Hfc.
Qed.

Lemma makeRequest_quantity_range_witness :
  ModbusRTU.makeRequest 1 0x03 0 65536 Absent = Err RangeError.
Proof.
  apply (makeRequest_quantity_range 1 0x03 0 65536 Absent); [tauto|lia].
Defined.

(** X10. For function code 5 makeRequest never fails, whatever the
    quantity and writeData: the value field is FF 00 for a quantity other
    than 0 and 00 00 for 0; createWriteSingleCoilRequest sends FF 00 for true
    and 00 00 for false. *)
Theorem makeRequest_writeSingleCoil (slaveId address : Z) :
  (forall (quantity : Z) (writeData : writeArg),
      exists lo hi : byte,
        ModbusRTU.makeRequest slaveId 0x05 address quantity writeData
        = Ok [wrap8 slaveId; x05;
              wrap8 (address mod 65536 / 256); wrap8 (address mod 65536);
              (if quantity =? 0 then x00 else xff); x00; lo; hi])
  /\ (forall value : bool,
         exists lo hi : byte,
           ModbusRTU.createWriteSingleCoilRequest slaveId address value
           = Ok [wrap8 slaveId; x05;
                 wrap8 (address mod 65536 / 256); wrap8 (address mod 65536);
                 (if value then xff else x00); x00; lo; hi]).
Proof.
  split.
  - intros quantity writeData. rewrite makeRequest_single_coil, addCRC_eq.
    cbn [app]. eexists _, _. reflexivity.
  - intros value. unfold ModbusRTU.createWriteSingleCoilRequest.
    rewrite makeRequest_single_coil, addCRC_eq. cbn [app].
    destruct value; eexists _, _; reflexivity.
Qed.

(** X11. For function code 0x10, makeRequest fails with
    WriteDataRequiredRegisters exactly when writeData is absent or not an
    array, and with RegistersCountInvalid exactly when the array has fewer
    than 1 or more than 123 elements; otherwise the quantity field is the
    number of elements whatever the quantity argument, the byte count is
    twice that, and payload bytes 2i and 2i+1 hold element i modulo 65536,
    high byte first, when it is a number, and stay zero when it is not (the
    loop skips it). *)
Theorem makeRequest_writeMultipleRegisters :
  (forall (slaveId address quantity : Z) (writeData : writeArg),
      ModbusRTU.makeRequest slaveId 0x10 address quantity writeData
      = Err V2MODBUS_WRITE_DATA_REQUIRED_REGISTERS
      <-> writeData = Absent \/ writeData = NotArray)
  /\ (forall (slaveId address quantity : Z) (items : list jsValue),
         ModbusRTU.makeRequest slaveId 0x10 address quantity (Array items)
         = Err V2MODBUS_REGISTERS_COUNT_INVALID
         <-> (length items < 1 \/ 123 < length items)%nat)
  /\ (forall (slaveId address quantity : Z) (items : list jsValue),
         (1 <= length items <= 123)%nat ->
         exists (payload : Buffer) (lo hi : byte),
           ModbusRTU.makeRequest slaveId 0x10 address quantity (Array items)
           = Ok ([wrap8 slaveId; x10;
                  wrap8 (address mod 65536 / 256); wrap8 (address mod 65536);
                  wrap8 (Z.of_nat (length items) / 256);
                  wrap8 (Z.of_nat (length items));
                  wrap8 (Z.of_nat (length payload))] ++ payload ++ [lo; hi])
           /\ length payload = (2 * length items)%nat
           /\ forall i : nat, (i < length items)%nat ->
                match element items i with
                | Number value =>
                    nth (2 * i) payload x00 = wrap8 (value mod 65536 / 256)
                    /\ nth (2 * i + 1) payload x00 = wrap8 (value mod 65536)
                | NotNumber _ =>
                    nth (2 * i) payload x00 = x00
                    /\ nth (2 * i + 1) payload x00 = x00
                end).
Proof.
  assert (Hvalid : forall slaveId address quantity items,
             (1 <= length items <= 123)%nat ->
             exists frame,
               ModbusRTU.makeRequest slaveId 0x10 address quantity (Array items)
               = Ok frame).
  { intros slaveId address quantity items Hn.
    destruct (makeRequest_registers slaveId address quantity items Hn)
      as (payload & E & _).
    rewrite E, addCRC_eq. eauto. }
  split; [|split].
  - intros slaveId address quantity [| |items].
    + split; [auto|reflexivity].
    + split; [auto|reflexivity].
    + split; [|intros [H|H]; discriminate].
      intros H. exfalso.
      destruct (Nat.le_gt_cases 1 (length items)) as [L1|L1];
        [destruct (Nat.le_gt_cases (length items) 123) as [L2|L2]|].
      * destruct (Hvalid slaveId address quantity items (conj L1 L2)) as [f E].
        congruence.
      * rewrite makeRequest_registers_count in H by lia. discriminate.
      * rewrite makeRequest_registers_count in H by lia. discriminate.
  - intros slaveId address quantity items. split.
    + intros H.
      destruct (Nat.le_gt_cases 1 (length items)) as [L1|L1]; [|lia].
      destruct (Nat.le_gt_cases (length items) 123) as [L2|L2]; [|lia].
      destruct (Hvalid slaveId address quantity items (conj L1 L2)) as [f E].
      congruence.
    + intros H. apply makeRequest_registers_count. lia.
  - intros slaveId address quantity items Hn.
    destruct (makeRequest_registers slaveId address quantity items Hn)
      as (payload & E & Hl & Hb).
    exists payload. eexists _, _. rewrite E, addCRC_eq.
    split; [rewrite <- app_assoc; reflexivity|]. split; [lia|exact Hb].
Qed.

Lemma makeRequest_writeMultipleRegisters_witness :
  exists (payload : Buffer) (lo hi : byte),
    ModbusRTU.makeRequest 1 0x10 0x0200 0
      (Array [Number 0x1234; NotNumber true; Number 0x9ABC])
    = Ok ([x01; x10; x02; x00; x00; x03; x06] ++ payload ++ [lo; hi])
    /\ length payload = 6%nat
    /\ (nth 2 payload x00 = x00 /\ nth 3 payload x00 = x00)
    /\ (nth 4 payload x00 = x9a /\ nth 5 payload x00 = xbc).
Proof.
  destruct (proj2 (proj2 makeRequest_writeMultipleRegisters)
              1 0x0200 0 [Number 0x1234; NotNumber true; Number 0x9ABC])
    as (payload & lo & hi & E & Hl & Hb); [simpl; lia|].
  assert (Hp : length payload = 6%nat) by (simpl in Hl; lia).
  rewrite Hp in E. exists payload, lo, hi.
  split; [exact E|]. split; [exact Hp|]. split.
  - exact (Hb 1%nat ltac:(simpl; lia)).
  - exact (Hb 2%nat ltac:(simpl; lia)).
Defined.

(** What [makeRequest] returns, function code by function code. *)
Lemma makeRequest_result (slaveId functionCode address quantity : Z)
  (writeData : writeArg) :
  In functionCode [0x01; 0x02; 0x03; 0x04; 0x05; 0x06; 0x0F; 0x10] ->
  (exists e, ModbusRTU.makeRequest slaveId functionCode address quantity writeData
             = Err e
             /\ e <> V2MODBUS_UNSUPPORTED_FUNCTION_CODE)
  \/ (exists b4 b5 rest,
         ModbusRTU.makeRequest slaveId functionCode address quantity writeData
         = ModbusRTU.addCRC
             (wrap8 slaveId :: wrap8 functionCode
              :: wrap8 (address mod 65536 / 256) :: wrap8 (address mod 65536)
              :: b4 :: b5 :: rest)).
Proof.
  intros Hfc.
  assert (Hcases : (functionCode = 0x01 \/ functionCode = 0x02
                    \/ functionCode = 0x03 \/ functionCode = 0x04
                    \/ functionCode = 0x06)
                   \/ functionCode = 0x05 \/ functionCode = 0x0F
                   \/ functionCode = 0x10) by (simpl in Hfc; intuition auto).
  clear Hfc. destruct Hcases as [Hfix|[->|[->| ->]]].
  - destruct (Z_le_dec 0 quantity) as [L|L];
      [destruct (Z_le_dec quantity 65535) as [U|U]|].
    + right. rewrite makeRequest_fixed by (try assumption; lia). eauto.
    + left. exists RangeError.
      rewrite makeRequest_fixed_range by (try assumption; lia).
      split; [reflexivity|discriminate].
    + left. exists RangeError.
      rewrite makeRequest_fixed_range by (try assumption; lia).
      split; [reflexivity|discriminate].
  - right. rewrite makeRequest_single_coil. eauto.
  - destruct writeData as [| |values].
    + left. eexists. split; [reflexivity|discriminate].
    + left. eexists. split; [reflexivity|discriminate].
    + destruct (Nat.le_gt_cases 1 (length values)) as [L1|L1];
        [destruct (Nat.le_gt_cases (length values) 1968) as [L2|L2]|].
      * right.
        destruct (makeRequest_coils slaveId address quantity values (conj L1 L2))
          as (payload & E & _).
        rewrite E. cbn [app]. eauto.
      * left. rewrite makeRequest_coils_count by lia.
        eexists. split; [reflexivity|discriminate].
      * left. rewrite makeRequest_coils_count by lia.
        eexists. split; [reflexivity|discriminate].
  - destruct writeData as [| |values].
    + left. eexists. split; [reflexivity|discriminate].
    + left. eexists. split; [reflexivity|discriminate].
    + destruct (Nat.le_gt_cases 1 (length values)) as [L1|L1];
        [destruct (Nat.le_gt_cases (length values) 123) as [L2|L2]|].
      * right.
        destruct (makeRequest_registers slaveId address quantity values
                    (conj L1 L2)) as (payload & E & _).
        rewrite E. cbn [app]. eauto.
      * left. rewrite makeRequest_registers_count by lia.
        eexists. split; [reflexivity|discriminate].
      * left. rewrite makeRequest_registers_count by lia.
        eexists. split; [reflexivity|discriminate].
Qed.

Lemma supported_dec (functionCode : Z) :
  {In functionCode [0x01; 0x02; 0x03; 0x04; 0x05; 0x06; 0x0F; 0x10]}
  + {~ In functionCode [0x01; 0x02; 0x03; 0x04; 0x05; 0x06; 0x0F; 0x10]}.
Proof. apply in_dec. apply Z.eq_dec. Qed.

(** X12. makeRequest fails with V2MODBUS_UNSUPPORTED_FUNCTION_CODE exactly
    for the function codes other than 1, 2, 3, 4, 5, 6, 0x0F and 0x10. *)
Theorem makeRequest_unsupported_iff (slaveId functionCode address quantity : Z)
  (writeData : writeArg) :
  ModbusRTU.makeRequest slaveId functionCode address quantity writeData
  = Err V2MODBUS_UNSUPPORTED_FUNCTION_CODE
  <-> ~ In functionCode [0x01; 0x02; 0x03; 0x04; 0x05; 0x06; 0x0F; 0x10].
Proof.
  split.
  - intros H Hfc.
    destruct (makeRequest_result slaveId functionCode address quantity
                writeData Hfc) as [(e & E & Hne)|(b4 & b5 & rest & E)].
    + congruence.
    + rewrite E, addCRC_eq in H. discriminate.
  - apply makeRequest_unsupported.
Qed.

(** X13. Every frame makeRequest returns passes verifyCRC, has at least 8
    bytes, starts with the slave id, the function code and the address
    big-endian (each reduced to its width), and its function code is one of
    the eight supported ones. *)
Theorem makeRequest_frame_wellformed
  (slaveId functionCode address quantity : Z) (writeData : writeArg)
  (frame : Buffer) :
  ModbusRTU.makeRequest slaveId functionCode address quantity writeData
  = Ok frame ->
  ModbusRTU.verifyCRC frame = Ok true
  /\ (8 <= length frame)%nat
  /\ nth_error frame 0 = Some (wrap8 slaveId)
  /\ nth_error frame 1 = Some (wrap8 functionCode)
  /\ nth_error frame 2 = Some (wrap8 (address mod 65536 / 256))
  /\ nth_error frame 3 = Some (wrap8 (address mod 65536))
  /\ In functionCode [0x01; 0x02; 0x03; 0x04; 0x05; 0x06; 0x0F; 0x10].
Proof.
  intros H.
  destruct (supported_dec functionCode) as [Hfc|Hfc];
    [|rewrite makeRequest_unsupported in H by exact Hfc; discriminate].
  destruct (makeRequest_result slaveId functionCode address quantity
              writeData Hfc) as [(e & E & _)|(b4 & b5 & rest & E)];
    [congruence|].
  rewrite E, addCRC_eq in H.
  assert (Ef : frame
               = (wrap8 slaveId :: wrap8 functionCode
                  :: wrap8 (address mod 65536 / 256) :: wrap8 (address mod 65536)
                  :: b4 :: b5 :: rest)
                 ++ [wrap8 (ModbusRTU.calculateCRC16
                              (wrap8 slaveId :: wrap8 functionCode
                               :: wrap8 (address mod 65536 / 256)
                               :: wrap8 (address mod 65536) :: b4 :: b5 :: rest));
                     wrap8 (ModbusRTU.calculateCRC16
                              (wrap8 slaveId :: wrap8 functionCode
                               :: wrap8 (address mod 65536 / 256)
                               :: wrap8 (address mod 65536) :: b4 :: b5 :: rest)
                            / 256)]) by congruence.
  rewrite Ef.
  split; [apply verifyCRC_addCRC_frame|].
  split; [rewrite length_app; cbn [length]; lia|].
  repeat split. exact Hfc.
Qed.

Lemma makeRequest_frame_wellformed_witness :
  ModbusRTU.verifyCRC [x01; x01; x00; x00; x00; x08; x3d; xcc] = Ok true.
Proof.
  apply (makeRequest_frame_wellformed 1 0x01 0 8 Absent
           [x01; x01; x00; x00; x00; x08; x3d; xcc]).
  vm_compute. reflexivity.
Defined.

(** X14. makeRequest depends on the slave id only modulo 256 and on the
    address only modulo 65536: a value outside the range of its field is
    wrapped, not rejected, and gives the same result, error or frame. *)
Theorem makeRequest_masks (slaveId functionCode address quantity k j : Z)
  (writeData : writeArg) :
  ModbusRTU.makeRequest (slaveId + 256 * k) functionCode
    (address + 65536 * j) quantity writeData
  = ModbusRTU.makeRequest slaveId functionCode address quantity writeData.
Proof.
  unfold ModbusRTU.makeRequest. rewrite !and_0xFF, !and_0xFFFF.
  rewrite (Z.mul_comm 256 k), (Z.mul_comm 65536 j), !Z.mod_add by lia.
  reflexivity.
Qed.

(** A frame of eight bytes with a valid CRC whose function code is 5 or 6:
    what [parseResponse] and [isCompletePacket] make of it. *)
Lemma write_single_frame (b0 fc b2 b3 b4 b5 : byte) :
  fc = x05 \/ fc = x06 ->
  exists lo hi : byte,
    ModbusRTU.addCRC [b0; fc; b2; b3; b4; b5]
    = Ok [b0; fc; b2; b3; b4; b5; lo; hi]
    /\ ModbusRTU.isCompletePacket [b0; fc; b2; b3; b4; b5; lo; hi] = Ok true
    /\ ModbusRTU.parseResponse [b0; fc; b2; b3; b4; b5; lo; hi]
       = Ok {| slaveId := u8 b0; functionCode := u8 fc; byteCount := 4;
               data := [b2; b3; b4; b5]; exceptionCode := None |}.
Proof.
  intros Hfc. eexists _, _. split; [apply (addCRC_eq [b0; fc; b2; b3; b4; b5])|].
  split.
  - unfold ModbusRTU.isCompletePacket, Buf.readUInt8.
    cbn [length Nat.ltb Nat.leb nth_error bind].
    destruct Hfc as [-> | ->]; reflexivity.
  - change [b0; fc; b2; b3; b4; b5; ?lo; ?hi]
      with ([b0; fc; b2; b3; b4; b5] ++ [lo; hi]).
    rewrite parseResponse_valid;
      [|simpl; lia|apply verifyCRC_addCRC_frame].
    unfold ModbusRTU.parseFields, Buf.readUInt8. cbn [app nth_error bind].
    rewrite exception_bit.
    destruct Hfc as [-> | ->]; reflexivity.
Qed.

(** X15. A write-single request (function code 6 with a quantity from 0 to
    65535, or function code 5) is its own reply: the frame makeRequest returns
    is a complete packet and parseResponse reads it back as slave id modulo
    256, the function code, byte count 4 and the address and value bytes. *)
Theorem writeSingle_echo_roundtrip (slaveId address quantity : Z)
  (writeData : writeArg) :
  (0 <= quantity <= 65535 ->
   exists frame : Buffer,
     ModbusRTU.makeRequest slaveId 0x06 address quantity writeData = Ok frame
     /\ ModbusRTU.isCompletePacket frame = Ok true
     /\ ModbusRTU.parseResponse frame
        = Ok {| slaveId := slaveId mod 256; functionCode := 6; byteCount := 4;
                data := [wrap8 (address mod 65536 / 256);
                         wrap8 (address mod 65536);
                         wrap8 (quantity / 256); wrap8 quantity];
                exceptionCode := None |})
  /\ (exists frame : Buffer,
        ModbusRTU.makeRequest slaveId 0x05 address quantity writeData = Ok frame
        /\ ModbusRTU.isCompletePacket frame = Ok true
        /\ ModbusRTU.parseResponse frame
           = Ok {| slaveId := slaveId mod 256; functionCode := 5; byteCount := 4;
                   data := [wrap8 (address mod 65536 / 256);
                            wrap8 (address mod 65536);
                            (if quantity =? 0 then x00 else xff); x00];
                   exceptionCode := None |}).
Proof.
  split.
  - intros Hq. rewrite makeRequest_fixed by (try assumption; tauto).
    destruct (write_single_frame (wrap8 slaveId) x06
                (wrap8 (address mod 65536 / 256)) (wrap8 (address mod 65536))
                (wrap8 (quantity / 256)) (wrap8 quantity))
      as (lo & hi & E & Hc & Hp); [tauto|].
    change (wrap8 6) with x06. rewrite E. eexists. split; [reflexivity|].
    split; [exact Hc|]. rewrite Hp, u8_wrap8. reflexivity.
  - rewrite makeRequest_single_coil.
    destruct (write_single_frame (wrap8 slaveId) x05
                (wrap8 (address mod 65536 / 256)) (wrap8 (address mod 65536))
                (if quantity =? 0 then x00 else xff) x00)
      as (lo & hi & E & Hc & Hp); [tauto|].
    rewrite E. eexists. split; [reflexivity|].
    split; [exact Hc|]. rewrite Hp, u8_wrap8. reflexivity.
Qed.

Lemma writeSingle_echo_roundtrip_witness :
  exists frame : Buffer,
    ModbusRTU.makeRequest 1 0x06 0x0100 0x1234 Absent = Ok frame
    /\ ModbusRTU.isCompletePacket frame = Ok true
    /\ ModbusRTU.parseResponse frame
       = Ok {| slaveId := 1; functionCode := 6; byteCount := 4;
               data := [x01; x00; x12; x34]; exceptionCode := None |}.
Proof.
  apply (proj1 (writeSingle_echo_roundtrip 1 0x0100 0x1234 Absent)). lia.
Defined.

(** * More on the bus controller *)

Section Cycles.

Context {World Value Exn : Type}.

Abbreviation task := (DeviceRTU.task World Value Exn).
Abbreviation State := (DeviceRTU.State task World Value Exn).
Abbreviation QueueEntry := (DeviceRTU.QueueEntry task).

Implicit Types (s : State) (m : list (Z * QueueEntry)) (key : Z).

(** ** Enqueuing *)

Lemma Map_get_app_fresh key key' (value : QueueEntry) m :
  Forall (fun k => k < key') (Map_keys m) ->
  Map_get key (m ++ [(key', value)])
  = if key =? key' then Some value else Map_get key m.
Proof.
  unfold Map_get, Map_keys. induction m as [|[k v] m IH]; intros H.
  - cbn. rewrite (Z.eqb_sym key' key). destruct (key =? key'); reflexivity.
  - cbn [map fst] in H. apply Forall_cons_iff in H. destruct H as [Hk Hm].
    cbn [app find fst]. destruct (Z.eqb_spec k key) as [->|Hne].
    + replace (key =? key') with false by (symmetry; apply Z.eqb_neq; lia).
      reflexivity.
    + apply IH. exact Hm.
Qed.

Lemma Map_get_absent key m :
  Forall (fun k => k < key) (Map_keys m) -> Map_get key m = None.
Proof.
  unfold Map_get, Map_keys. induction m as [|[k v] m IH]; intros H;
    [reflexivity|].
  cbn [map fst] in H. apply Forall_cons_iff in H. destruct H as [Hk Hm].
  cbn [find fst].
  replace (k =? key) with false by (symmetry; apply Z.eqb_neq; lia).
  apply IH. exact Hm.
Qed.

(** X18. actionAddQueue stores the method with its promise under the key
    queueIndex held before the call, a key that was free; it leaves every
    other entry as it was, puts the new key last in iteration order,
    increments queueIndex by one, and keeps the keys increasing and below
    queueIndex. *)
Theorem actionAddQueue_lookup (method : task) s :
  queue_ok s ->
  let p := fst (actionAddQueue method s) in
  let s' := snd (actionAddQueue method s) in
  p = nextPromise s
  /\ nextPromise s' = p + 1
  /\ queueIndex s' = queueIndex s + 1
  /\ Map_get (queueIndex s) (queue s) = None
  /\ Map_get (queueIndex s) (queue s')
     = Some {| promise := p; method := method |}
  /\ (forall key, key <> queueIndex s ->
        Map_get key (queue s') = Map_get key (queue s))
  /\ Map_keys (queue s') = Map_keys (queue s) ++ [queueIndex s]
  /\ queue_ok s'.
Proof.
  intros Hok. pose proof Hok as Hsorted. apply sorted_snoc in Hsorted.
  destruct Hsorted as [Hs Hb].
  destruct (actionAddQueue_spec method s Hb) as (Hp & Hq & Hi & Hn & _).
  cbv zeta in *. rewrite Hp, Hq, Hi, Hn.
  split; [reflexivity|]. split; [reflexivity|]. split; [reflexivity|].
  split.
  { apply Map_get_absent. exact Hb. }
  split; [rewrite Map_get_app_fresh, Z.eqb_refl by exact Hb; reflexivity|].
  split.
  { intros key Hne. rewrite Map_get_app_fresh by exact Hb.
    replace (key =? queueIndex s) with false by (symmetry; apply Z.eqb_neq; lia).
    reflexivity. }
  split; [apply keys_app|].
  apply queue_ok_actionAddQueue. exact Hok.
Qed.

(** ** The flag [process] *)





(** ** Release and the offline timer *)

Lemma armed_clearTimeout (handle : Z) s :
  armed handle (clearTimeout handle s) = false.
Proof.
  unfold armed, clearTimeout. cbn [timers set_timers].
  induction (timers s) as [|[h d] l IH]; [reflexivity|].
  cbn [filter fst]. destruct (Z.eqb_spec h handle) as [E|E]; cbn [negb].
  - exact IH.
  - cbn [existsb fst]. apply Z.eqb_neq in E. rewrite E. exact IH.
Qed.

Lemma timerFires_disarmed (handle : Z) s :
  armed handle s = false -> timerFires handle s = s.
Proof. intros H. unfold timerFires. rewrite H. reflexivity. Qed.

(** X20. When the guard is open and update returns, inputBus returns
    normally with online set, progress cleared, a new offline timer armed
    with options.offTimeout and one render at the end that shows this state. *)
Theorem inputBus_success_releases
  (update : State -> completion Exn unit * State) (provider : Z) s
  (u : unit) (s' : State) :
  process s = false ->
  update (runQueue (acquire provider s)) = (Returned u, s') ->
  let after := snd (inputBus update provider s) in
  fst (inputBus update provider s) = Returned tt
  /\ online after = true
  /\ progress after = Some false
  /\ offlineTimer after = nextTimer s'
  /\ timers after = timers s' ++ [(nextTimer s', offTimeout s')]
  /\ armed (offlineTimer after) after = true
  /\ trace after = trace s' ++ [Render true (process s') (Some false)].
Proof.
  intros Hp Hu. cbv zeta. rewrite (inputBus_returned update provider s u s' Hp Hu).
  cbn [fst snd].
  destruct (oGate_releases (set_online true s')) as (Ht & Ho & Hg & Hr).
  cbn [timers nextTimer offTimeout trace online process set_online] in *.
  rewrite Ho, Hg, Hr. split; [reflexivity|]. split; [reflexivity|].
  split; [reflexivity|]. split; [reflexivity|]. split; [exact Ht|].
  split; [|reflexivity].
  unfold armed. rewrite Ht, existsb_app. cbn [existsb fst].
  rewrite Z.eqb_refl. apply orb_true_iff. right. reflexivity.
Qed.

(** X21. The timer oGate arms is pending after oGate; when it fires,
    online becomes false and the handle is cleared, and a second firing of
    the same handle changes nothing. *)
Theorem offline_timer_fires s :
  let released := oGate s in
  let handle := offlineTimer released in
  let fired := timerFires handle released in
  armed handle released = true
  /\ online fired = false
  /\ offlineTimer fired = 0
  /\ armed handle fired = false
  /\ timerFires handle fired = fired.
Proof.
  cbv zeta.
  assert (Ha : armed (offlineTimer (oGate s)) (oGate s) = true).
  { unfold armed. destruct (oGate_releases s) as (Ht & Ho & _).
    rewrite Ht, Ho, existsb_app. cbn [existsb fst].
    rewrite Z.eqb_refl. apply orb_true_iff. right. reflexivity. }
  assert (E : timerFires (offlineTimer (oGate s)) (oGate s)
              = set_online false
                  (set_offlineTimer 0
                     (clearTimeout (offlineTimer (oGate s)) (oGate s))))
    by (unfold timerFires; rewrite Ha; reflexivity).
  rewrite E.
  assert (Hd : armed (offlineTimer (oGate s))
                 (set_online false
                    (set_offlineTimer 0
                       (clearTimeout (offlineTimer (oGate s)) (oGate s))))
               = false)
    by (apply (armed_clearTimeout (offlineTimer (oGate s)) (oGate s))).
  split; [exact Ha|]. split; [reflexivity|]. split; [reflexivity|].
  split; [exact Hd|]. apply timerFires_disarmed. exact Hd.
Qed.

(** X22. A handoff that arrives before the offline timer fires cancels
    it: after the acquisition the timer that oGate armed is no longer pending,
    its firing would change nothing, online is kept and progress is set. *)
Theorem reacquire_cancels_timer (provider : Z) s :
  nextTimer s <> 0 ->
  let released := oGate s in
  let handle := offlineTimer released in
  let held := acquire provider released in
  armed handle released = true
  /\ armed handle held = false
  /\ timerFires handle held = held
  /\ online held = online s
  /\ progress held = Some true.
Proof.
  intros Hn. cbv zeta.
  destruct (oGate_releases s) as (Ht & Ho & _).
  assert (Ha : armed (offlineTimer (oGate s)) (oGate s) = true).
  { unfold armed. rewrite Ht, Ho, existsb_app. cbn [existsb fst].
    rewrite Z.eqb_refl. apply orb_true_iff. right. reflexivity. }
  assert (Htruthy : JS.truthy (offlineTimer (oGate s)) = true).
  { rewrite Ho. unfold JS.truthy. apply negb_true_iff. apply Z.eqb_neq. exact Hn. }
  assert (Hd : armed (offlineTimer (oGate s)) (acquire provider (oGate s)) = false).
  { unfold acquire, iGate. cbv zeta.
    cbn [offlineTimer set_Provider emit] in *. rewrite Htruthy.
    apply (armed_clearTimeout (offlineTimer (oGate s))
             (emit (CanRequest provider) (set_Provider (Some provider) (oGate s)))). }
  split; [exact Ha|]. split; [exact Hd|].
  split; [apply timerFires_disarmed; exact Hd|].
  unfold acquire, iGate. cbv zeta.
  cbn [offlineTimer set_Provider emit] in *. rewrite Htruthy.
  split; reflexivity.
Qed.

End Cycles.

Lemma actionAddQueue_lookup_witness :
  Map_get 4 (queue (snd (actionAddQueue (returning 40) threeQueued)))
  = Some {| promise := 4; method := returning 40 |}.
Proof.
  assert (Hok : queue_ok threeQueued).
  { unfold queue_ok. cbn. repeat constructor; lia. }
  exact (proj1 (proj2 (proj2 (proj2 (proj2
           (actionAddQueue_lookup (returning 40) threeQueued Hok)))))).
Defined.


Lemma inputBus_success_releases_witness :
  timers (snd (inputBus idlePoll 1 (init 30000 []))) = [(1, 30000)]
  /\ progress (snd (inputBus idlePoll 1 (init 30000 []))) = Some false.
Proof.
  destruct (inputBus_success_releases idlePoll 1 (init 30000 []) tt
              (runQueue (acquire 1 (init 30000 []))) eq_refl eq_refl)
    as (_ & _ & Hp & _ & Ht & _).
  split; [exact Ht|exact Hp].
Defined.

Lemma reacquire_cancels_timer_witness :
  armed 1 (acquire 2 (oGate (init (Method := task (list Z) Z error)
                               (Value := Z) (Exn := error) 30000 (@nil Z))))
  = false.
Proof.
  refine (proj1 (proj2 (reacquire_cancels_timer 2
                          (init (Method := task (list Z) Z error)
                             (Value := Z) (Exn := error) 30000 (@nil Z)) _))).
  discriminate.
Defined.

(** * Properties of the discrete-input device *)

Section DiscreteInputs.

Import UniversalDI.

Lemma length_replaceAt (a : list (option Z)) (i : nat) (v : Z) :
  length (replaceAt a i v) = length a.
Proof.
  revert i. induction a as [|x a IH]; intros [|i]; simpl; try reflexivity.
  rewrite IH. reflexivity.
Qed.

Lemma arrayGet_replaceAt (a : list (option Z)) (i k : nat) (v : Z) :
  (i < length a)%nat ->
  arrayGet (replaceAt a i v) k = if (k =? i)%nat then Some v else arrayGet a k.
Proof.
  unfold arrayGet. revert i k.
  induction a as [|x a IH]; intros [|i] [|k] H; simpl in *;
    try lia; try reflexivity.
  apply IH. lia.
Qed.

Lemma bit_of_mask (mask : Z) (i : nat) :
  0 <= mask < 2 ^ 31 -> (i < 32)%nat ->
  JS.and (JS.shr mask (Z.of_nat i)) 1 = Z.b2z (Z.testbit mask (Z.of_nat i)).
Proof.
  intros Hm Hi. unfold JS.and, JS.shr.
  rewrite (to_int32_small mask) by lia.
  rewrite (Z.mod_small (Z.of_nat i)) by lia.
  assert (Hs : 0 <= Z.shiftr mask (Z.of_nat i) <= mask).
  { rewrite Z.shiftr_div_pow2 by lia.
    assert (0 < 2 ^ Z.of_nat i) by (apply Z.pow_pos_nonneg; lia).
    split; [apply Z.div_pos; lia|].
    apply Z.div_le_upper_bound; nia. }
  rewrite to_int32_small by lia.
  change (JS.to_int32 1) with (Z.ones 1). rewrite Z.land_ones by lia.
  change (2 ^ 1) with 2. rewrite <- Z.bit0_mod.
  rewrite Z.shiftr_spec by lia. reflexivity.
Qed.

Lemma map_add_seq (a n : nat) :
  map (fun i => (a + i)%nat) (seq 0 n) = seq a n.
Proof.
  induction n as [|n IH]; [reflexivity|].
  rewrite !seq_S, map_app, IH. cbn [map Nat.add]. reflexivity.
Qed.

Lemma map_filter_reindex {A B : Type} (h : A -> A) (f g : A -> B)
  (p q : A -> bool) (l : list A) :
  (forall i, In i l -> f i = g (h i) /\ p i = q (h i)) ->
  map f (filter p l) = map g (filter q (map h l)).
Proof.
  induction l as [|i l IH]; intros H; [reflexivity|].
  cbn [map filter].
  destruct (H i (or_introl eq_refl)) as [Hf Hp]. rewrite <- Hp.
  destruct (p i); cbn [map]; rewrite IH by (intros j Hj; apply H; right; exact Hj);
    [rewrite Hf|]; reflexivity.
Qed.

Section Polling.

Variable countDI : nat.
Variable eachGate : bool.
Variable hasPort : nat -> bool.

Lemma fillDI_S (offset : nat) (mask : Z) (n : nat) (s : State) :
  fillDI eachGate hasPort offset mask (S n) s
  = guarded (fillBit eachGate hasPort offset mask n)
      (fillDI eachGate hasPort offset mask n s).
Proof. reflexivity. Qed.

(** [fillDI] inside the array, on ports that exist. *)
Lemma fillDI_spec (offset : nat) (mask : Z) (bitCount : nat) (s : State) :
  0 <= mask < 256 -> (bitCount <= 8)%nat ->
  (offset + bitCount <= length (di s))%nat ->
  (forall i, (i < bitCount)%nat -> hasPort (offset + i + 1) = true) ->
  exists s' : State,
    fillDI eachGate hasPort offset mask bitCount s = (s', None)
    /\ length (di s') = length (di s)
    /\ (forall k,
          arrayGet (di s') k
          = if (offset <=? k)%nat && (k <? offset + bitCount)%nat
            then Some (Z.b2z (Z.testbit mask (Z.of_nat (k - offset))))
            else arrayGet (di s) k)
    /\ pushed s'
       = pushed s
         ++ map (fun i => ((offset + i + 1)%nat,
                           Z.b2z (Z.testbit mask (Z.of_nat i))))
              (filter (fun i => differs (di s) (offset + i)
                                  (Z.b2z (Z.testbit mask (Z.of_nat i)))
                                || eachGate)
                 (seq 0 bitCount)).
Proof.
  intros Hm. induction bitCount as [|n IH]; intros Hn Hlen Hport.
  - exists s. split; [reflexivity|]. split; [reflexivity|]. split.
    + intros k. destruct (Nat.leb_spec offset k); cbn [andb]; [|reflexivity].
      destruct (Nat.ltb_spec k (offset + 0)); [lia|reflexivity].
    + cbn. rewrite app_nil_r. reflexivity.
  - assert (Hport' : forall i, (i < n)%nat -> hasPort (offset + i + 1) = true)
      by (intros i Hi; apply Hport; lia).
    destruct (IH ltac:(lia) ltac:(lia) Hport') as (s1 & E & Hl & Hg & Hp).
    rewrite fillDI_S, E. cbn [guarded]. unfold fillBit. cbv zeta.
    rewrite bit_of_mask by lia.
    set (bit := Z.b2z (Z.testbit mask (Z.of_nat n))).
    assert (Hsame : arrayGet (di s1) (offset + n) = arrayGet (di s) (offset + n)).
    { rewrite Hg. replace (offset + n <? offset + n)%nat with false
        by (symmetry; apply Nat.ltb_ge; lia).
      rewrite andb_false_r. reflexivity. }
    assert (Hd : differs (di s1) (offset + n) bit = differs (di s) (offset + n) bit)
      by (unfold differs; rewrite Hsame; reflexivity).
    rewrite seq_S, filter_app, map_app, app_assoc, <- Hp. cbn [seq filter Nat.add].
    rewrite Hd. fold bit.
    destruct (differs (di s) (offset + n) bit || eachGate) eqn:Ec.
    + cbn [di pushed]. rewrite Hport by lia.
      unfold arraySet. replace (offset + n <? length (di s1))%nat with true
        by (symmetry; apply Nat.ltb_lt; lia).
      eexists. split; [reflexivity|]. cbn [di pushed map].
      split; [rewrite length_replaceAt; exact Hl|]. split; [|reflexivity].
      intros k. rewrite arrayGet_replaceAt by lia. rewrite Hg.
      destruct (Nat.eqb_spec k (offset + n)) as [->|Hne].
      * replace (offset <=? offset + n)%nat with true
          by (symmetry; apply Nat.leb_le; lia).
        replace (offset + n <? offset + S n)%nat with true
          by (symmetry; apply Nat.ltb_lt; lia).
        cbn [andb]. unfold bit. do 3 f_equal. lia.
      * destruct (Nat.leb_spec offset k); cbn [andb]; [|reflexivity].
        destruct (Nat.ltb_spec k (offset + n));
          destruct (Nat.ltb_spec k (offset + S n)); try reflexivity; lia.
    + exists s1. split; [reflexivity|]. split; [exact Hl|].
      split; [|cbn [map]; rewrite app_nil_r; reflexivity].
      intros k. rewrite Hg.
      destruct (Nat.eq_dec k (offset + n)) as [->|Hne].
      * replace (offset <=? offset + n)%nat with true
          by (symmetry; apply Nat.leb_le; lia).
        replace (offset + n <? offset + S n)%nat with true
          by (symmetry; apply Nat.ltb_lt; lia).
        replace (offset + n <? offset + n)%nat with false
          by (symmetry; apply Nat.ltb_ge; lia).
        cbn [andb].
        apply orb_false_iff in Ec. destruct Ec as [Ec _].
        unfold differs in Ec. destruct (arrayGet (di s) (offset + n)) as [v|];
          [|discriminate].
        apply negb_false_iff, Z.eqb_eq in Ec. subst v.
        unfold bit. do 3 f_equal. lia.
      * destruct (Nat.leb_spec offset k); cbn [andb]; [|reflexivity].
        destruct (Nat.ltb_spec k (offset + n));
          destruct (Nat.ltb_spec k (offset + S n)); try reflexivity; lia.
Qed.

Lemma updateDI_S (resp : ModbusResponse) (n : nat) (s : State) :
  for_loop (S n) (fun i => guarded (decodeByte countDI eachGate hasPort resp i)) (s, None)
  = guarded (decodeByte countDI eachGate hasPort resp n)
      (for_loop n (fun i => guarded (decodeByte countDI eachGate hasPort resp i)) (s, None)).
Proof. reflexivity. Qed.

Lemma inputBit_byte (payload : Buffer) (n k : nat) :
  (8 * n <= k < 8 * n + 8)%nat ->
  Z.b2z (Z.testbit (u8 (nth n payload x00)) (Z.of_nat (k - n * 8)))
  = inputBit payload k.
Proof.
  intros H. unfold inputBit.
  assert (Hq : (k / 8 = n)%nat)
    by (symmetry; apply (Nat.div_unique k 8 n (k - 8 * n)); lia).
  assert (Hr : (k mod 8 = k - n * 8)%nat)
    by (symmetry; apply (Nat.mod_unique k 8 n (k - n * 8)); lia).
  rewrite Hq, Hr. reflexivity.
Qed.

(** The state after the first [n] bytes of the reply have been decoded. *)
Lemma updateDI_prefix (resp : ModbusResponse) (s : State) (n : nat) :
  (countDI <= length (di s))%nat ->
  (forall k, (k < countDI)%nat -> hasPort (k + 1) = true) ->
  (n <= (countDI + 7) / 8)%nat -> (n <= length (data resp))%nat ->
  exists s' : State,
    for_loop n (fun i => guarded (decodeByte countDI eachGate hasPort resp i)) (s, None)
    = (s', None)
    /\ length (di s') = length (di s)
    /\ (forall k,
          arrayGet (di s') k
          = if (k <? Nat.min (8 * n) countDI)%nat
            then Some (inputBit (data resp) k) else arrayGet (di s) k)
    /\ pushed s'
       = pushed s
         ++ expectedPushes eachGate (di s) (data resp) (Nat.min (8 * n) countDI).
Proof.
  intros Hlen Hport. induction n as [|n IH]; intros Hn Hd.
  - exists s. split; [reflexivity|]. split; [reflexivity|].
    split; [intros k; reflexivity|].
    unfold expectedPushes. cbn. rewrite app_nil_r. reflexivity.
  - destruct (IH ltac:(lia) ltac:(lia)) as (s1 & E & Hl & Hg & Hp).
    assert (Hlt : (8 * n < countDI)%nat).
    { assert (S n * 8 <= countDI + 7)%nat; [|lia].
      transitivity (((countDI + 7) / 8) * 8)%nat.
      - apply Nat.mul_le_mono_r. exact Hn.
      - rewrite Nat.mul_comm. apply Nat.Div0.mul_div_le. }
    rewrite (Nat.min_l (8 * n) countDI) in Hg, Hp by lia.
    rewrite updateDI_S, E. cbn [guarded]. unfold decodeByte.
    destruct (nth_error (data resp) n) as [b|] eqn:Eb;
      [|apply nth_error_None in Eb; lia].
    rewrite (readUInt8_nth _ _ _ Eb). cbv zeta.
    assert (Hb : nth n (data resp) x00 = b) by (apply nth_error_nth; exact Eb).
    set (bits := Nat.min 8 (countDI - n * 8)).
    assert (Hm : Nat.min (8 * S n) countDI = (8 * n + bits)%nat)
      by (unfold bits; lia).
    destruct (fillDI_spec (n * 8) (u8 b) bits s1) as (s2 & E2 & Hl2 & Hg2 & Hp2).
    + pose proof (u8_range b). lia.
    + unfold bits. lia.
    + rewrite Hl. unfold bits. lia.
    + intros i Hi. replace (n * 8 + i + 1)%nat with ((n * 8 + i) + 1)%nat by lia.
      apply Hport. unfold bits in Hi. lia.
    + exists s2. split; [exact E2|]. split; [congruence|]. rewrite Hm. split.
      * intros k. rewrite Hg2, Hg.
        destruct (Nat.leb_spec (n * 8) k); cbn [andb].
        -- destruct (Nat.ltb_spec k (n * 8 + bits)).
           ++ replace (k <? 8 * n + bits)%nat with true
                by (symmetry; apply Nat.ltb_lt; lia).
              rewrite <- Hb. f_equal. apply inputBit_byte. unfold bits in *. lia.
           ++ replace (k <? 8 * n + bits)%nat with false
                by (symmetry; apply Nat.ltb_ge; lia).
              replace (k <? 8 * n)%nat with false
                by (symmetry; apply Nat.ltb_ge; lia).
              reflexivity.
        -- replace (k <? 8 * n + bits)%nat with true
             by (symmetry; apply Nat.ltb_lt; lia).
           replace (k <? 8 * n)%nat with true
             by (symmetry; apply Nat.ltb_lt; lia).
           reflexivity.
      * rewrite Hp2, Hp, <- app_assoc. f_equal.
        unfold expectedPushes.
        rewrite seq_app, filter_app, map_app. f_equal.
        cbn [Nat.add].
        replace (seq (8 * n) bits) with (map (fun i => (n * 8 + i)%nat) (seq 0 bits)).
        2:{ replace (8 * n)%nat with (n * 8)%nat by lia. apply map_add_seq. }
        apply map_filter_reindex. intros i Hi. apply in_seq in Hi.
        assert (Hbit : Z.b2z (Z.testbit (u8 b) (Z.of_nat i))
                       = inputBit (data resp) (n * 8 + i)).
        { rewrite <- Hb.
          rewrite <- (inputBit_byte _ n) by (unfold bits in Hi; lia).
          do 3 f_equal. lia. }
        rewrite Hbit. split; [reflexivity|].
        unfold differs. rewrite Hg.
        replace (n * 8 + i <? 8 * n)%nat with false
          by (symmetry; apply Nat.ltb_ge; lia).
        reflexivity.
Qed.

Lemma min_bytes (c : nat) : Nat.min (8 * ((c + 7) / 8)) c = c.
Proof.
  apply Nat.min_r.
  pose proof (Nat.div_mod_eq (c + 7) 8) as E.
  pose proof (Nat.mod_upper_bound (c + 7) 8 ltac:(lia)). lia.
Qed.

Lemma guarded_thrown (f : nat -> State -> State * option thrown)
  (s : State) (e : thrown) (m n : nat) (s0 : State) :
  (m <= n)%nat ->
  for_loop m (fun i => guarded (f i)) (s0, None) = (s, Some e) ->
  for_loop n (fun i => guarded (f i)) (s0, None) = (s, Some e).
Proof.
  intros Hmn E. induction Hmn as [|n Hmn IH]; [exact E|].
  rewrite for_loop_S, IH. reflexivity.
Qed.

Lemma preProcess_di (s : State) :
  preProcess countDI s
  = {| di := di s ++ repeat (Some 0) countDI; pushed := pushed s |}.
Proof.
  unfold preProcess. induction countDI as [|n IH].
  - cbn. rewrite app_nil_r. destruct s; reflexivity.
  - rewrite for_loop_S, IH. cbn [di pushed]. rewrite <- app_assoc.
    do 2 f_equal. change [Some 0] with (repeat (Some 0) 1).
    rewrite <- repeat_app. f_equal. lia.
Qed.

Lemma differs_same (a : list (option Z)) (k : nat) (v : Z) :
  arrayGet a k = Some v -> differs a k v = false.
Proof. intros E. unfold differs. rewrite E, Z.eqb_refl. reflexivity. Qed.

Lemma expectedPushes_nil (stored : list (option Z)) (payload : Buffer)
  (count : nat) :
  (forall k, (k < count)%nat -> arrayGet stored k = Some (inputBit payload k)) ->
  expectedPushes false stored payload count = [].
Proof.
  intros H. unfold expectedPushes.
  assert (Hall : forall k, In k (seq 0 count) -> (k < count)%nat)
    by (intros k Hk; apply in_seq in Hk; lia).
  revert Hall. generalize (seq 0 count) as l.
  induction l as [|k l IH]; intros Hall; [reflexivity|].
  cbn [filter]. rewrite differs_same by (apply H, Hall; left; reflexivity).
  cbn [orb]. apply IH. intros j Hj. apply Hall. right. exact Hj.
Qed.

(** X23. With an input array of at least countDI entries, ports di1 to
    di<countDI> and a reply of at least ceil(countDI / 8) bytes, updateDI
    does not throw; entry k below countDI becomes bit (k mod 8) of reply
    byte (k / 8), the other entries and the length are unchanged, and the
    pushes are, in order of k, the value of input k on port k + 1, for the
    inputs whose stored value differs (all of them with eachGate). *)
Theorem updateDI_decodes (resp : ModbusResponse) (s : State) :
  (countDI <= length (di s))%nat ->
  (forall k, (k < countDI)%nat -> hasPort (k + 1) = true) ->
  ((countDI + 7) / 8 <= length (data resp))%nat ->
  exists s' : State,
    updateDI countDI eachGate hasPort resp s = (s', None)
    /\ length (di s') = length (di s)
    /\ (forall k,
          arrayGet (di s') k
          = if (k <? countDI)%nat
            then Some (inputBit (data resp) k) else arrayGet (di s) k)
    /\ pushed s'
       = pushed s ++ expectedPushes eachGate (di s) (data resp) countDI.
Proof.
  intros Hlen Hport Hd.
  destruct (updateDI_prefix resp s ((countDI + 7) / 8) Hlen Hport
              (Nat.le_refl _) Hd) as (s' & E & Hl & Hg & Hp).
  rewrite min_bytes in Hg, Hp. exists s'. auto.
Qed.

(** X24. A reply shorter than ceil(countDI / 8) bytes makes updateDI throw
    the range error of readUInt8, after the inputs carried by the bytes
    that are present have been stored and pushed. *)
Theorem updateDI_short_reply (resp : ModbusResponse) (s : State) :
  (countDI <= length (di s))%nat ->
  (forall k, (k < countDI)%nat -> hasPort (k + 1) = true) ->
  (length (data resp) < (countDI + 7) / 8)%nat ->
  exists s' : State,
    updateDI countDI eachGate hasPort resp s = (s', Some BufferRangeError)
    /\ (forall k,
          arrayGet (di s') k
          = if (k <? 8 * length (data resp))%nat
            then Some (inputBit (data resp) k) else arrayGet (di s) k)
    /\ pushed s'
       = pushed s
         ++ expectedPushes eachGate (di s) (data resp) (8 * length (data resp)).
Proof.
  intros Hlen Hport Hd.
  destruct (updateDI_prefix resp s (length (data resp)) Hlen Hport
              ltac:(lia) (Nat.le_refl _)) as (s' & E & Hl & Hg & Hp).
  assert (Hmin : Nat.min (8 * length (data resp)) countDI
                 = (8 * length (data resp))%nat).
  { apply Nat.min_l.
    pose proof (Nat.div_mod_eq (countDI + 7) 8).
    pose proof (Nat.mod_upper_bound (countDI + 7) 8 ltac:(lia)). lia. }
  rewrite Hmin in Hg, Hp. exists s'. split; [|split; assumption].
  unfold updateDI. cbv zeta.
  apply (guarded_thrown _ _ _ (S (length (data resp)))); [lia|].
  rewrite updateDI_S, E. cbn [guarded]. unfold decodeByte.
  unfold Buf.readUInt8.
  replace (nth_error (data resp) (length (data resp))) with (@None byte)
    by (symmetry; apply nth_error_None; lia).
  reflexivity.
Qed.

End Polling.

Lemma map_filter_ext {A B : Type} (f g : A -> B) (p q : A -> bool)
  (l : list A) :
  (forall i, In i l -> p i = q i /\ (p i = true -> f i = g i)) ->
  map f (filter p l) = map g (filter q l).
Proof.
  induction l as [|i l IH]; intros H; [reflexivity|].
  cbn [filter]. destruct (H i (or_introl eq_refl)) as [Hp Hf]. rewrite <- Hp.
  destruct (p i); cbn [map];
    rewrite IH by (intros j Hj; apply H; right; exact Hj);
    [rewrite Hf by reflexivity|]; reflexivity.
Qed.

Lemma inputBit_cases (payload : Buffer) (k : nat) :
  inputBit payload k = 0 \/ inputBit payload k = 1.
Proof.
  unfold inputBit. destruct (Z.testbit _ _); [right|left]; reflexivity.
Qed.

Lemma arrayGet_ext (a b : list (option Z)) :
  length a = length b -> (forall k, arrayGet a k = arrayGet b k) -> a = b.
Proof. intros Hl H. apply (nth_ext a b None None Hl). intros k _. apply H. Qed.

(** X25. Without eachGate, polling twice with the same reply changes
    nothing the second time: the inputs stored by the first poll are kept
    and no port is pushed again. *)
Theorem updateDI_repeat_silent (countDI : nat) (hasPort : nat -> bool)
  (resp : ModbusResponse) (s : State) :
  (countDI <= length (di s))%nat ->
  (forall k : nat, (k < countDI)%nat -> hasPort (k + 1)%nat = true) ->
  ((countDI + 7) / 8 <= length (data resp))%nat ->
  exists s' : State,
    updateDI countDI false hasPort resp s = (s', None)
    /\ updateDI countDI false hasPort resp s' = (s', None).
Proof.
  intros Hlen Hport Hd.
  destruct (updateDI_prefix countDI false hasPort resp s ((countDI + 7) / 8)
              Hlen Hport (Nat.le_refl _) Hd) as (s1 & E1 & Hl1 & Hg1 & _).
  assert (Hlen1 : (countDI <= length (di s1))%nat) by lia.
  destruct (updateDI_prefix countDI false hasPort resp s1 ((countDI + 7) / 8)
              Hlen1 Hport (Nat.le_refl _) Hd) as (s2 & E2 & Hl2 & Hg2 & Hp2).
  rewrite min_bytes in Hg1, Hg2, Hp2.
  exists s1. split; [exact E1|]. unfold updateDI. cbv zeta. rewrite E2.
  f_equal. destruct s1 as [d1 p1], s2 as [d2 p2]. cbn [di pushed] in *.
  f_equal.
  - apply arrayGet_ext; [exact Hl2|]. intros k. rewrite Hg2.
    destruct (k <? countDI)%nat eqn:Ek; [|reflexivity].
    rewrite Hg1, Ek. reflexivity.
  - rewrite Hp2, expectedPushes_nil, app_nil_r; [reflexivity|].
    intros k Hk. rewrite Hg1.
    replace (k <? countDI)%nat with true by (symmetry; apply Nat.ltb_lt; lia).
    reflexivity.
Qed.

(** X26. The first poll after preProcess, without eachGate, stores every
    input of the reply and pushes 1 on the ports of the inputs that are set,
    in increasing order, and nothing on the others. *)
Theorem first_poll_after_preProcess (countDI : nat) (hasPort : nat -> bool)
  (resp : ModbusResponse) :
  (forall k : nat, (k < countDI)%nat -> hasPort (k + 1)%nat = true) ->
  ((countDI + 7) / 8 <= length (data resp))%nat ->
  updateDI countDI false hasPort resp
    (preProcess countDI {| di := []; pushed := [] |})
  = ({| di := map (fun k : nat => Some (inputBit (data resp) k)) (seq 0 countDI);
        pushed := map (fun k : nat => ((k + 1)%nat, 1))
                    (filter (fun k => inputBit (data resp) k =? 1)
                       (seq 0 countDI)) |}, None).
Proof.
  intros Hport Hd. rewrite preProcess_di. cbn [di pushed app].
  set (s := {| di := repeat (Some 0) countDI; pushed := [] |}).
  assert (Hlen : (countDI <= length (di s))%nat)
    by (cbn [s di]; rewrite repeat_length; lia).
  destruct (updateDI_prefix countDI false hasPort resp s ((countDI + 7) / 8)
              Hlen Hport (Nat.le_refl _) Hd) as (s1 & E1 & Hl1 & Hg1 & Hp1).
  rewrite min_bytes in Hg1, Hp1.
  unfold updateDI. cbv zeta. rewrite E1. f_equal.
  destruct s1 as [d1 p1]. cbn [di pushed s app] in *. f_equal.
  - apply arrayGet_ext.
    + rewrite Hl1, repeat_length, length_map, length_seq. reflexivity.
    + intros k. rewrite Hg1. unfold arrayGet.
      destruct (Nat.ltb_spec k countDI) as [Hk|Hk].
      * rewrite (nth_indep _ None (Some (inputBit (data resp) 0)))
          by (rewrite length_map, length_seq; exact Hk).
        rewrite (map_nth (fun k => Some (inputBit (data resp) k))).
        rewrite seq_nth by exact Hk. reflexivity.
      * rewrite !nth_overflow; [reflexivity| |].
        -- rewrite length_map, length_seq. exact Hk.
        -- rewrite repeat_length. exact Hk.
  - rewrite Hp1. unfold expectedPushes. apply map_filter_ext.
    intros k Hk. apply in_seq in Hk.
    assert (Eg : arrayGet (repeat (Some 0) countDI) k = Some 0).
    { unfold arrayGet. rewrite (nth_indep _ None (Some 0))
        by (rewrite repeat_length; lia).
      apply nth_repeat. }
    unfold differs. rewrite Eg, orb_false_r.
    destruct (inputBit_cases (data resp) k) as [-> | ->];
      split; try reflexivity; discriminate.
Qed.

End DiscreteInputs.

Lemma diPorts_ok (count k : nat) :
  (k < count)%nat -> diPorts count (k + 1) = true.
Proof.
  intros H. unfold diPorts. apply andb_true_intro.
  split; apply Nat.leb_le; lia.
Qed.

Lemma updateDI_decodes_witness :
  exists s' : UniversalDI.State,
    UniversalDI.updateDI 10 false (diPorts 10) (diReply [x05; x02]) (diZeros 10)
    = (s', None)
    /\ length (UniversalDI.di s') = length (UniversalDI.di (diZeros 10))
    /\ (forall k,
          UniversalDI.arrayGet (UniversalDI.di s') k
          = if (k <? 10)%nat
            then Some (UniversalDI.inputBit [x05; x02] k)
            else UniversalDI.arrayGet (UniversalDI.di (diZeros 10)) k)
    /\ UniversalDI.pushed s'
       = [] ++ UniversalDI.expectedPushes false (UniversalDI.di (diZeros 10))
                 [x05; x02] 10.
Proof.
  apply (updateDI_decodes 10 false (diPorts 10)
           (diReply [x05; x02]) (diZeros 10)).
  - vm_compute. lia.
  - intros k Hk. apply diPorts_ok. exact Hk.
  - vm_compute. lia.
Defined.

Lemma updateDI_short_reply_witness :
  exists s' : UniversalDI.State,
    UniversalDI.updateDI 10 false (diPorts 10) (diReply [x05]) (diZeros 10)
    = (s', Some UniversalDI.BufferRangeError)
    /\ (forall k,
          UniversalDI.arrayGet (UniversalDI.di s') k
          = if (k <? 8 * 1)%nat
            then Some (UniversalDI.inputBit [x05] k)
            else UniversalDI.arrayGet (UniversalDI.di (diZeros 10)) k)
    /\ UniversalDI.pushed s'
       = [] ++ UniversalDI.expectedPushes false (UniversalDI.di (diZeros 10))
                 [x05] (8 * 1).
Proof.
  apply (updateDI_short_reply 10 false (diPorts 10)
           (diReply [x05]) (diZeros 10)).
  - vm_compute. lia.
  - intros k Hk. apply diPorts_ok. exact Hk.
  - vm_compute. lia.
Defined.

Lemma updateDI_repeat_silent_witness :
  exists s' : UniversalDI.State,
    UniversalDI.updateDI 10 false (diPorts 10) (diReply [x05; x02]) (diZeros 10)
    = (s', None)
    /\ UniversalDI.updateDI 10 false (diPorts 10) (diReply [x05; x02]) s'
       = (s', None).
Proof.
  apply (updateDI_repeat_silent 10 (diPorts 10)
           (diReply [x05; x02]) (diZeros 10)).
  - vm_compute. lia.
  - intros k Hk. apply diPorts_ok. exact Hk.
  - vm_compute. lia.
Defined.

Lemma first_poll_after_preProcess_witness :
  UniversalDI.updateDI 10 false (diPorts 10) (diReply [x05; x02])
    (UniversalDI.preProcess 10
       {| UniversalDI.di := []; UniversalDI.pushed := [] |})
  = ({| UniversalDI.di :=
          map (fun k : nat => Some (UniversalDI.inputBit [x05; x02] k)) (seq 0 10);
        UniversalDI.pushed :=
          map (fun k : nat => ((k + 1)%nat, 1))
            (filter (fun k => UniversalDI.inputBit [x05; x02] k =? 1)
               (seq 0 10)) |}, None).
Proof.
  apply (first_poll_after_preProcess 10 (diPorts 10)
           (diReply [x05; x02])).
  - intros k Hk. apply diPorts_ok. exact Hk.
  - vm_compute. lia.
Defined.
